(** * pylbm: construction of the lattice-Boltzmann domain

    A shallow embedding of [pylbm/domain.py] (class [Domain]) and the
    properties of its construction algorithm: the halo layout, the stamping
    of the primary box and the folding of the obstacles.

    Conventions of the embedding.
    - NumPy floats are exact rationals ([Q]); [in_or_out] only ever holds
      the two integer sentinels and is kept in [Z], as [flag] is.  The one
      test made on a float, [is_integer] on the number of cells of the
      box, is computed in binary64 ([spec_float], precision 53), as the
      code computes it: a rational of the configuration stands for the
      double nearest to it.
    - An n-dimensional array is a function of the multi-index ([index]);
      the allocated shape is kept next to it ([shape_halo]).  Masked and
      fancy assignments of NumPy become pointwise updates.
    - A basic slice follows Python: a negative bound counts from the end
      and every bound is clipped to the length ([norm_idx]).
    - [Geometry], [Stencil], [MpiTopology] and the elements are
      collaborators of [Domain] that live in other modules; they appear as
      records holding exactly what [Domain] reads from them. *)

From Stdlib Require Import ZArith QArith Qminmax List Bool Lia Sorting.Sorted.
From Stdlib Require Import Sorting.Permutation.
From Stdlib Require Import SpecFloat.
Import ListNotations.

Open Scope Z_scope.

(** ** Exceptions and results *)

Inductive exn : Type :=
| SystemExit   (* sys.exit() after the configuration error *)
| IndexError   (* integer index out of range *)
| ValueError.  (* shapes that cannot be broadcast together, bad linspace *)

Inductive result (A : Type) : Type :=
| Ok (a : A)
| Raise (e : exn).

Arguments Ok {A} a.
Arguments Raise {A} e.

Definition bind {A B : Type} (r : result A) (f : A -> result B) : result B :=
  match r with
  | Ok a => f a
  | Raise e => Raise e
  end.

Notation "x <- c ;; k" := (bind c (fun x => k))
  (at level 61, c at next level, right associativity).

Definition is_ok {A : Type} (r : result A) : bool :=
  match r with Ok _ => true | Raise _ => false end.

(** [for x in l: s = body(x, s)], stopping at the first exception. *)
Fixpoint for_each {A S : Type} (l : list A) (body : A -> S -> result S) (s : S)
  : result S :=
  match l with
  | [] => Ok s
  | x :: l' => s' <- body x s ;; for_each l' body s'
  end.

(** [range(n)] as a list of integers. *)
Definition range (n : Z) : list Z := map Z.of_nat (seq 0 (Z.to_nat n)).

(** ** Python indexing *)

Definition index : Type := list Z.

(** [l[k]] for a non-negative position [k]. *)
Definition lookup {A : Type} (l : list A) (k : nat) : result A :=
  match nth_error l k with
  | Some a => Ok a
  | None => Raise IndexError
  end.

(** [l[k] = v] on a Python list. *)
Fixpoint setitem {A : Type} (l : list A) (k : nat) (v : A) : result (list A) :=
  match l, k with
  | [], _ => Raise IndexError
  | _ :: l', O => Ok (v :: l')
  | a :: l', S k' => l'' <- setitem l' k' v ;; Ok (a :: l'')
  end.

(** An integer index [i] on an axis of length [n]: negative indices count
    from the end, anything else outside [0, n) raises. *)
Definition py_index (n i : Z) : result Z :=
  if (0 <=? i) && (i <? n) then Ok i
  else if (i <? 0) && (- n <=? i) then Ok (i + n)
  else Raise IndexError.

(** A slice bound [i] on an axis of length [n]. *)
Definition norm_idx (n i : Z) : Z :=
  if i <? 0 then Z.max 0 (i + n) else Z.min i n.

(** [slice(a, b)] on an axis of length [n]: first position and length. *)
Definition slice_lo (n a : Z) : Z := norm_idx n a.
Definition slice_len (n a b : Z) : Z := Z.max 0 (norm_idx n b - norm_idx n a).

(** [l[a:b]] on a list. *)
Definition slice_list {A : Type} (l : list A) (a b : Z) : list A :=
  let n := Z.of_nat (length l) in
  firstn (Z.to_nat (slice_len n a b)) (skipn (Z.to_nat (slice_lo n a)) l).

(** A window of an n-dimensional array: per axis, first position and
    length in the base array.  A NumPy view made of basic slices. *)
Definition window : Type := list (Z * Z).

Definition mk_window (shape : list Z) (sl : list (Z * Z)) : window :=
  map (fun p => (slice_lo (fst p) (fst (snd p)),
                 slice_len (fst p) (fst (snd p)) (snd (snd p))))
      (combine shape sl).

Definition win_shape (w : window) : list Z := map snd w.

(** Number of entries of an array of that shape ([ndarray.size]). *)
Definition size_of (shape : list Z) : Z := fold_right Z.mul 1 shape.

(** Whether the base multi-index [x] lies in the window. *)
Fixpoint in_window (w : window) (x : index) : bool :=
  match w, x with
  | [], [] => true
  | (lo, len) :: w', i :: x' => (lo <=? i) && (i <? lo + len) && in_window w' x'
  | _, _ => false
  end.

(** Position of the base multi-index [x] relative to the window. *)
Definition rel (w : window) (x : index) : index :=
  map (fun p => snd p - fst (fst p)) (combine w x).

(** Base multi-index of the position [j] of the window. *)
Definition base (w : window) (j : index) : index :=
  map (fun p => fst (fst p) + snd p) (combine w j).

(** NumPy broadcasting of a mask of shape [s'] against masks of shape
    [s]: whether, on every axis, the two lengths are equal or the one of
    [s'] is 1, so that the combined mask has the shape [s]. *)
Fixpoint compatible (s s' : list Z) : bool :=
  match s, s' with
  | [], [] => true
  | a :: t, b :: t' => ((a =? b) || (b =? 1)) && compatible t t'
  | _, _ => false
  end.

(** The position read in a mask of shape [s'] for the position [j] of
    the combined mask: the only one there is along an axis of length 1. *)
Definition bcast (s' : list Z) (j : index) : index :=
  map (fun p => if fst p =? 1 then 0 else snd p) (combine s' j).

(** ** Sentinels *)

Definition valin : Z := 999.   (* value in the fluid domain *)
Definition valout : Z := -1.   (* value in the solid domain *)
Definition interface : Z := -2. (* label of a face shared with a neighbour process *)

Definition valinQ : Q := inject_Z valin.

(** Strict comparison of two floats. *)
Definition Qltb (a b : Q) : bool := negb (Qle_bool b a).

(** ** The collaborators *)

(** What [Domain] reads from a [Stencil]. *)
Record Stencil : Type := {
  vmax : list Z;                     (* per axis, the largest |component| *)
  unique_velocities : list (list Z)  (* the integer vector of each unique velocity *)
}.

Definition unvtot (s : Stencil) : nat := length (unique_velocities s).

(** [uvx], [uvy], [uvz]: component [a] of every unique velocity. *)
Definition uvel (s : Stencil) (a : nat) : list Z :=
  map (fun v => nth a v 0) (unique_velocities s).

(** A stencil as the package builds it: [vmax] bounds every component. *)
Definition stencil_wf (dim : nat) (s : Stencil) : Prop :=
  length (vmax s) = dim /\
  Forall (fun v => length v = dim /\
            Forall2 (fun c m => Z.abs c <= m) v (vmax s))
         (unique_velocities s).

(** What [Domain] reads from an element of the geometry.  The two queries
    are vectorised over the grid in the package; here they are given per
    node, from the coordinates of the node. *)
Record Element : Type := {
  isfluid : bool;
  get_bounds : list Q * list Q;                 (* lower-left, upper-right *)
  point_inside : list Q -> bool;
  distance_to : list Q -> list Q -> Q -> Q * Z; (* node, displacement, dmax *)
  label : list Z
}.

Record Geometry : Type := {
  bounds : list (Q * Q);
  box_label : list Z;
  list_elem : list Element
}.

Definition geom_dim (g : Geometry) : nat := length (bounds g).

(** Modelled from the spec: [Geometry.list_of_elements_labels] is not part
    of the sources at hand; the labels in use are those of every obstacle
    of the list. *)
Definition list_of_elements_labels (g : Geometry) : list Z :=
  flat_map label (list_elem g).

(** What [Domain] asks of the [MpiTopology]: the block of the global grid
    owned by this process, per axis [(begin, end)]. *)
Definition Partitioner : Type := list Q -> list (Z * Z).

(** ** The domain *)

(** The layout, fixed by [create_coords]. *)
Record Layout : Type := {
  dim : nat;
  dx : Q;
  stencil : Stencil;
  coords_halo : list (list Q);
  coords : list (list Q)
}.

(** The three arrays that the construction mutates. *)
Record Arrays : Type := {
  in_or_out : index -> Z;
  distance : nat -> index -> Q;
  flag : nat -> index -> Z
}.

Record Domain : Type := {
  layout : Layout;
  geom : Geometry;
  dom_box_label : list Z;
  global_size : list Q;
  arrays : Arrays
}.

Definition shape_halo (L : Layout) : list Z :=
  map (fun c => Z.of_nat (length c)) (coords_halo L).

Definition shape_in (L : Layout) : list Z :=
  map (fun c => Z.of_nat (length c)) (coords L).

(** Whether [x] is a node of the allocated (halo-inclusive) arrays. *)
Definition in_halo (L : Layout) (x : index) : bool :=
  in_window (map (fun n => (0, n)) (shape_halo L)) x.

(** *** [create_coords] *)

(** The double that stands for a number of the configuration: the one
    nearest to it, ties to even, as Python reads a literal and as NumPy
    stores it ([dtype='f8']).  A double is its own nearest double. *)
Definition float_of (q : Q) : spec_float :=
  match Qnum q with
  | Z0 => S754_zero false
  | Zpos n => SFdiv 53 1024 (S754_finite false n 0) (S754_finite false (Qden q) 0)
  | Zneg n => SFdiv 53 1024 (S754_finite true n 0) (S754_finite false (Qden q) 0)
  end.

(** [(phys_box[k][1] - phys_box[k][0])/self.dx], in binary64: the
    difference is rounded, then the quotient. *)
Definition float_ratio (b : Q * Q) (dx : Q) : spec_float :=
  SFdiv 53 1024 (SFsub 53 1024 (float_of (snd b)) (float_of (fst b)))
        (float_of dx).

(** [float.is_integer]: false on an infinity and on NaN. *)
Definition is_integer (f : spec_float) : bool :=
  match f with
  | S754_zero _ => true
  | S754_finite _ m e =>
      if 0 <=? e then true else (Zpos m mod 2 ^ (- e)) =? 0
  | _ => false
  end.

(** The integer a float that passes [is_integer] holds. *)
Definition float_value (f : spec_float) : Z :=
  match f with
  | S754_finite s m e =>
      cond_Zopp s (if 0 <=? e then Zpos m * 2 ^ e else Zpos m / 2 ^ (- e))
  | _ => 0
  end.

(** The validation loop of [create_coords].  A zero space step makes the
    float quotient infinite or NaN, which is not an integer. *)
Fixpoint global_sizes (phys_box : list (Q * Q)) (dx : Q) : result (list Q) :=
  match phys_box with
  | [] => Ok []
  | b :: rest =>
      let gs := float_ratio b dx in
      if is_integer gs
      then (l <- global_sizes rest dx ;; Ok (inject_Z (float_value gs) :: l))
      else Raise SystemExit
  end.

(** [np.linspace(start, stop, num)]. *)
Definition linspace (start stop : Q) (num : Z) : result (list Q) :=
  if num <? 0 then Raise ValueError
  else Ok (map (fun j => (start + inject_Z j * ((stop - start) / inject_Z (num - 1)))%Q)
               (range num)).

Definition axis_coords_halo (phys_box : list (Q * Q)) (dx : Q)
    (region : list (Z * Z)) (halo_size : list Z) (k : nat) : result (list Q) :=
  b <- lookup phys_box k ;;
  r <- lookup region k ;;
  h <- lookup halo_size k ;;
  let halo_beg := (dx * (inject_Z h - (1 # 2)))%Q in
  linspace (fst b + dx * inject_Z (fst r) - halo_beg)%Q
           (fst b + dx * inject_Z (snd r) + halo_beg)%Q
           ((snd r - fst r) + 2 * h).

Fixpoint collect {A : Type} (l : list (result A)) : result (list A) :=
  match l with
  | [] => Ok []
  | r :: l' => a <- r ;; t <- collect l' ;; Ok (a :: t)
  end.

Definition create_coords (g : Geometry) (st : Stencil) (dx : Q)
    (get_region : Partitioner) : result (list Q * Layout) :=
  gs <- global_sizes (bounds g) dx ;;
  let region := get_region gs in
  let halo_size := vmax st in
  ch <- collect (map (axis_coords_halo (bounds g) dx region halo_size)
                     (seq 0 (geom_dim g))) ;;
  c <- collect (map (fun k => h <- lookup halo_size k ;;
                              Ok (slice_list (nth k ch []) h (- h)))
                    (seq 0 (geom_dim g))) ;;
  Ok (gs, {| dim := geom_dim g; dx := dx; stencil := st;
             coords_halo := ch; coords := c |}).

(** *** [__add_init] *)

(** [phys_domain]: the slices [slice(h, -h)] of the interior. *)
Definition interior (L : Layout) : window :=
  mk_window (shape_halo L) (map (fun h => (h, - h)) (vmax (stencil L))).

(** One pass of the innermost loop of [__add_init]: the row [i] of the
    interior view along axis [a] (an integer index, may be negative), for
    the velocity [k].  [new_indices] keeps, from [np.where] on the row,
    the index arrays of the other axes; in one dimension there is no
    other axis, the answer of [np.where] is dropped and the entry
    [(k, i)] is assigned whatever it holds. *)
Definition stamp (L : Layout) (a k : nat) (i : Z) (dvik : Q) (lab : Z)
    (A : Arrays) : result Arrays :=
  let w := interior L in
  m <- lookup (win_shape w) a ;;
  row <- py_index m i ;;
  let nind (x : index) : bool :=
    in_window w x && (nth a (rel w x) 0 =? row) &&
    (if Nat.eqb (dim L) 1 then true else Qltb dvik (distance A k x)) in
  Ok {| in_or_out := in_or_out A;
        distance := fun k' x =>
          if Nat.eqb k' k && nind x then dvik else distance A k' x;
        flag := fun k' x =>
          if Nat.eqb k' k && nind x then lab else flag A k' x |}.

(** The body of the loop over the unique velocities, for the axis [a]
    and the velocity [k] of component [vk] on that axis. *)
Definition stamp_velocity (L : Layout) (lab : list Z) (a k : nat) (vk : Z)
    (A : Arrays) : result Arrays :=
  if vk <? 0 then
    l <- lookup lab (2 * a) ;;
    if negb (l =? interface) then
      for_each (range (- vk))
        (fun i => stamp L a k i (- (inject_Z i + (1 # 2)) / inject_Z vk)%Q l) A
    else Ok A
  else if 0 <? vk then
    l <- lookup lab (2 * a + 1) ;;
    if negb (l =? interface) then
      for_each (range vk)
        (fun i => stamp L a k (- i - 1) ((inject_Z i + (1 # 2)) / inject_Z vk)%Q l) A
    else Ok A
  else Ok A.

Definition enumerate {A : Type} (l : list A) : list (nat * A) :=
  combine (seq 0 (length l)) l.

Definition stamp_axis (L : Layout) (lab : list Z) (a : nat) (A : Arrays)
    : result Arrays :=
  for_each (enumerate (uvel (stencil L) a))
    (fun kv => stamp_velocity L lab a (fst kv) (snd kv)) A.

(** The classification written first: OUT everywhere, IN on the interior. *)
Definition init_in_or_out (L : Layout) (A : Arrays) : Arrays :=
  {| in_or_out := fun x => if in_window (interior L) x then valin else valout;
     distance := distance A;
     flag := flag A |}.

Definition add_init (L : Layout) (lab : list Z) (A : Arrays) : result Arrays :=
  for_each (seq 0 (Nat.min (dim L) 3)) (stamp_axis L lab) (init_in_or_out L A).

(** *** [__add_elem] *)

(** [np.array(x, np.int)]: a float is cut towards zero. *)
Definition trunc (q : Q) : Z := Z.quot (Qnum q) (Zpos (Qden q)).

(** [get_bounds_halo]: first coordinate of every axis. *)
Definition get_bounds_halo_bl (L : Layout) : result (list Q) :=
  collect (map (fun k => lookup (nth k (coords_halo L) []) 0) (seq 0 (dim L))).

(** The box around the element, [vmax] safety points added, cut to the
    interior: [nmin] and [nmax], per axis. *)
Definition elem_nmin (L : Layout) (e : Element) (phys_bl : list Q) : list Z :=
  map (fun k =>
         Z.max (nth k (vmax (stencil L)) 0)
               (trunc ((nth k (fst (get_bounds e)) 0 - nth k phys_bl 0) / dx L)%Q
                - nth k (vmax (stencil L)) 0))
      (seq 0 (dim L)).

Definition elem_nmax (L : Layout) (e : Element) (phys_bl : list Q) : list Z :=
  map (fun k =>
         Z.min (nth k (vmax (stencil L)) 0 + nth k (shape_in L) 0)
               (trunc ((nth k (snd (get_bounds e)) 0 - nth k phys_bl 0) / dx L)%Q
                + nth k (vmax (stencil L)) 0 + 1))
      (seq 0 (dim L)).

(** [space_slice] and the view it gives on the arrays. *)
Definition elem_window (L : Layout) (nmin nmax : list Z) : window :=
  mk_window (shape_halo L) (combine nmin nmax).

(** [space_slice] moved by the velocity [vk]. *)
Definition moved_window (L : Layout) (nmin nmax : list Z) (vk : list Z) : window :=
  mk_window (shape_halo L)
    (map (fun t => (fst (fst t) + nth (snd t) vk 0, snd (fst t) + nth (snd t) vk 0))
         (combine (combine nmin nmax) (seq 0 (dim L)))).

(** Coordinates of the node of base multi-index [x] ([grid]). *)
Definition node_coords (L : Layout) (x : index) : list Q :=
  map (fun p => nth (Z.to_nat (snd p)) (fst p) 0%Q) (combine (coords_halo L) x).

(** The masks of one obstacle at the base node [x] of its view. *)
Definition ind_solid (L : Layout) (e : Element) (x : index) : bool :=
  if isfluid e then negb (point_inside e (node_coords L x))
  else point_inside e (node_coords L x).

Definition ind_fluid (L : Layout) (e : Element) (x : index) : bool :=
  negb (ind_solid L e x).

(** The classification after the obstacle is rasterised. *)
Definition classify (L : Layout) (e : Element) (w : window) (ioo : index -> Z)
    : index -> Z :=
  fun x =>
    if isfluid e then
      if in_window w x && ind_fluid L e x then valin else ioo x
    else
      if in_window w x && ind_solid L e x then valout else ioo x.

Definition any_nonzero (vk : list Z) : bool := existsb (fun c => negb (c =? 0)) vk.

Definition alpha (L : Layout) (e : Element) (vk : list Z) (x : index) : Q :=
  fst (distance_to e (node_coords L x) (map (fun c => (dx L * inject_Z c)%Q) vk) 1%Q).

Definition border (L : Layout) (e : Element) (vk : list Z) (x : index) : Z :=
  snd (distance_to e (node_coords L x) (map (fun c => (dx L * inject_Z c)%Q) vk) 1%Q).

(** The node of the moved window [w'] that faces the node [x] of the
    view [w]: the one at the same position in its window. *)
Definition facing (w w' : window) (x : index) : index :=
  base w' (bcast (win_shape w') (rel w x)).

(** [out_cells], read where it faces the node [x] of the view. *)
Definition out_cells (w w' : window) (ioo : index -> Z) (x : index) : bool :=
  ioo (facing w w' x) =? valout.

(** [indx]: the candidate nodes.  The cells that are out take part only
    when [out_cells] is not empty. *)
Definition indx (L : Layout) (e : Element) (vk : list Z) (w w' : window)
    (ioo : index -> Z) (x : index) : bool :=
  Qltb 0 (alpha L e vk x) && ind_fluid L e x &&
  (if size_of (win_shape w') =? 0 then true else out_cells w w' ioo x).

(** The nodes whose record is reset before the merge. *)
Definition reset_mask (L : Layout) (e : Element) (w w' : window)
    (ioo : index -> Z) (x : index) : bool :=
  if isfluid e then negb (out_cells w w' ioo x) && (ioo x =? valin)
  else ind_solid L e x.

(** The comparison of the merge ([ind3]). *)
Definition merge_test (e : Element) (a stored : Q) : bool :=
  if isfluid e then Qltb stored a || Qeq_bool stored valinQ
  else Qltb a stored.

(** The two special resets, on the row of one velocity. *)
Definition reset_dist (L : Layout) (e : Element) (w w' : window)
    (ioo : index -> Z) (d : index -> Q) : index -> Q :=
  fun x => if in_window w x && reset_mask L e w w' ioo x then valinQ else d x.

Definition reset_flag (L : Layout) (e : Element) (w w' : window)
    (ioo : index -> Z) (f : index -> Z) : index -> Z :=
  fun x => if in_window w x && reset_mask L e w w' ioo x then valin else f x.

(** [ind]: the candidate nodes that pass the comparison, the row of
    distances being [d1] (already reset). *)
Definition ind_merge (L : Layout) (e : Element) (vk : list Z) (w w' : window)
    (ioo : index -> Z) (d1 : index -> Q) (x : index) : bool :=
  in_window w x && indx L e vk w w' ioo x && merge_test e (alpha L e vk x) (d1 x).

(** The row of one velocity after the obstacle is folded. *)
Definition row_dist (L : Layout) (e : Element) (vk : list Z) (w w' : window)
    (ioo : index -> Z) (d : index -> Q) : index -> Q :=
  fun x =>
    let d1 := reset_dist L e w w' ioo d in
    if ind_merge L e vk w w' ioo d1 x then alpha L e vk x else d1 x.

Definition row_flag (L : Layout) (e : Element) (vk : list Z) (w w' : window)
    (ioo : index -> Z) (d : index -> Q) (f : index -> Z) : index -> Z :=
  fun x =>
    let d1 := reset_dist L e w w' ioo d in
    if ind_merge L e vk w w' ioo d1 x then border L e vk x
    else reset_flag L e w w' ioo f x.

(** Whether the masks of the view and [out_cells] cannot be combined.
    The masks of the view have its shape, [out_cells] has the shape of
    the moved window.  The solid branch combines them only when
    [out_cells] is not empty; the fluid branch always does, and then
    indexes the view with the result.  An axis of length 1 of the view
    against a longer one of [out_cells] would be broadcast by NumPy to
    masks larger than the view; it does not occur for a stencil bounded
    by [vmax], where two lengths that differ have a zero among them, and
    is an error here as well.  NumPy raises [ValueError]
    from the broadcast, or [IndexError] from a mask that has not the
    shape of the view; the embedding raises [ValueError] in both cases. *)
Definition shapes_clash (e : Element) (w w' : window) : bool :=
  negb (compatible (win_shape w) (win_shape w')) &&
  (negb (size_of (win_shape w') =? 0) || isfluid e).

(** The body of the loop over the unique velocities. *)
Definition fold_velocity (L : Layout) (e : Element) (nmin nmax : list Z)
    (ioo : index -> Z) (k : nat) (A : Arrays) : result Arrays :=
  vk <- lookup (unique_velocities (stencil L)) k ;;
  if any_nonzero vk then
    let w := elem_window L nmin nmax in
    let w' := moved_window L nmin nmax vk in
    if shapes_clash e w w' then Raise ValueError
    else
      Ok {| in_or_out := in_or_out A;
            distance := fun k' x =>
              if Nat.eqb k' k then row_dist L e vk w w' ioo (distance A k) x
              else distance A k' x;
            flag := fun k' x =>
              if Nat.eqb k' k
              then row_flag L e vk w w' ioo (distance A k) (flag A k) x
              else flag A k' x |}
  else Ok A.

Definition add_elem (L : Layout) (e : Element) (A : Arrays) : result Arrays :=
  phys_bl <- get_bounds_halo_bl L ;;
  let nmin := elem_nmin L e phys_bl in
  let nmax := elem_nmax L e phys_bl in
  let w := elem_window L nmin nmax in
  let ioo := classify L e w (in_or_out A) in
  for_each (seq 0 (unvtot (stencil L)))
    (fold_velocity L e nmin nmax ioo)
    {| in_or_out := ioo; distance := distance A; flag := flag A |}.

(** *** [__init__] *)

(** A border that becomes an interface takes the label [-2]. *)
Definition relabel_axis (region : list (Z * Z)) (gs : list Q) (i : nat)
    (lab : list Z) : result (list Z) :=
  r <- lookup region i ;;
  lab1 <- (if negb (fst r =? 0) then setitem lab (2 * i) interface else Ok lab) ;;
  g <- lookup gs i ;;
  if negb (Qeq_bool (inject_Z (snd r)) g) then setitem lab1 (2 * i + 1) interface
  else Ok lab1.

Definition relabel (dim : nat) (region : list (Z * Z)) (gs : list Q)
    (lab : list Z) : result (list Z) :=
  for_each (seq 0 dim) (relabel_axis region gs) lab.

(** The arrays as allocated: [valin * np.ones(...)]. *)
Definition fresh_arrays : Arrays :=
  {| in_or_out := fun _ => valin;
     distance := fun _ _ => valinQ;
     flag := fun _ _ => valin |}.

Definition Domain_init (g : Geometry) (st : Stencil) (dx : Q)
    (get_region : Partitioner) : result Domain :=
  cc <- create_coords g st dx get_region ;;
  let gs := fst cc in
  let L := snd cc in
  let region := get_region gs in
  lab <- relabel (dim L) region gs (box_label g) ;;
  A1 <- add_init L lab fresh_arrays ;;
  A2 <- for_each (list_elem g) (add_elem L) A1 ;;
  Ok {| layout := L; geom := g; dom_box_label := lab;
        global_size := gs; arrays := A2 |}.

(** *** [list_of_labels] *)

(** Insertion in a strictly increasing list. *)
Fixpoint insert_unique (z : Z) (l : list Z) : list Z :=
  match l with
  | [] => [z]
  | y :: l' =>
      if z <? y then z :: l
      else if z =? y then l
      else y :: insert_unique z l'
  end.

(** [np.unique]: the sorted distinct values. *)
Definition np_unique (l : list Z) : list Z := fold_right insert_unique [] l.

(** [np.union1d]. *)
Definition np_union1d (l1 l2 : list Z) : list Z := np_unique (l1 ++ l2).

Definition list_of_labels (d : Domain) : list Z :=
  np_union1d (np_unique (dom_box_label d)) (list_of_elements_labels (geom d)).

(** *** Accessors *)

(** [l[i]] for an integer index, a negative one counting from the end. *)
Definition getitem {A : Type} (l : list A) (i : Z) : result A :=
  j <- py_index (Z.of_nat (length l)) i ;; lookup l (Z.to_nat j).

(** The first and the last coordinate of every axis: the two corners
    returned by [get_bounds_halo] and [get_bounds]. *)
Definition corners (cs : list (list Q)) (dim : nat) : result (list Q * list Q) :=
  bottom_right <- collect (map (fun k => c <- lookup cs k ;; getitem c 0)
                               (seq 0 dim)) ;;
  upper_left <- collect (map (fun k => c <- lookup cs k ;; getitem c (-1))
                             (seq 0 dim)) ;;
  Ok (bottom_right, upper_left).

Definition get_bounds_halo (L : Layout) : result (list Q * list Q) :=
  corners (coords_halo L) (dim L).

Definition dom_get_bounds (L : Layout) : result (list Q * list Q) :=
  corners (coords L) (dim L).

(** The properties [x], [y], [z] and [x_halo], [y_halo], [z_halo]. *)
Definition coords_x (L : Layout) : result (list Q) := lookup (coords L) 0.
Definition coords_y (L : Layout) : result (list Q) := lookup (coords L) 1.
Definition coords_z (L : Layout) : result (list Q) := lookup (coords L) 2.
Definition x_halo (L : Layout) : result (list Q) := lookup (coords_halo L) 0.
Definition y_halo (L : Layout) : result (list Q) := lookup (coords_halo L) 1.
Definition z_halo (L : Layout) : result (list Q) := lookup (coords_halo L) 2.

(** ** The notions of the statements *)

(** The rows of a velocity [k] after its pass in the fold of an obstacle,
    [w] being the view of the obstacle and [w'] the view moved by a
    velocity. *)
Definition row_after (L : Layout) (e : Element) (nmin nmax : list Z)
    (ioo : index -> Z) (k : nat) (A A' : Arrays) : Prop :=
  forall x,
    match nth_error (unique_velocities (stencil L)) k with
    | Some vk =>
        if any_nonzero vk then
          shapes_clash e (elem_window L nmin nmax) (moved_window L nmin nmax vk)
          = false /\
          distance A' k x =
            row_dist L e vk (elem_window L nmin nmax)
              (moved_window L nmin nmax vk) ioo (distance A k) x /\
          flag A' k x =
            row_flag L e vk (elem_window L nmin nmax)
              (moved_window L nmin nmax vk) ioo (distance A k) (flag A k) x
        else distance A' k x = distance A k x /\ flag A' k x = flag A k x
    | None => distance A' k x = distance A k x /\ flag A' k x = flag A k x
    end.

(** The rows of the velocity [k] are the same in two states. *)
Definition rows_kept (k : nat) (A A' : Arrays) : Prop :=
  forall x, distance A' k x = distance A k x /\ flag A' k x = flag A k x.

(** The view of an obstacle and its view moved by a velocity. *)
Definition elem_view (L : Layout) (e : Element) (phys_bl : list Q) : window :=
  elem_window L (elem_nmin L e phys_bl) (elem_nmax L e phys_bl).

Definition elem_moved (L : Layout) (e : Element) (phys_bl : list Q)
    (vk : list Z) : window :=
  moved_window L (elem_nmin L e phys_bl) (elem_nmax L e phys_bl) vk.

(** Two states of the arrays that agree at every node. *)
Definition arrays_eq (A B : Arrays) : Prop :=
  (forall x, in_or_out A x = in_or_out B x) /\
  (forall k x, distance A k x = distance B k x) /\
  (forall k x, flag A k x = flag B k x).

(** The node [x] is reached by the obstacle [e] along [vk]: it lies in the
    view of [e], outside [e], its ray meets the border of [e], and the
    facing node of the moved window is OUT in the classification
    [ioo_after]. *)
Definition reachable (L : Layout) (e : Element) (bl : list Q) (vk : list Z)
    (ioo_after : index -> Z) (x : index) : Prop :=
  in_window (elem_view L e bl) x = true /\
  (0 < alpha L e vk x)%Q /\
  point_inside e (node_coords L x) = false /\
  ioo_after (facing (elem_view L e bl) (elem_moved L e bl vk) x) = valout.

(** The length of the box along an axis is a multiple of the space step. *)
Definition is_multiple (dx : Q) (b : Q * Q) : Prop :=
  ~ (dx == 0)%Q /\ exists z : Z, ((snd b - fst b) / dx == inject_Z z)%Q.

(** A computation that does not end in [sys.exit()]. *)
Definition no_exit {A : Type} (r : result A) : Prop := r <> Raise SystemExit.

(** The integer index of the row [i] of a face: [neg] when the velocity
    points to the lower face of the axis and the rows are counted from
    the first one, otherwise from the last one. *)
Definition row_index (neg : bool) (i : Z) : Z := if neg then i else - i - 1.

(** Number of rows between the node [x] and the face, [m] being the
    number of interior nodes along the axis [a]. *)
Definition offset (L : Layout) (a : nat) (neg : bool) (m : Z) (x : index) : Z :=
  if neg then nth a (rel (interior L) x) 0
  else m - 1 - nth a (rel (interior L) x) 0.

(** The nodes written by the passes [s, s + n) of the loop on rows. *)
Definition hit (L : Layout) (a k : nat) (neg : bool) (frac : Z -> Q)
    (A : Arrays) (m s n : Z) (k' : nat) (x : index) : bool :=
  Nat.eqb k' k && in_window (interior L) x &&
  ((s <=? offset L a neg m x) && (offset L a neg m x <? s + n)) &&
  (if Nat.eqb (dim L) 1 then true
   else Qltb (frac (offset L a neg m x)) (distance A k x)).

(** The crossing fraction written for the row [i] and the component
    [vk], as the source computes it. *)
Definition crossing (vk i : Z) : Q :=
  if vk <? 0 then (- (inject_Z i + (1 # 2)) / inject_Z vk)%Q
  else ((inject_Z i + (1 # 2)) / inject_Z vk)%Q.

(** The nodes written by the passes of [__add_init] for the axis [a] and
    the velocity [k] of component [vk]: the interior nodes within [|vk|]
    rows of the face whose stored distance is above the crossing. *)
Definition written (L : Layout) (a k : nat) (vk m : Z) (A : Arrays)
    (k' : nat) (x : index) : bool :=
  let i := offset L a (vk <? 0) m x in
  Nat.eqb k' k && in_window (interior L) x &&
  ((0 <=? i) && (i <? Z.abs vk)) &&
  Qltb (crossing vk i) (distance A k x).

(** What the passes for the axis [a] and the velocity [k] of component
    [vk] leave in the rows of that velocity. *)
Definition pass_spec (L : Layout) (lab : list Z) (a k : nat) (vk : Z)
    (A A' : Arrays) : Prop :=
  (vk = 0 -> rows_kept k A A') /\
  (vk <> 0 ->
   exists l,
     nth_error lab (if vk <? 0 then (2 * a)%nat else (2 * a + 1)%nat) = Some l /\
     (l = interface -> rows_kept k A A') /\
     (l <> interface ->
      exists m,
        nth_error (win_shape (interior L)) a = Some m /\
        Z.abs vk <= m /\
        forall x,
          let i := offset L a (vk <? 0) m x in
          (crossing vk i == (inject_Z i + (1 # 2)) / inject_Z (Z.abs vk))%Q /\
          distance A' k x =
            (if written L a k vk m A k x then crossing vk i
             else distance A k x) /\
          flag A' k x =
            (if written L a k vk m A k x then l else flag A k x))).

(** Outside the interior, [__add_init] writes nothing in [distance] and
    [flag]; the classification does not move after its first setting. *)
Definition outside_kept (L : Layout) (A A' : Arrays) : Prop :=
  in_or_out A' = in_or_out A /\
  forall k x, in_window (interior L) x = false ->
              distance A' k x = distance A k x /\ flag A' k x = flag A k x.

(** A label is reached when some velocity ray of some node of the grid
    records it in [flag]. *)
Definition label_reached (d : Domain) (l : Z) : Prop :=
  exists k x, (k < unvtot (stencil (layout d)))%nat /\
              in_halo (layout d) x = true /\
              flag (arrays d) k x = l.

(** A layout as [create_coords] builds it for a stencil bounded by its
    [vmax] and a block of the partitioner that is not reversed. *)
Definition layout_wf (L : Layout) : Prop :=
  stencil_wf (dim L) (stencil L) /\
  length (coords_halo L) = dim L /\ length (coords L) = dim L /\
  forall k, (k < dim L)%nat ->
    2 * nth k (vmax (stencil L)) 0 <= nth k (shape_halo L) 0 /\
    nth k (shape_in L) 0 =
      slice_len (nth k (shape_halo L) 0) (nth k (vmax (stencil L)) 0)
                (- nth k (vmax (stencil L)) 0).

(** ** Worked configurations *)

(** Modelled from the spec: a geometric primitive of the line, the
    segment [[lo, hi]] with one label; the elements of the package are
    not part of the sources at hand.  [distance_to] returns the first
    crossing of a bound within [(0, dmax]], and [-1] when there is none. *)
Definition segment (lo hi : Q) (lab : Z) (fluid : bool) : Element :=
  {| isfluid := fluid;
     get_bounds := ([lo], [hi]);
     point_inside := fun c =>
       match c with
       | [x] => Qle_bool lo x && Qle_bool x hi
       | _ => false
       end;
     distance_to := fun c v dmax =>
       match c, v with
       | [x], [d] =>
           let ok t := Qltb 0 t && Qle_bool t dmax in
           let t1 := ((lo - x) / d)%Q in
           let t2 := ((hi - x) / d)%Q in
           if ok t1 then (if ok t2 && Qltb t2 t1 then (t2, lab) else (t1, lab))
           else if ok t2 then (t2, lab)
           else ((-1)%Q, lab)
       | _, _ => ((-1)%Q, lab)
       end;
     label := [lab] |}.

(** The velocities [+1] and [-1]; the velocities [+2] and [-2]. *)
Definition stencil_pm1 : Stencil :=
  {| vmax := [1]; unique_velocities := [[1]; [-1]] |}.

Definition stencil_pm2 : Stencil :=
  {| vmax := [2]; unique_velocities := [[2]; [-2]] |}.

(** The box [[0, 1]] with the labels [l0] and [l1] on its two ends. *)
Definition box1d (l0 l1 : Z) (els : list Element) : Geometry :=
  {| bounds := [(0%Q, 1%Q)]; box_label := [l0; l1]; list_elem := els |}.

(** The box [[0, hi]] of the line, with the labels [0] and [1]. *)
Definition box_upto (hi : Q) : Geometry :=
  {| bounds := [(0%Q, hi)]; box_label := [0; 1]; list_elem := [] |}.

(** A box of one cell for the space step [1/4]. *)
Definition narrow_box : Geometry :=
  {| bounds := [(0%Q, (1 # 4)%Q)]; box_label := [0; 1]; list_elem := [] |}.

(** A single process owns the whole grid. *)
Definition whole_grid : Partitioner := fun gs => map (fun g => (0, trunc g)) gs.

Definition get {A : Type} (d : A) (r : result A) : A :=
  match r with Ok a => a | Raise _ => d end.

Definition layout1d : Layout :=
  snd (get ([], {| dim := 0; dx := 0; stencil := stencil_pm1;
                   coords_halo := []; coords := [] |})
           (create_coords (box1d 0 1 []) stencil_pm1 (1 # 4) whole_grid)).

Definition stamped1d : Arrays :=
  get fresh_arrays (add_init layout1d [0; 1] fresh_arrays).

(** The first coordinate of that layout, [-1/8], as [linspace] gives it. *)
Definition halo_bl1d : list Q := [(-20480 # 163840)%Q].

(** Two nested solid segments inside the box, two solid segments that
    reach beyond its lower end up to the halo node, a solid segment
    beyond its upper end, a fluid segment inside the box, and a fluid
    and a solid segment beyond its lower end and the halo. *)
Definition seg_in_a : Element := segment (11 # 20) (9 # 10) 5 false.
Definition seg_in_b : Element := segment (3 # 5) (9 # 10) 6 false.
Definition seg_low_a : Element := segment (-1) (-1 # 20) 5 false.
Definition seg_low_b : Element := segment (-1) (-1 # 10) 6 false.
Definition seg_far : Element := segment 2 3 5 false.
Definition seg_fluid_in : Element := segment (1 # 2) (7 # 10) 7 true.
Definition seg_fluid_out : Element := segment (-1) (-9 # 10) 7 true.
Definition seg_solid_out : Element := segment (-1) (-7 # 10) 5 false.

Definition fold1d (e : Element) (A : Arrays) : Arrays :=
  get fresh_arrays (add_elem layout1d e A).

(** Modelled from the spec: a disc of the plane as a geometric primitive;
    the elements of the package are not part of the sources at hand.
    Its ray query is left out: it answers [-1], no crossing, which is
    what the contract gives at every node farther than one step from the
    disc. *)
Definition disc (cx cy r : Q) (lab : Z) (fluid : bool) : Element :=
  {| isfluid := fluid;
     get_bounds := ([(cx - r)%Q; (cy - r)%Q], [(cx + r)%Q; (cy + r)%Q]);
     point_inside := fun c =>
       match c with
       | [x; y] => Qle_bool ((x - cx) * (x - cx) + (y - cy) * (y - cy)) (r * r)
       | _ => false
       end;
     distance_to := fun _ _ _ => ((-1)%Q, lab);
     label := [lab] |}.

(** The unit square, the four velocities along the axes, and a fluid
    disc on the left of the square. *)
Definition stencil_d2q4 : Stencil :=
  {| vmax := [1; 1];
     unique_velocities := [[1; 0]; [-1; 0]; [0; 1]; [0; -1]] |}.

Definition box2d (els : list Element) : Geometry :=
  {| bounds := [(0%Q, 1%Q); (0%Q, 1%Q)];
     box_label := [0; 0; 0; 0];
     list_elem := els |}.

Definition disc_fluid_out : Element := disc (-1) (1 # 2) (1 # 20) 7 true.

(** A process that owns the lower half of a grid of four cells. *)
Definition lower_half : Partitioner := fun gs => map (fun _ => (0, 2)) gs.

Definition half_domain : Domain :=
  get {| layout := layout1d; geom := box1d 0 1 []; dom_box_label := [];
         global_size := []; arrays := fresh_arrays |}
      (Domain_init (box1d 0 1 []) stencil_pm1 (1 # 4) lower_half).

(** The domain of the box with the solid segment beyond its upper end. *)
Definition far_domain : Domain :=
  get {| layout := layout1d; geom := box1d 0 1 []; dom_box_label := [];
         global_size := []; arrays := fresh_arrays |}
      (Domain_init (box1d 0 1 [seg_far]) stencil_pm1 (1 # 4) whole_grid).

(** The velocities [0], [+1] and [-1] of the line. *)
Definition stencil_d1q3 : Stencil :=
  {| vmax := [1]; unique_velocities := [[0]; [1]; [-1]] |}.

(** Two velocities of the plane along its first axis: nothing moves
    along the second one. *)
Definition stencil_x_only : Stencil :=
  {| vmax := [1; 0]; unique_velocities := [[1; 0]; [-1; 0]] |}.

(** The layouts of the unit square for the space step [1/4]. *)
Definition layout2d : Layout :=
  snd (get ([], layout1d)
           (create_coords (box2d []) stencil_d2q4 (1 # 4) whole_grid)).

Definition layout_x_only : Layout :=
  snd (get ([], layout1d)
           (create_coords (box2d []) stencil_x_only (1 # 4) whole_grid)).

Definition stamped2d : Arrays :=
  get fresh_arrays (add_init layout2d [0; 0; 0; 0] fresh_arrays).

(** The obstacles of a list folded one after the other on the line. *)
Definition folded1d (els : list Element) (A : Arrays) : Arrays :=
  get fresh_arrays (for_each els (add_elem layout1d) A).

(** The domain of the box for the velocities [0], [+1] and [-1], and
    the domain of the box with a solid segment inside. *)
Definition rest_domain : Domain :=
  get {| layout := layout1d; geom := box1d 0 1 []; dom_box_label := [];
         global_size := []; arrays := fresh_arrays |}
      (Domain_init (box1d 0 1 []) stencil_d1q3 (1 # 4) whole_grid).

Definition solid_domain : Domain :=
  get {| layout := layout1d; geom := box1d 0 1 []; dom_box_label := [];
         global_size := []; arrays := fresh_arrays |}
      (Domain_init (box1d 0 1 [seg_in_a]) stencil_pm1 (1 # 4) whole_grid).

Ltac by_computation := vm_compute; reflexivity.

(** * Properties *)

(** ** Comparisons *)

Lemma Qltb_lt (a b : Q) : Qltb a b = true <-> (a < b)%Q.
Proof.
  unfold Qltb. rewrite negb_true_iff. split.
  - intros H. apply Qnot_le_lt. intros Hle.
    apply Qle_bool_iff in Hle. congruence.
  - intros H. destruct (Qle_bool b a) eqn:E; [|reflexivity].
    apply Qle_bool_iff in E. exfalso. exact (Qlt_not_le _ _ H E).
Qed.

Lemma Qltb_irrefl (a : Q) : Qltb a a = false.
Proof.
  destruct (Qltb a a) eqn:E; [|reflexivity].
  apply Qltb_lt in E. exfalso. exact (Qlt_irrefl _ E).
Qed.

(** ** Loops *)

Lemma bind_ok {A B : Type} (r : result A) (f : A -> result B) (b : B) :
  bind r f = Ok b -> exists a, r = Ok a /\ f a = Ok b.
Proof.
  destruct r as [a|e]; simpl; intros H; [eauto | discriminate].
Qed.

Lemma get_ok {A : Type} (d : A) (r : result A) :
  is_ok r = true -> r = Ok (get d r).
Proof.
  destruct r; [reflexivity|discriminate].
Defined.

(** An invariant kept by every pass of a loop holds when the loop ends. *)
Lemma for_each_inv {A S : Type} (P : S -> Prop) (body : A -> S -> result S) :
  forall (l : list A) (s s' : S),
    (forall x t t', In x l -> P t -> body x t = Ok t' -> P t') ->
    P s -> for_each l body s = Ok s' -> P s'.
Proof.
  induction l as [|x l IH]; simpl; intros s s' Hb Hs H.
  - now inversion H; subst.
  - apply bind_ok in H. destruct H as (t & Hx & Hl).
    apply (IH t s'); [intros; eauto | eauto | exact Hl].
Qed.

(** A loop whose passes all succeed from any state succeeds. *)
Lemma for_each_ok {A S : Type} (P : S -> Prop) (body : A -> S -> result S) :
  forall (l : list A) (s : S),
    (forall x t, In x l -> P t -> exists t', body x t = Ok t' /\ P t') ->
    P s -> exists s', for_each l body s = Ok s' /\ P s'.
Proof.
  induction l as [|x l IH]; simpl; intros s Hb Hs.
  - eauto.
  - destruct (Hb x s (or_introl eq_refl) Hs) as (t & Hx & Ht).
    rewrite Hx. simpl. apply IH; [intros; apply Hb; auto | exact Ht].
Qed.

(** ** The fold of one obstacle, node by node *)

Section FoldRows.

Variables (L : Layout) (e : Element) (nmin nmax : list Z) (ioo : index -> Z).

Lemma fold_velocity_spec (k : nat) (A A' : Arrays) :
  fold_velocity L e nmin nmax ioo k A = Ok A' ->
  in_or_out A' = in_or_out A /\
  row_after L e nmin nmax ioo k A A' /\
  (forall k', k' <> k -> rows_kept k' A A').
Proof.
  unfold fold_velocity, lookup, row_after, rows_kept. intros H.
  destruct (nth_error (unique_velocities (stencil L)) k) as [vk|] eqn:Hk;
    simpl in H; [|discriminate].
  destruct (any_nonzero vk) eqn:Hnz.
  - destruct (shapes_clash e _ _) eqn:Hc; [discriminate|].
    inversion H; subst A'; clear H. simpl.
    split; [reflexivity|]. split.
    + intros x. rewrite Nat.eqb_refl. auto.
    + intros k' Hne x. apply Nat.eqb_neq in Hne. rewrite Hne. auto.
  - inversion H; subst A'. split; [reflexivity|]. split; intros; auto.
Qed.

(** The value of a row at a node only depends on the row at that node. *)
Lemma row_dist_ext (vk : list Z) (d d' : index -> Q) (x : index) :
  d x = d' x ->
  row_dist L e vk (elem_window L nmin nmax) (moved_window L nmin nmax vk) ioo d x = row_dist L e vk (elem_window L nmin nmax) (moved_window L nmin nmax vk) ioo d' x.
Proof.
  intros H. unfold row_dist, ind_merge, reset_dist. rewrite H. reflexivity.
Qed.

Lemma row_flag_ext (vk : list Z) (d d' : index -> Q) (f f' : index -> Z)
    (x : index) :
  d x = d' x -> f x = f' x ->
  row_flag L e vk (elem_window L nmin nmax) (moved_window L nmin nmax vk) ioo d f x = row_flag L e vk (elem_window L nmin nmax) (moved_window L nmin nmax vk) ioo d' f' x.
Proof.
  intros H H'. unfold row_flag, ind_merge, reset_dist, reset_flag.
  rewrite H, H'. reflexivity.
Qed.

Lemma row_after_ext (k : nat) (A B A' : Arrays) :
  rows_kept k A B -> row_after L e nmin nmax ioo k B A' -> row_after L e nmin nmax ioo k A A'.
Proof.
  unfold rows_kept, row_after. intros HAB HB x.
  specialize (HB x). destruct (HAB x) as [Hd Hf].
  destruct (nth_error (unique_velocities (stencil L)) k) as [vk|].
  - destruct (any_nonzero vk).
    + destruct HB as (Hc & HBd & HBf). split; [exact Hc|]. split.
      * rewrite HBd. apply row_dist_ext. exact Hd.
      * rewrite HBf. apply row_flag_ext; assumption.
    + destruct HB as [HBd HBf]. rewrite HBd, HBf. auto.
  - destruct HB as [HBd HBf]. rewrite HBd, HBf. auto.
Qed.

(** The loop over the velocities: every velocity of the list has had its
    pass, the rows of the others are as they were. *)
Lemma fold_velocities_spec :
  forall (l : list nat) (A A' : Arrays),
    NoDup l ->
    for_each l (fold_velocity L e nmin nmax ioo) A = Ok A' ->
    in_or_out A' = in_or_out A /\
    (forall k, In k l -> row_after L e nmin nmax ioo k A A') /\
    (forall k, ~ In k l -> rows_kept k A A').
Proof.
  induction l as [|k0 l IH]; simpl; intros A A' Hnd H.
  - inversion H; subst. split; [reflexivity|].
    split; [tauto|]. intros k _ x. auto.
  - apply bind_ok in H. destruct H as (A1 & H0 & Hl).
    inversion Hnd as [|? ? Hnotin Hnd']; subst.
    apply fold_velocity_spec in H0. destruct H0 as (Hio & Hrow & Hkeep).
    destruct (IH A1 A' Hnd' Hl) as (Hio' & Hin & Hout).
    split; [congruence|]. split.
    + intros k [Hk|Hk].
      * subst k0. specialize (Hout k Hnotin).
        unfold row_after in *. intros x. specialize (Hrow x).
        destruct (Hout x) as [Hd Hf]. rewrite Hd, Hf. exact Hrow.
      * assert (Hne : k <> k0) by (intros ->; contradiction).
        apply (row_after_ext k A A1 A'); [apply Hkeep; exact Hne|].
        apply Hin. exact Hk.
    + intros k Hk x.
      assert (Hne : k <> k0) by (intros ->; apply Hk; left; reflexivity).
      destruct (Hout k (fun Hin' => Hk (or_intror Hin')) x) as [Hd Hf].
      destruct (Hkeep k Hne x) as [Hd' Hf']. rewrite Hd, Hf. auto.
Qed.

End FoldRows.

(** What [__add_elem] leaves in the three arrays. *)
Lemma add_elem_spec (L : Layout) (e : Element) (A A' : Arrays) :
  add_elem L e A = Ok A' ->
  exists phys_bl,
    get_bounds_halo_bl L = Ok phys_bl /\
    let w := elem_view L e phys_bl in
    let ioo := classify L e w (in_or_out A) in
    in_or_out A' = ioo /\
    forall k x,
      match nth_error (unique_velocities (stencil L)) k with
      | Some vk =>
          let w' := elem_moved L e phys_bl vk in
          if any_nonzero vk then
            shapes_clash e w w' = false /\
            distance A' k x = row_dist L e vk w w' ioo (distance A k) x /\
            flag A' k x = row_flag L e vk w w' ioo (distance A k) (flag A k) x
          else distance A' k x = distance A k x /\ flag A' k x = flag A k x
      | None => distance A' k x = distance A k x /\ flag A' k x = flag A k x
      end.
Proof.
  unfold add_elem. intros H. apply bind_ok in H.
  destruct H as (phys_bl & Hbl & H). exists phys_bl. split; [exact Hbl|].
  apply fold_velocities_spec in H; [|apply seq_NoDup].
  destruct H as (Hio & Hin & Hout). simpl in *.
  split; [exact Hio|]. intros k x.
  destruct (nth_error (unique_velocities (stencil L)) k) as [vk|] eqn:Hk.
  - assert (Hlt : In k (seq 0 (unvtot (stencil L)))).
    { apply in_seq. split; [lia|]. simpl. unfold unvtot.
      apply nth_error_Some. congruence. }
    specialize (Hin k Hlt x). unfold row_after in Hin. rewrite Hk in Hin.
    exact Hin.
  - assert (Hnot : ~ In k (seq 0 (unvtot (stencil L)))).
    { intros Hi. apply in_seq in Hi. apply nth_error_None in Hk.
      unfold unvtot in Hi. lia. }
    exact (Hout k Hnot x).
Qed.

(** ** Windows *)

Lemma in_window_size (w : window) :
  forall x, in_window w x = true -> 0 < size_of (win_shape w).
Proof.
  induction w as [|[lo len] w IH]; intros [|i x] H; simpl in *;
    try discriminate; [lia|].
  apply andb_prop in H. destruct H as [H Hw].
  apply andb_prop in H. destruct H as [H1 H2].
  specialize (IH x Hw). unfold win_shape, size_of in *.
  apply Z.mul_pos_pos; [lia | exact IH].
Qed.

Lemma compatible_size (w w' : window) :
  forall x, in_window w x = true ->
            compatible (win_shape w) (win_shape w') = true ->
            0 < size_of (win_shape w').
Proof.
  revert w'. induction w as [|[lo len] w IH]; intros [|[lo' len'] w'] [|i x] H Hc;
    simpl in *; try discriminate; [lia|].
  apply andb_prop in H. destruct H as [H Hw].
  apply andb_prop in H. destruct H as [H1 H2].
  apply andb_prop in Hc. destruct Hc as [Hc Hcw].
  specialize (IH w' x Hw Hcw). unfold win_shape, size_of in *.
  apply Z.leb_le in H1. apply Z.ltb_lt in H2.
  apply Z.mul_pos_pos; [|exact IH].
  apply orb_prop in Hc. destruct Hc as [Hc|Hc]; apply Z.eqb_eq in Hc; lia.
Qed.

(** In the fluid branch the moved window is not empty where the view has
    a node. *)
Lemma fluid_moved_not_empty (e : Element) (w w' : window) (x : index) :
  isfluid e = true -> shapes_clash e w w' = false ->
  in_window w x = true -> size_of (win_shape w') <> 0.
Proof.
  unfold shapes_clash. intros Hf Hc Hx. rewrite Hf, orb_true_r, andb_true_r in Hc.
  apply negb_false_iff in Hc.
  pose proof (compatible_size w w' x Hx Hc). lia.
Qed.

(** ** The merge rule of a solid obstacle *)

(** C1.  Folding a solid obstacle, for every unique velocity [k] that is
    not zero and every node [x] of the view of the obstacle: a node inside
    the obstacle ends with the IN-sentinel in [distance] and [flag]; at a
    candidate node ([alpha > 0], node outside the obstacle, the facing
    node of the moved window OUT) the crossing [alpha] and its [border]
    take the place of the stored distance and flag when [alpha] is
    strictly smaller than the stored distance, and the stored values stay
    otherwise, in particular on a tie. *)
Theorem solid_fold_merge (L : Layout) (e : Element) (A A' : Arrays) :
  isfluid e = false ->
  add_elem L e A = Ok A' ->
  exists phys_bl,
    get_bounds_halo_bl L = Ok phys_bl /\
    forall k vk x,
      nth_error (unique_velocities (stencil L)) k = Some vk ->
      any_nonzero vk = true ->
      let w := elem_view L e phys_bl in
      let w' := elem_moved L e phys_bl vk in
      in_window w x = true ->
      (point_inside e (node_coords L x) = true ->
         distance A' k x = valinQ /\ flag A' k x = valin) /\
      ((0 < alpha L e vk x)%Q ->
       point_inside e (node_coords L x) = false ->
       in_or_out A' (facing w w' x) = valout ->
         ((alpha L e vk x < distance A k x)%Q ->
            distance A' k x = alpha L e vk x /\
            flag A' k x = border L e vk x) /\
         (~ (alpha L e vk x < distance A k x)%Q ->
            distance A' k x = distance A k x /\ flag A' k x = flag A k x) /\
         ((alpha L e vk x == distance A k x)%Q ->
            distance A' k x = distance A k x /\ flag A' k x = flag A k x)).
Proof.
  intros Hsolid H. apply add_elem_spec in H.
  destruct H as (phys_bl & Hbl & Hio & Hrows).
  exists phys_bl. split; [exact Hbl|].
  intros k vk x Hk Hnz w w' Hw.
  specialize (Hrows k x). rewrite Hk in Hrows. simpl in Hrows.
  rewrite Hnz in Hrows. destruct Hrows as (_ & Hd & Hf).
  fold w in Hd, Hf, Hio. fold w' in Hd, Hf.
  rewrite Hd, Hf. clear Hd Hf.
  unfold row_dist, row_flag, ind_merge, reset_dist, reset_flag, reset_mask,
    indx, ind_fluid, ind_solid, merge_test.
  rewrite Hsolid, Hw. simpl.
  split.
  - intros Hin. rewrite Hin. simpl. rewrite andb_false_r. simpl. auto.
  - intros Hpos Hout Hoc. rewrite Hout. simpl.
    apply Qltb_lt in Hpos. rewrite Hpos. simpl.
    assert (Hmask : (if size_of (win_shape w') =? 0 then true
                     else out_cells w w' (classify L e w (in_or_out A)) x) = true).
    { destruct (size_of (win_shape w') =? 0); [reflexivity|].
      unfold out_cells. rewrite <- Hio, Hoc. reflexivity. }
    rewrite Hmask. simpl.
    assert (Hno : ~ (alpha L e vk x < distance A k x)%Q ->
                  Qltb (alpha L e vk x) (distance A k x) = false).
    { intros Hn.
      destruct (Qltb (alpha L e vk x) (distance A k x)) eqn:E; [|reflexivity].
      apply Qltb_lt in E. contradiction. }
    split; [|split].
    + intros Hlt. apply Qltb_lt in Hlt. rewrite Hlt. auto.
    + intros Hn. rewrite (Hno Hn). auto.
    + intros Heq. rewrite Hno; [auto|].
      intros Hlt. rewrite Heq in Hlt. exact (Qlt_irrefl _ Hlt).
Qed.

(** ** The merge rule of a fluid obstacle *)

(** C2.  Folding a fluid obstacle: every node of the view inside the
    obstacle is IN afterwards; for every unique velocity [k] that is not
    zero, a node of the view that is IN and whose facing node of the moved
    window is not OUT ends with the IN-sentinel in [distance] and [flag];
    at a candidate node ([alpha > 0], node inside the obstacle, facing
    node OUT) [alpha] and [border] take the place of the stored values
    when [alpha] is strictly greater than the stored distance or the
    stored distance is the IN-sentinel, and the stored values stay
    otherwise. *)
Theorem fluid_fold_merge (L : Layout) (e : Element) (A A' : Arrays) :
  isfluid e = true ->
  add_elem L e A = Ok A' ->
  exists phys_bl,
    get_bounds_halo_bl L = Ok phys_bl /\
    let w := elem_view L e phys_bl in
    (forall x, in_window w x = true ->
               point_inside e (node_coords L x) = true ->
               in_or_out A' x = valin) /\
    forall k vk x,
      nth_error (unique_velocities (stencil L)) k = Some vk ->
      any_nonzero vk = true ->
      let w' := elem_moved L e phys_bl vk in
      in_window w x = true ->
      (in_or_out A' x = valin ->
       in_or_out A' (facing w w' x) <> valout ->
         distance A' k x = valinQ /\ flag A' k x = valin) /\
      ((0 < alpha L e vk x)%Q ->
       point_inside e (node_coords L x) = true ->
       in_or_out A' (facing w w' x) = valout ->
         ((distance A k x < alpha L e vk x)%Q \/ (distance A k x == valinQ)%Q ->
            distance A' k x = alpha L e vk x /\
            flag A' k x = border L e vk x) /\
         (~ ((distance A k x < alpha L e vk x)%Q \/ (distance A k x == valinQ)%Q) ->
            distance A' k x = distance A k x /\ flag A' k x = flag A k x)).
Proof.
  intros Hfluid H. apply add_elem_spec in H.
  destruct H as (phys_bl & Hbl & Hio & Hrows).
  exists phys_bl. split; [exact Hbl|]. intros w. fold w in Hio, Hrows.
  split.
  - intros x Hw Hin. rewrite Hio. unfold classify, ind_fluid, ind_solid.
    rewrite Hfluid, Hw, Hin. reflexivity.
  - intros k vk x Hk Hnz w' Hw.
    specialize (Hrows k x). rewrite Hk in Hrows. simpl in Hrows.
    rewrite Hnz in Hrows. destruct Hrows as (Hc & Hd & Hf).
    fold w' in Hc, Hd, Hf. rewrite Hd, Hf. clear Hd Hf.
    assert (Hsz : size_of (win_shape w') <> 0)
      by (apply (fluid_moved_not_empty e w w' x); assumption).
    unfold row_dist, row_flag, ind_merge, reset_dist, reset_flag, reset_mask,
      indx, ind_fluid, ind_solid, merge_test, out_cells.
    rewrite Hfluid, Hw, <- Hio. simpl.
    split.
    + intros Hx Hnext. apply Z.eqb_neq in Hnext. rewrite Hnext, Hx. simpl.
      rewrite (proj2 (Z.eqb_neq _ _) Hsz). rewrite !andb_false_r. simpl. auto.
    + intros Hpos Hin Hoc. rewrite Hoc, Hin. simpl.
      apply Qltb_lt in Hpos. rewrite Hpos. simpl.
      replace (if size_of (win_shape w') =? 0 then true else true) with true
        by (destruct (size_of (win_shape w') =? 0); reflexivity).
      simpl. split.
      * intros [Hlt|Heq].
        -- apply Qltb_lt in Hlt. rewrite Hlt. simpl. auto.
        -- apply Qeq_bool_iff in Heq. rewrite Heq, orb_true_r. auto.
      * intros Hn.
        destruct (Qltb (distance A k x) (alpha L e vk x)) eqn:E1.
        { exfalso. apply Hn. left. apply Qltb_lt. exact E1. }
        destruct (Qeq_bool (distance A k x) valinQ) eqn:E2.
        { exfalso. apply Hn. right. apply Qeq_bool_iff. exact E2. }
        simpl. auto.
Qed.

(** ** Folding the same solid obstacle twice *)

Lemma for_each_is_ok {A S : Type} (body body' : A -> S -> result S) :
  (forall x s t, is_ok (body x s) = is_ok (body' x t)) ->
  forall (l : list A) (s t : S),
    is_ok (for_each l body s) = is_ok (for_each l body' t).
Proof.
  intros Hb. induction l as [|x l IH]; simpl; intros s t; [reflexivity|].
  specialize (Hb x s t).
  destruct (body x s) as [s1|], (body' x t) as [t1|]; simpl in *;
    try discriminate; auto.
Qed.

(** Whether [__add_elem] raises does not depend on what the arrays hold. *)
Lemma add_elem_is_ok (L : Layout) (e : Element) (A B : Arrays) :
  is_ok (add_elem L e A) = is_ok (add_elem L e B).
Proof.
  unfold add_elem. destruct (get_bounds_halo_bl L) as [bl|]; simpl; [|reflexivity].
  apply for_each_is_ok. intros k s t. unfold fold_velocity.
  destruct (lookup (unique_velocities (stencil L)) k) as [vk|]; simpl; [|reflexivity].
  destruct (any_nonzero vk); [|reflexivity].
  destruct (shapes_clash e _ _); reflexivity.
Qed.

Lemma classify_idem (L : Layout) (e : Element) (w : window) (ioo : index -> Z)
    (y : index) :
  classify L e w (classify L e w ioo) y = classify L e w ioo y.
Proof.
  unfold classify. destruct (isfluid e).
  - destruct (in_window w y && ind_fluid L e y); reflexivity.
  - destruct (in_window w y && ind_solid L e y); reflexivity.
Qed.

(** C5.  Folding a solid obstacle a second time, right after the first,
    succeeds and leaves [in_or_out], [distance] and [flag] as the first
    fold left them, at every node and for every velocity. *)
Theorem solid_fold_idempotent (L : Layout) (e : Element) (A A1 : Arrays) :
  isfluid e = false ->
  add_elem L e A = Ok A1 ->
  exists A2, add_elem L e A1 = Ok A2 /\ arrays_eq A2 A1.
Proof.
  intros Hsolid H1.
  assert (Hok : is_ok (add_elem L e A1) = true)
    by (rewrite (add_elem_is_ok L e A1 A), H1; reflexivity).
  destruct (add_elem L e A1) as [A2|] eqn:H2; [|discriminate].
  exists A2. split; [reflexivity|].
  apply add_elem_spec in H1. destruct H1 as (bl & Hbl & Hio1 & Hrows1).
  apply add_elem_spec in H2. destruct H2 as (bl' & Hbl' & Hio2 & Hrows2).
  rewrite Hbl in Hbl'. inversion Hbl'; subst bl'. clear Hbl'.
  set (w := elem_view L e bl) in *.
  assert (Hrow : forall k x,
             distance A2 k x = distance A1 k x /\ flag A2 k x = flag A1 k x).
  { intros k x. specialize (Hrows1 k x). specialize (Hrows2 k x).
    destruct (nth_error (unique_velocities (stencil L)) k) as [vk|];
      [|exact Hrows2].
    simpl in Hrows1, Hrows2.
    destruct (any_nonzero vk); [|exact Hrows2].
    destruct Hrows1 as (_ & Hd1 & Hf1). destruct Hrows2 as (_ & Hd2 & Hf2).
    rewrite Hd2, Hf2, Hio1. clear Hd2 Hf2.
    unfold row_dist, row_flag, ind_merge, reset_dist, reset_flag, reset_mask,
      indx, ind_fluid, ind_solid, merge_test, out_cells in *.
    rewrite Hsolid in *. rewrite classify_idem.
    rewrite Hd1, Hf1. clear Hd1 Hf1.
    destruct (in_window w x); simpl; [|auto].
    destruct (point_inside e (node_coords L x)); simpl.
    { rewrite !andb_false_r. simpl. auto. }
    destruct (Qltb 0 (alpha L e vk x)); simpl; [|auto].
    destruct (if size_of (win_shape (elem_moved L e bl vk)) =? 0 then true
              else classify L e w (in_or_out A)
                     (facing w (elem_moved L e bl vk) x) =? valout);
      simpl; [|auto].
    destruct (Qltb (alpha L e vk x) (distance A k x)) eqn:E; simpl.
    - rewrite Qltb_irrefl. auto.
    - rewrite E. auto. }
  unfold arrays_eq. split; [|split].
  - intros x. rewrite Hio2, Hio1. apply classify_idem.
  - intros k x. apply Hrow.
  - intros k x. apply Hrow.
Qed.

(** ** Two solid obstacles, in either order *)

(** The merge of a solid obstacle at a node it reaches. *)
Lemma solid_candidate_row (L : Layout) (e : Element) (A A' : Arrays)
    (bl : list Q) (k : nat) (vk : list Z) (x : index) :
  isfluid e = false ->
  add_elem L e A = Ok A' ->
  get_bounds_halo_bl L = Ok bl ->
  nth_error (unique_velocities (stencil L)) k = Some vk ->
  any_nonzero vk = true ->
  reachable L e bl vk (in_or_out A') x ->
  distance A' k x =
    (if Qltb (alpha L e vk x) (distance A k x) then alpha L e vk x
     else distance A k x) /\
  flag A' k x =
    (if Qltb (alpha L e vk x) (distance A k x) then border L e vk x
     else flag A k x).
Proof.
  intros Hsolid H Hbl Hk Hnz (Hw & Hpos & Hout & Hoc).
  apply add_elem_spec in H. destruct H as (bl' & Hbl' & Hio & Hrows).
  rewrite Hbl in Hbl'. inversion Hbl'; subst bl'. clear Hbl'.
  specialize (Hrows k x). rewrite Hk in Hrows. simpl in Hrows.
  rewrite Hnz in Hrows. destruct Hrows as (_ & Hd & Hf). rewrite Hd, Hf.
  unfold row_dist, row_flag, ind_merge, reset_dist, reset_flag, reset_mask,
    indx, ind_fluid, ind_solid, merge_test, out_cells.
  rewrite Hsolid, Hw, Hout, <- Hio, Hoc. simpl.
  apply Qltb_lt in Hpos. rewrite Hpos. simpl.
  destruct (size_of (win_shape (elem_moved L e bl vk)) =? 0); simpl; auto.
Qed.

(** A solid obstacle never turns an OUT node IN. *)
Lemma classify_solid_out (L : Layout) (e : Element) (w : window)
    (ioo : index -> Z) (y : index) :
  isfluid e = false -> ioo y = valout -> classify L e w ioo y = valout.
Proof.
  intros Hs Hy. unfold classify. rewrite Hs.
  destruct (in_window w y && ind_solid L e y); auto.
Qed.

Lemma classify_solid_after (L : Layout) (a b : Element) (wa wb : window)
    (ioo : index -> Z) (y : index) :
  isfluid a = false -> isfluid b = false ->
  classify L b wb ioo y = valout ->
  classify L b wb (classify L a wa ioo) y = valout.
Proof.
  intros Ha Hb H.
  assert (Hc : forall f, classify L b wb f y =
                 if in_window wb y && ind_solid L b y then valout else f y)
    by (intros f; unfold classify; rewrite Hb; reflexivity).
  rewrite Hc in H. rewrite Hc.
  destruct (in_window wb y && ind_solid L b y); [reflexivity|].
  apply classify_solid_out; assumption.
Qed.

Lemma merge_is_min (a d : Q) :
  ((if Qltb a d then a else d) == Qmin d a)%Q.
Proof.
  destruct (Qltb a d) eqn:E.
  - apply Qltb_lt in E. symmetry. apply Q.min_r. apply Qlt_le_weak. exact E.
  - symmetry. apply Q.min_l. apply Qnot_lt_le. intros H.
    apply Qltb_lt in H. congruence.
Qed.

Lemma Qltb_false_le (a d : Q) : Qltb a d = false -> (d <= a)%Q.
Proof.
  intros E. apply Qnot_lt_le. intros H. apply Qltb_lt in H. congruence.
Qed.

(** C4, as the code has it.  Two solid obstacles [a] and [b] folded in
    either order, at a node reached by both along the velocity [k]: the
    stored distance ends as the least of the distance stored before,
    [alpha_a] and [alpha_b]; the flag is the border of the obstacle whose
    [alpha] is strictly the least, and the flag stored before when neither
    [alpha] is below the distance stored before. *)
Theorem solid_folds_min (L : Layout) (a b : Element) (A0 Aa Ab : Arrays)
    (bl : list Q) (k : nat) (vk : list Z) (x : index) :
  isfluid a = false -> isfluid b = false ->
  get_bounds_halo_bl L = Ok bl ->
  add_elem L a A0 = Ok Aa ->
  add_elem L b A0 = Ok Ab ->
  nth_error (unique_velocities (stencil L)) k = Some vk ->
  any_nonzero vk = true ->
  reachable L a bl vk (in_or_out Aa) x ->
  reachable L b bl vk (in_or_out Ab) x ->
  exists Aab Aba,
    add_elem L b Aa = Ok Aab /\ add_elem L a Ab = Ok Aba /\
    let aa := alpha L a vk x in
    let ab := alpha L b vk x in
    let d0 := distance A0 k x in
    (distance Aab k x == Qmin d0 (Qmin aa ab))%Q /\
    (distance Aba k x == Qmin d0 (Qmin aa ab))%Q /\
    ((aa < ab)%Q -> (aa < d0)%Q ->
       flag Aab k x = border L a vk x /\ flag Aba k x = border L a vk x) /\
    ((ab < aa)%Q -> (ab < d0)%Q ->
       flag Aab k x = border L b vk x /\ flag Aba k x = border L b vk x) /\
    ((d0 <= aa)%Q -> (d0 <= ab)%Q ->
       distance Aab k x = d0 /\ distance Aba k x = d0 /\
       flag Aab k x = flag A0 k x /\ flag Aba k x = flag A0 k x).
Proof.
  intros Ha Hb Hbl HAa HAb Hk Hnz Hra Hrb.
  assert (Hok1 : is_ok (add_elem L b Aa) = true)
    by (rewrite (add_elem_is_ok L b Aa A0), HAb; reflexivity).
  assert (Hok2 : is_ok (add_elem L a Ab) = true)
    by (rewrite (add_elem_is_ok L a Ab A0), HAa; reflexivity).
  destruct (add_elem L b Aa) as [Aab|] eqn:HAab; [|discriminate].
  destruct (add_elem L a Ab) as [Aba|] eqn:HAba; [|discriminate].
  exists Aab, Aba. split; [reflexivity|]. split; [reflexivity|].
  (* the facing nodes stay OUT under the other obstacle *)
  assert (Hrb' : reachable L b bl vk (in_or_out Aab) x).
  { destruct Hrb as (H1 & H2 & H3 & H4). repeat split; try assumption.
    pose proof (add_elem_spec _ _ _ _ HAa) as (bl1 & E1 & Hio1 & _).
    pose proof (add_elem_spec _ _ _ _ HAb) as (bl2 & E2 & Hio2 & _).
    pose proof (add_elem_spec _ _ _ _ HAab) as (bl3 & E3 & Hio3 & _).
    rewrite Hbl in E1, E2, E3.
    inversion E1; inversion E2; inversion E3; subst bl1 bl2 bl3.
    rewrite Hio3, Hio1. rewrite Hio2 in H4.
    apply classify_solid_after; assumption. }
  assert (Hra' : reachable L a bl vk (in_or_out Aba) x).
  { destruct Hra as (H1 & H2 & H3 & H4). repeat split; try assumption.
    pose proof (add_elem_spec _ _ _ _ HAa) as (bl1 & E1 & Hio1 & _).
    pose proof (add_elem_spec _ _ _ _ HAb) as (bl2 & E2 & Hio2 & _).
    pose proof (add_elem_spec _ _ _ _ HAba) as (bl3 & E3 & Hio3 & _).
    rewrite Hbl in E1, E2, E3.
    inversion E1; inversion E2; inversion E3; subst bl1 bl2 bl3.
    rewrite Hio3, Hio2. rewrite Hio1 in H4.
    apply classify_solid_after; assumption. }
  destruct (solid_candidate_row L a A0 Aa bl k vk x Ha HAa Hbl Hk Hnz Hra)
    as [Da Fa].
  destruct (solid_candidate_row L b A0 Ab bl k vk x Hb HAb Hbl Hk Hnz Hrb)
    as [Db Fb].
  destruct (solid_candidate_row L b Aa Aab bl k vk x Hb HAab Hbl Hk Hnz Hrb')
    as [Dab Fab].
  destruct (solid_candidate_row L a Ab Aba bl k vk x Ha HAba Hbl Hk Hnz Hra')
    as [Dba Fba].
  set (aa := alpha L a vk x) in *. set (ab := alpha L b vk x) in *.
  set (d0 := distance A0 k x) in *. cbv zeta.
  split; [|split; [|split; [|split]]].
  - rewrite Dab, merge_is_min, Da, merge_is_min. symmetry. apply Q.min_assoc.
  - rewrite Dba, merge_is_min, Db, merge_is_min.
    rewrite (Q.min_comm aa ab). symmetry. apply Q.min_assoc.
  - intros Hlt Hd.
    assert (E1 : Qltb aa d0 = true) by (apply Qltb_lt; exact Hd).
    assert (E2 : Qltb ab aa = false).
    { destruct (Qltb ab aa) eqn:E; [|reflexivity]. apply Qltb_lt in E.
      exfalso. exact (Qlt_irrefl _ (Qlt_trans _ _ _ Hlt E)). }
    assert (E3 : Qltb aa ab = true) by (apply Qltb_lt; exact Hlt).
    rewrite Fab, Fba, Da, Db, Fa, Fb, E1. cbv iota. rewrite E2.
    destruct (Qltb ab d0); cbv iota; [rewrite E3|rewrite E1]; auto.
  - intros Hlt Hd.
    assert (E1 : Qltb ab d0 = true) by (apply Qltb_lt; exact Hd).
    assert (E2 : Qltb aa ab = false).
    { destruct (Qltb aa ab) eqn:E; [|reflexivity]. apply Qltb_lt in E.
      exfalso. exact (Qlt_irrefl _ (Qlt_trans _ _ _ Hlt E)). }
    assert (E3 : Qltb ab aa = true) by (apply Qltb_lt; exact Hlt).
    rewrite Fab, Fba, Da, Db, Fa, Fb, E1. cbv iota. rewrite E2.
    destruct (Qltb aa d0); cbv iota; [rewrite E3|rewrite E1]; auto.
  - intros Hda Hdb.
    assert (E1 : Qltb aa d0 = false).
    { destruct (Qltb aa d0) eqn:E; [|reflexivity]. apply Qltb_lt in E.
      exfalso. exact (Qlt_not_le _ _ E Hda). }
    assert (E2 : Qltb ab d0 = false).
    { destruct (Qltb ab d0) eqn:E; [|reflexivity]. apply Qltb_lt in E.
      exfalso. exact (Qlt_not_le _ _ E Hdb). }
    rewrite Dab, Dba, Fab, Fba, Da, Db, Fa, Fb.
    rewrite ?E1, ?E2. cbv iota. rewrite ?E1, ?E2. auto.
Qed.

(** ** The configuration error *)

Lemma global_sizes_exit (dx : Q) :
  forall bs, Exists (fun b => is_integer (float_ratio b dx) = false) bs ->
             global_sizes bs dx = Raise SystemExit.
Proof.
  induction bs as [|b bs IH]; intros H; [inversion H|]. simpl.
  destruct (is_integer (float_ratio b dx)) eqn:Ei; [|reflexivity].
  inversion H as [? ? Hb|? ? Hbs]; subst.
  - congruence.
  - rewrite (IH Hbs). reflexivity.
Qed.

Lemma global_sizes_value (dx : Q) :
  forall bs, Forall (fun b => is_integer (float_ratio b dx) = true) bs ->
             global_sizes bs dx
             = Ok (map (fun b => inject_Z (float_value (float_ratio b dx))) bs).
Proof.
  induction bs as [|b bs IH]; intros H; simpl; [reflexivity|].
  inversion H as [|? ? Hb Hbs]; subst.
  rewrite Hb, (IH Hbs). reflexivity.
Qed.

Lemma bind_no_exit {A B : Type} (r : result A) (f : A -> result B) :
  no_exit r -> (forall a, r = Ok a -> no_exit (f a)) -> no_exit (bind r f).
Proof.
  unfold no_exit. destruct r as [a|x]; simpl; intros Hr Hf; [auto|].
  intros E. apply Hr. inversion E. reflexivity.
Qed.

Lemma lookup_no_exit {A : Type} (l : list A) (k : nat) : no_exit (lookup l k).
Proof.
  unfold no_exit, lookup. destruct (nth_error l k); discriminate.
Qed.

Lemma setitem_no_exit {A : Type} (v : A) :
  forall (l : list A) (k : nat), no_exit (setitem l k v).
Proof.
  induction l as [|a l IH]; intros [|k]; simpl; try discriminate.
  apply bind_no_exit; [apply IH | discriminate].
Qed.

Lemma py_index_no_exit (n i : Z) : no_exit (py_index n i).
Proof.
  unfold no_exit, py_index.
  destruct ((0 <=? i) && (i <? n)); [discriminate|].
  destruct ((i <? 0) && (- n <=? i)); discriminate.
Qed.

Lemma linspace_no_exit (a b : Q) (n : Z) : no_exit (linspace a b n).
Proof.
  unfold no_exit, linspace. destruct (n <? 0); discriminate.
Qed.

Lemma collect_no_exit {A : Type} :
  forall l : list (result A), Forall no_exit l -> no_exit (collect l).
Proof.
  induction l as [|r l IH]; intros H; simpl; [discriminate|].
  inversion H; subst. apply bind_no_exit; [assumption|]. intros a _.
  apply bind_no_exit; [auto | discriminate].
Qed.

Lemma for_each_no_exit {A S : Type} (body : A -> S -> result S) :
  (forall x s, no_exit (body x s)) ->
  forall (l : list A) (s : S), no_exit (for_each l body s).
Proof.
  intros Hb. induction l as [|x l IH]; intros s; simpl; [discriminate|].
  apply bind_no_exit; [apply Hb | intros; apply IH].
Qed.

Lemma stamp_no_exit L a k i dvik lab A : no_exit (stamp L a k i dvik lab A).
Proof.
  unfold stamp. apply bind_no_exit; [apply lookup_no_exit|]. intros m _.
  apply bind_no_exit; [apply py_index_no_exit | discriminate].
Qed.

Lemma add_init_no_exit L lab A : no_exit (add_init L lab A).
Proof.
  unfold add_init. apply for_each_no_exit. intros a s. unfold stamp_axis.
  apply for_each_no_exit. intros [k vk] t. unfold stamp_velocity. simpl.
  destruct (vk <? 0).
  - apply bind_no_exit; [apply lookup_no_exit|]. intros l _.
    destruct (negb (l =? interface)); [|discriminate].
    apply for_each_no_exit. intros; apply stamp_no_exit.
  - destruct (0 <? vk); [|discriminate].
    apply bind_no_exit; [apply lookup_no_exit|]. intros l _.
    destruct (negb (l =? interface)); [|discriminate].
    apply for_each_no_exit. intros; apply stamp_no_exit.
Qed.

Lemma add_elem_no_exit L e A : no_exit (add_elem L e A).
Proof.
  unfold add_elem, get_bounds_halo_bl. apply bind_no_exit.
  - apply collect_no_exit. apply Forall_forall. intros r Hr.
    apply in_map_iff in Hr. destruct Hr as (k & <- & _). apply lookup_no_exit.
  - intros bl _. apply for_each_no_exit. intros k s. unfold fold_velocity.
    apply bind_no_exit; [apply lookup_no_exit|]. intros vk _.
    destruct (any_nonzero vk); [|discriminate].
    destruct (shapes_clash e _ _); discriminate.
Qed.

Lemma relabel_no_exit dim region gs lab : no_exit (relabel dim region gs lab).
Proof.
  unfold relabel. apply for_each_no_exit. intros i s. unfold relabel_axis.
  apply bind_no_exit; [apply lookup_no_exit|]. intros r _.
  apply bind_no_exit.
  - destruct (negb (fst r =? 0)); [apply setitem_no_exit | discriminate].
  - intros lab1 _. apply bind_no_exit; [apply lookup_no_exit|]. intros g _.
    destruct (negb (Qeq_bool (inject_Z (snd r)) g));
      [apply setitem_no_exit | discriminate].
Qed.

Lemma create_coords_exit (g : Geometry) (st : Stencil) (dx : Q)
    (get_region : Partitioner) :
  Exists (fun b => is_integer (float_ratio b dx) = false) (bounds g) ->
  create_coords g st dx get_region = Raise SystemExit /\
  Domain_init g st dx get_region = Raise SystemExit.
Proof.
  intros H. apply global_sizes_exit in H.
  assert (Hc : create_coords g st dx get_region = Raise SystemExit)
    by (unfold create_coords; rewrite H; reflexivity).
  split; [exact Hc|]. unfold Domain_init. rewrite Hc. reflexivity.
Qed.

Lemma create_coords_no_exit (g : Geometry) (st : Stencil) (dx : Q)
    (get_region : Partitioner) :
  Forall (fun b => is_integer (float_ratio b dx) = true) (bounds g) ->
  no_exit (create_coords g st dx get_region) /\
  no_exit (Domain_init g st dx get_region).
Proof.
  intros H. apply global_sizes_value in H.
  assert (Hc : no_exit (create_coords g st dx get_region)).
  { unfold create_coords. rewrite H. simpl.
    apply bind_no_exit.
    - apply collect_no_exit. apply Forall_forall. intros r Hr.
      apply in_map_iff in Hr. destruct Hr as (k & <- & _).
      unfold axis_coords_halo.
      apply bind_no_exit; [apply lookup_no_exit|]. intros b _.
      apply bind_no_exit; [apply lookup_no_exit|]. intros r _.
      apply bind_no_exit; [apply lookup_no_exit|]. intros h _.
      apply linspace_no_exit.
    - intros ch _. apply bind_no_exit; [|discriminate].
      apply collect_no_exit. apply Forall_forall. intros r Hr.
      apply in_map_iff in Hr. destruct Hr as (k & <- & _).
      apply bind_no_exit; [apply lookup_no_exit | discriminate]. }
  split; [exact Hc|]. unfold Domain_init.
    apply bind_no_exit; [exact Hc|]. intros cc _.
    apply bind_no_exit; [apply relabel_no_exit|]. intros lab _.
    apply bind_no_exit; [apply add_init_no_exit|]. intros A1 _.
    apply bind_no_exit; [|discriminate].
    apply for_each_no_exit. intros; apply add_elem_no_exit.
Qed.

(** ** Stamping the primary box *)

Section Stamping.

Variables (L : Layout) (a k : nat) (l : Z).

(** [neg]: the velocity points to the lower face of the axis, the rows
    are counted from the first one; otherwise from the last one. *)
Variables (neg : bool) (frac : Z -> Q).

Lemma py_index_row (m i r : Z) :
  0 <= i -> py_index m (row_index neg i) = Ok r ->
  i < m /\ r = (if neg then i else m - 1 - i).
Proof.
  unfold py_index, row_index. intros Hi H. destruct neg.
  - destruct (Z.leb_spec 0 i); [|lia]. simpl in H.
    destruct (Z.ltb_spec i m); simpl in H.
    + inversion H. lia.
    + destruct (Z.ltb_spec i 0); simpl in H; [lia|discriminate].
  - destruct (Z.leb_spec 0 (- i - 1)); [lia|]. simpl in H.
    destruct (Z.ltb_spec (- i - 1) 0); [|lia]. simpl in H.
    destruct (Z.leb_spec (- m) (- i - 1)); simpl in H; [|discriminate].
    inversion H. lia.
Qed.

Lemma stamp_rows_spec (m : Z) :
  nth_error (win_shape (interior L)) a = Some m ->
  forall (n s : nat) (A A' : Arrays),
    for_each (map Z.of_nat (seq s n))
      (fun i => stamp L a k (row_index neg i) (frac i) l) A = Ok A' ->
    (n <> 0%nat -> Z.of_nat (s + n) <= m) /\
    in_or_out A' = in_or_out A /\
    forall k' x,
      distance A' k' x =
        (if hit L a k neg frac A m (Z.of_nat s) (Z.of_nat n) k' x then frac (offset L a neg m x)
         else distance A k' x) /\
      flag A' k' x =
        (if hit L a k neg frac A m (Z.of_nat s) (Z.of_nat n) k' x then l else flag A k' x).
Proof.
  intros Hm. induction n as [|n IH]; intros s A A' H; simpl in H.
  - inversion H; subst A'. split; [congruence|]. split; [reflexivity|].
    intros k' x. unfold hit.
    replace ((Z.of_nat s <=? offset L a neg m x) && (offset L a neg m x <? Z.of_nat s + Z.of_nat 0))
      with false by (symmetry; apply andb_false_iff;
                     destruct (Z.leb_spec (Z.of_nat s) (offset L a neg m x)); [right|left; reflexivity];
                     apply Z.ltb_ge; lia).
    rewrite andb_false_r. simpl. auto.
  - apply bind_ok in H. destruct H as (A1 & H1 & Hrest).
    unfold stamp, lookup in H1. rewrite Hm in H1. simpl in H1.
    apply bind_ok in H1. destruct H1 as (r & Hr & H1).
    apply py_index_row in Hr; [|lia]. destruct Hr as [Hlt Hrow].
    inversion H1; subst A1; clear H1.
    destruct (IH (S s) _ _ Hrest) as (Hbound & Hio & Hrows). simpl in Hio.
    split.
    { intros _. destruct n; [lia|]. specialize (Hbound ltac:(discriminate)). lia. }
    split; [exact Hio|].
    intros k' x. destruct (Hrows k' x) as [Hd Hf]. rewrite Hd, Hf. clear Hd Hf.
    clear Hrows Hrest IH Hbound Hio.
    assert (Es : Z.of_nat (S s) = Z.of_nat s + 1) by lia.
    assert (En : Z.of_nat (S n) = Z.of_nat n + 1) by lia.
    assert (Hn : 0 <= Z.of_nat n) by lia.
    rewrite Es, En. clear Es En.
    generalize dependent (Z.of_nat n). intros zn Hn.
    generalize dependent (Z.of_nat s). intros zs Hlt Hrow.
    unfold hit. cbn [distance flag].
    destruct (Nat.eqb_spec k' k) as [->|Hk]; cbn [andb]; [|auto].
    rewrite Nat.eqb_refl. cbn [andb].
    destruct (in_window (interior L) x); cbn [andb]; [|auto].
    assert (Hoff : (nth a (rel (interior L) x) 0 =? r) = (offset L a neg m x =? zs)).
    { unfold offset. subst r. destruct neg.
      - reflexivity.
      - destruct (Z.eqb_spec (nth a (rel (interior L) x) 0) (m - 1 - zs));
          destruct (Z.eqb_spec (m - 1 - nth a (rel (interior L) x) 0) zs);
          try reflexivity; lia. }
    rewrite Hoff.
    destruct (Z.eqb_spec (offset L a neg m x) zs) as [E|E].
    + rewrite E.
      replace (zs + 1 <=? zs) with false by (symmetry; apply Z.leb_gt; lia).
      replace (zs <=? zs) with true by (symmetry; apply Z.leb_le; lia).
      replace (zs <? zs + (zn + 1)) with true by (symmetry; apply Z.ltb_lt; lia).
      cbn [andb]. destruct (Nat.eqb (dim L) 1); auto.
    + replace ((zs <=? offset L a neg m x) && (offset L a neg m x <? zs + (zn + 1)))
        with ((zs + 1 <=? offset L a neg m x) && (offset L a neg m x <? zs + 1 + zn)).
      * cbn [andb]. auto.
      * destruct (Z.leb_spec (zs + 1) (offset L a neg m x));
          destruct (Z.leb_spec zs (offset L a neg m x));
          destruct (Z.ltb_spec (offset L a neg m x) (zs + 1 + zn));
          destruct (Z.ltb_spec (offset L a neg m x) (zs + (zn + 1)));
          try reflexivity; lia.
Qed.

End Stamping.

Lemma crossing_abs (vk i : Z) :
  vk <> 0 ->
  (crossing vk i == (inject_Z i + (1 # 2)) / inject_Z (Z.abs vk))%Q.
Proof.
  intros Hv. unfold crossing. destruct (Z.ltb_spec vk 0).
  - replace (Z.abs vk) with (- vk) by lia.
    rewrite inject_Z_opp. field. intros E.
    assert (Hq : (inject_Z vk == inject_Z 0)%Q) by exact E.
    unfold Qeq in Hq. simpl in Hq. lia.
  - replace (Z.abs vk) with vk by lia. reflexivity.
Qed.

Lemma crossing_lt_1 (vk i : Z) : 0 <= i < Z.abs vk -> (crossing vk i < 1)%Q.
Proof.
  intros Hi. rewrite crossing_abs by lia.
  apply Qlt_shift_div_r.
  - replace 0%Q with (inject_Z 0) by reflexivity. rewrite <- Zlt_Qlt. lia.
  - rewrite Qmult_1_l. unfold Qlt, Qplus, inject_Z. simpl. lia.
Qed.

Lemma hit_written (L : Layout) (a k : nat) (vk m : Z) (A : Arrays)
    (frac : Z -> Q) (k' : nat) (x : index) :
  (forall i, frac i = crossing vk i) ->
  (dim L = 1%nat -> forall y, (1 <= distance A k y)%Q) ->
  hit L a k (vk <? 0) frac A m 0 (Z.abs vk) k' x = written L a k vk m A k' x.
Proof.
  intros Hfrac H1d. unfold hit, written. cbv zeta.
  rewrite Z.add_0_l, Hfrac.
  destruct (Nat.eqb k' k && in_window (interior L) x); [|reflexivity].
  destruct ((0 <=? offset L a (vk <? 0) m x) &&
            (offset L a (vk <? 0) m x <? Z.abs vk)) eqn:Hr; [|reflexivity].
  cbn [andb]. destruct (Nat.eqb_spec (dim L) 1) as [Hd|_]; [|reflexivity].
  symmetry. apply Qltb_lt. apply andb_prop in Hr. destruct Hr as [Hr1 Hr2].
  apply Z.leb_le in Hr1. apply Z.ltb_lt in Hr2.
  apply Qlt_le_trans with 1%Q; [apply crossing_lt_1; lia | apply H1d; exact Hd].
Qed.

Lemma stamp_rows_fail (L : Layout) (a k : nat) (l : Z) (body : Z -> Z) (frac : Z -> Q) :
  nth_error (win_shape (interior L)) a = None ->
  forall (n : nat) (A A' : Arrays),
    n <> 0%nat ->
    for_each (map Z.of_nat (seq 0 n))
      (fun i => stamp L a k (body i) (frac i) l) A <> Ok A'.
Proof.
  intros Hm [|n] A A' Hn; [contradiction|]. simpl.
  unfold stamp at 1. unfold lookup. rewrite Hm. simpl. discriminate.
Qed.

(** The passes of [__add_init] for one axis and one velocity. *)
Lemma stamp_velocity_spec (L : Layout) (lab : list Z) (a k : nat) (vk : Z)
    (A A' : Arrays) :
  stamp_velocity L lab a k vk A = Ok A' ->
  (dim L = 1%nat -> forall y, (1 <= distance A k y)%Q) ->
  (vk = 0 -> A' = A) /\
  (vk <> 0 ->
   exists l,
     nth_error lab (if vk <? 0 then (2 * a)%nat else (2 * a + 1)%nat) = Some l /\
     (l = interface -> A' = A) /\
     (l <> interface ->
      exists m,
        nth_error (win_shape (interior L)) a = Some m /\
        Z.abs vk <= m /\
        in_or_out A' = in_or_out A /\
        forall k' x,
          distance A' k' x =
            (if written L a k vk m A k' x
             then crossing vk (offset L a (vk <? 0) m x)
             else distance A k' x) /\
          flag A' k' x =
            (if written L a k vk m A k' x then l else flag A k' x))).
Proof.
  intros H H1d. unfold stamp_velocity in H. split.
  - intros ->. simpl in H. inversion H. reflexivity.
  - intros Hv.
    assert (Hgen : forall (neg : bool) (face : nat) (frac : Z -> Q),
               (vk <? 0) = neg ->
               (if vk <? 0 then (2 * a)%nat else (2 * a + 1)%nat) = face ->
               (forall i, frac i = crossing vk i) ->
               (l <- lookup lab face ;;
                if negb (l =? interface) then
                  for_each (range (Z.abs vk))
                    (fun i => stamp L a k (row_index neg i) (frac i) l) A
                else Ok A) = Ok A' ->
               exists l,
                 nth_error lab (if vk <? 0 then (2 * a)%nat else (2 * a + 1)%nat)
                   = Some l /\
                 (l = interface -> A' = A) /\
                 (l <> interface ->
                  exists m,
                    nth_error (win_shape (interior L)) a = Some m /\
                    Z.abs vk <= m /\
                    in_or_out A' = in_or_out A /\
                    forall k' x,
                      distance A' k' x =
                        (if written L a k vk m A k' x
                         then crossing vk (offset L a (vk <? 0) m x)
                         else distance A k' x) /\
                      flag A' k' x =
                        (if written L a k vk m A k' x then l else flag A k' x))).
    { intros neg face frac Hneg Hface Hfrac Hrun. rewrite Hface.
      apply bind_ok in Hrun. destruct Hrun as (l & Hl & Hrun).
      unfold lookup in Hl. destruct (nth_error lab face) as [l'|]; [|discriminate].
      inversion Hl; subst l'. exists l. split; [reflexivity|].
      destruct (Z.eqb_spec l interface) as [El|El]; simpl in Hrun.
      - split; [intros _; inversion Hrun; reflexivity | contradiction].
      - split; [contradiction|]. intros _.
        assert (Hn : Z.to_nat (Z.abs vk) <> 0%nat) by lia.
        unfold range in Hrun.
        destruct (nth_error (win_shape (interior L)) a) as [m|] eqn:Hm.
        + exists m. split; [reflexivity|].
          destruct (stamp_rows_spec L a k l neg frac m Hm _ _ _ _ Hrun)
            as (Hb & Hio & Hrows).
          split; [specialize (Hb Hn); lia|]. split; [exact Hio|].
          intros k' x. destruct (Hrows k' x) as [Hd Hf].
          rewrite Hd, Hf. rewrite Z2Nat.id by lia. simpl Z.of_nat. subst neg.
          rewrite (hit_written L a k vk m A frac k' x Hfrac H1d).
          rewrite Hfrac. auto.
        + exfalso. exact (stamp_rows_fail L a k l _ _ Hm _ A A' Hn Hrun). }
    destruct (Z.lt_ge_cases vk 0) as [Hlt|Hge].
    + assert (E : (vk <? 0) = true) by (apply Z.ltb_lt; exact Hlt).
      rewrite E in H.
      apply (Hgen true (2 * a)%nat
               (fun i => (- (inject_Z i + (1 # 2)) / inject_Z vk)%Q)).
      * exact E.
      * rewrite E. reflexivity.
      * intros i. unfold crossing. rewrite E. reflexivity.
      * replace (Z.abs vk) with (- vk) by lia. exact H.
    + assert (E : (vk <? 0) = false) by (apply Z.ltb_ge; exact Hge).
      assert (E' : (0 <? vk) = true) by (apply Z.ltb_lt; lia).
      rewrite E, E' in H.
      apply (Hgen false (2 * a + 1)%nat
               (fun i => ((inject_Z i + (1 # 2)) / inject_Z vk)%Q)).
      * exact E.
      * rewrite E. reflexivity.
      * intros i. unfold crossing. rewrite E. reflexivity.
      * replace (Z.abs vk) with vk by lia. exact H.
Qed.

Lemma rows_kept_refl (k : nat) (A : Arrays) : rows_kept k A A.
Proof. intros x. auto. Qed.

Lemma rows_kept_trans (k : nat) (A B C : Arrays) :
  rows_kept k A B -> rows_kept k B C -> rows_kept k A C.
Proof.
  intros H1 H2 x. destruct (H1 x) as [Hd Hf], (H2 x) as [Hd' Hf'].
  rewrite Hd', Hf'. auto.
Qed.

Lemma stamp_velocity_pass (L : Layout) (lab : list Z) (a k : nat) (vk : Z)
    (A A' : Arrays) :
  stamp_velocity L lab a k vk A = Ok A' ->
  (dim L = 1%nat -> forall y, (1 <= distance A k y)%Q) ->
  in_or_out A' = in_or_out A /\
  pass_spec L lab a k vk A A' /\
  (forall k', k' <> k -> rows_kept k' A A').
Proof.
  intros H H1d. destruct (stamp_velocity_spec L lab a k vk A A' H H1d) as [H0 Hn].
  destruct (Z.eq_dec vk 0) as [E|E].
  - specialize (H0 E). subst A'. split; [reflexivity|]. split.
    + split; [intros _; apply rows_kept_refl | contradiction].
    + intros; apply rows_kept_refl.
  - destruct (Hn E) as (l & Hl & Hi & Hw).
    destruct (Z.eq_dec l interface) as [El|El].
    + specialize (Hi El). subst A'. split; [reflexivity|]. split.
      * split; [contradiction|]. intros _. exists l. split; [exact Hl|].
        split; [intros _; apply rows_kept_refl | contradiction].
      * intros; apply rows_kept_refl.
    + destruct (Hw El) as (m & Hm & Hle & Hio & Hrows).
      split; [exact Hio|]. split.
      * split; [contradiction|]. intros _. exists l. split; [exact Hl|].
        split; [contradiction|]. intros _. exists m.
        split; [exact Hm|]. split; [exact Hle|]. intros x. cbv zeta.
        split; [apply crossing_abs; exact E | apply Hrows].
      * intros k' Hk x. destruct (Hrows k' x) as [Hd Hf].
        unfold written in Hd, Hf. apply Nat.eqb_neq in Hk.
        rewrite Hk in Hd, Hf. simpl in Hd, Hf. auto.
Qed.

Lemma pass_spec_ext (L : Layout) (lab : list Z) (a k : nat) (vk : Z)
    (A B B' A' : Arrays) :
  rows_kept k A B -> rows_kept k B' A' ->
  pass_spec L lab a k vk B B' -> pass_spec L lab a k vk A A'.
Proof.
  intros HAB HBA [H0 Hn]. split.
  - intros E. apply (rows_kept_trans k A B A'); [exact HAB|].
    apply (rows_kept_trans k B B' A'); [apply H0; exact E | exact HBA].
  - intros E. destruct (Hn E) as (l & Hl & Hi & Hw). exists l.
    split; [exact Hl|]. split.
    + intros El. apply (rows_kept_trans k A B A'); [exact HAB|].
      apply (rows_kept_trans k B B' A'); [apply Hi; exact El | exact HBA].
    + intros El. destruct (Hw El) as (m & Hm & Hle & Hrows). exists m.
      split; [exact Hm|]. split; [exact Hle|]. intros x.
      destruct (Hrows x) as (Hc & Hd & Hf).
      destruct (HAB x) as [HdAB HfAB]. destruct (HBA x) as [HdBA HfBA].
      cbv zeta in *. split; [exact Hc|].
      rewrite HdBA, HfBA, Hd, Hf. unfold written. rewrite HdAB, HfAB. auto.
Qed.

(** The loop of [__add_init] over the unique velocities, for one axis.
    In one dimension the rows still to come must hold no distance below
    one, as they do when the loop starts on the arrays just allocated. *)
Lemma stamp_axis_rows (L : Layout) (lab : list Z) (a : nat) :
  forall (vs : list Z) (s : nat) (A A' : Arrays),
    for_each (combine (seq s (length vs)) vs)
      (fun kv => stamp_velocity L lab a (fst kv) (snd kv)) A = Ok A' ->
    (dim L = 1%nat -> forall k y, (s <= k)%nat -> (1 <= distance A k y)%Q) ->
    in_or_out A' = in_or_out A /\
    forall k,
      (forall vk, (s <= k)%nat -> nth_error vs (k - s) = Some vk ->
                  pass_spec L lab a k vk A A') /\
      ((k < s)%nat \/ (s + length vs <= k)%nat -> rows_kept k A A').
Proof.
  induction vs as [|v vs IH]; intros s A A' H H1d; simpl in H.
  - inversion H; subst A'. split; [reflexivity|]. intros k. split.
    + intros vk _ Hk. destruct (k - s)%nat; discriminate.
    + intros _. apply rows_kept_refl.
  - apply bind_ok in H. destruct H as (A1 & H1 & Hrest). simpl in H1.
    destruct (stamp_velocity_pass L lab a s v A A1 H1
                (fun Hd y => H1d Hd s y (Nat.le_refl s)))
      as (Hio1 & Hpass & Hkeep).
    assert (H1d' : dim L = 1%nat ->
                   forall k y, (S s <= k)%nat -> (1 <= distance A1 k y)%Q).
    { intros Hd k y Hk. destruct (Hkeep k ltac:(lia) y) as [-> _].
      apply H1d; [exact Hd | lia]. }
    destruct (IH (S s) A1 A' Hrest H1d') as (Hio & Hrows).
    split; [congruence|]. intros k. destruct (Hrows k) as [Hin Hout]. split.
    + intros vk Hsk Hk. destruct (Nat.eq_dec k s) as [->|Hne].
      * rewrite Nat.sub_diag in Hk. simpl in Hk. inversion Hk; subst vk.
        apply (pass_spec_ext L lab a s v A A A1 A');
          [apply rows_kept_refl | apply Hout; left; lia | exact Hpass].
      * replace (k - s)%nat with (S (k - S s)) in Hk by lia. simpl in Hk.
        apply (pass_spec_ext L lab a k vk A A1 A' A');
          [apply Hkeep; exact Hne | apply rows_kept_refl |].
        apply Hin; [lia | exact Hk].
    + intros Hk. simpl in Hk.
      apply (rows_kept_trans k A A1 A'); [apply Hkeep; lia|].
      apply Hout. lia.
Qed.

(** The loop of [__add_init] over the unique velocities keeps the
    classification and, for every velocity, leaves what its passes write. *)
Lemma stamp_axis_spec (L : Layout) (lab : list Z) (a : nat) (A A' : Arrays) :
  stamp_axis L lab a A = Ok A' ->
  (dim L = 1%nat -> forall k y, (1 <= distance A k y)%Q) ->
  in_or_out A' = in_or_out A /\
  forall k,
    match nth_error (uvel (stencil L) a) k with
    | Some vk => pass_spec L lab a k vk A A'
    | None => rows_kept k A A'
    end.
Proof.
  unfold stamp_axis, enumerate. intros H H1d.
  destruct (stamp_axis_rows L lab a _ 0%nat A A' H (fun Hd k y _ => H1d Hd k y))
    as (Hio & Hrows).
  split; [exact Hio|]. intros k. destruct (Hrows k) as [Hin Hout].
  destruct (nth_error (uvel (stencil L) a) k) as [vk|] eqn:Hk.
  - apply Hin; [lia|]. rewrite Nat.sub_0_r. exact Hk.
  - apply Hout. right. apply nth_error_None in Hk. lia.
Qed.

(** ** The state after the stamping of the box *)

Lemma outside_kept_refl (L : Layout) (A : Arrays) : outside_kept L A A.
Proof. split; [reflexivity | auto]. Qed.

Lemma outside_kept_trans (L : Layout) (A B C : Arrays) :
  outside_kept L A B -> outside_kept L B C -> outside_kept L A C.
Proof.
  intros [Hi1 H1] [Hi2 H2]. split; [congruence|]. intros k x Hx.
  destruct (H1 k x Hx) as [Hd Hf], (H2 k x Hx) as [Hd' Hf'].
  rewrite Hd', Hf'. auto.
Qed.

Lemma stamp_outside (L : Layout) (a k : nat) (i : Z) (dvik : Q) (lab : Z)
    (A A' : Arrays) :
  stamp L a k i dvik lab A = Ok A' -> outside_kept L A A'.
Proof.
  unfold stamp. intros H.
  apply bind_ok in H. destruct H as (m & _ & H).
  apply bind_ok in H. destruct H as (row & _ & H).
  inversion H; subst A'; clear H. split; [reflexivity|].
  intros k' x Hx. simpl. rewrite Hx. simpl. rewrite andb_false_r. auto.
Qed.

Lemma stamp_velocity_outside (L : Layout) (lab : list Z) (a k : nat) (vk : Z)
    (A A' : Arrays) :
  stamp_velocity L lab a k vk A = Ok A' -> outside_kept L A A'.
Proof.
  unfold stamp_velocity. intros H.
  assert (Hloop : forall (l : list Z) (body : Z -> Z) (frac : Z -> Q) (lb : Z),
             for_each l (fun i => stamp L a k (body i) (frac i) lb) A = Ok A' ->
             outside_kept L A A').
  { intros l body frac lb Hl.
    refine (for_each_inv (fun B => outside_kept L A B) _ _ _ _ _ _ Hl);
      [|apply outside_kept_refl].
    intros i t t' _ Ht Hs. apply (outside_kept_trans L A t t'); [exact Ht|].
    apply (stamp_outside L a k _ _ _ _ _ Hs). }
  destruct (vk <? 0).
  - apply bind_ok in H. destruct H as (l & _ & H).
    destruct (negb (l =? interface)).
    + apply (Hloop _ (fun i => i) _ _ H).
    + inversion H. apply outside_kept_refl.
  - destruct (0 <? vk).
    + apply bind_ok in H. destruct H as (l & _ & H).
      destruct (negb (l =? interface)).
      * apply (Hloop _ (fun i => - i - 1) _ _ H).
      * inversion H. apply outside_kept_refl.
    + inversion H. apply outside_kept_refl.
Qed.

Lemma add_init_outside (L : Layout) (lab : list Z) (A A' : Arrays) :
  add_init L lab A = Ok A' -> outside_kept L (init_in_or_out L A) A'.
Proof.
  unfold add_init. intros H.
  refine (for_each_inv (fun B => outside_kept L (init_in_or_out L A) B)
            _ _ _ _ _ _ H); [|apply outside_kept_refl].
  intros a t t' _ Ht Hs. eapply outside_kept_trans; [exact Ht|].
  unfold stamp_axis in Hs.
  refine (for_each_inv (fun B => outside_kept L t B) _ _ _ _ _ _ Hs);
    [|apply outside_kept_refl].
  intros kv u u' _ Hu Hs'. eapply outside_kept_trans; [exact Hu|].
  apply (stamp_velocity_outside _ _ _ _ _ _ _ Hs').
Qed.

(** C10.  After the stamping of the box on the arrays just allocated, at
    every node outside the interior (the halo nodes) [distance] and
    [flag] still hold the IN-sentinel for every velocity and [in_or_out]
    is OUT; at every interior node [in_or_out] is IN. *)
Theorem halo_after_stamping (L : Layout) (lab : list Z) (A : Arrays) :
  add_init L lab fresh_arrays = Ok A ->
  forall x,
    (in_window (interior L) x = false ->
       in_or_out A x = valout /\
       forall k, distance A k x = valinQ /\ flag A k x = valin) /\
    (in_window (interior L) x = true -> in_or_out A x = valin).
Proof.
  intros H x. apply add_init_outside in H. destruct H as [Hio Hout].
  rewrite Hio. simpl. split.
  - intros Hx. rewrite Hx. split; [reflexivity|]. intros k.
    destruct (Hout k x Hx) as [Hd Hf]. rewrite Hd, Hf. simpl. auto.
  - intros Hx. rewrite Hx. reflexivity.
Qed.

(** ** The labels in use *)

Lemma insert_unique_In (z : Z) :
  forall l y, In y (insert_unique z l) <-> y = z \/ In y l.
Proof.
  induction l as [|h l IH]; intros y; simpl.
  - intuition.
  - destruct (Z.ltb_spec z h).
    + simpl. intuition.
    + destruct (Z.eqb_spec z h).
      * subst h. simpl. intuition.
      * simpl. rewrite IH. intuition.
Qed.

Lemma np_unique_In (l : list Z) (y : Z) : In y (np_unique l) <-> In y l.
Proof.
  induction l as [|h l IH]; simpl; [tauto|].
  rewrite insert_unique_In, IH. intuition.
Qed.

Lemma insert_unique_sorted (z : Z) :
  forall l, StronglySorted Z.lt l -> StronglySorted Z.lt (insert_unique z l).
Proof.
  induction l as [|h l IH]; intros Hs; simpl.
  - constructor; constructor.
  - inversion Hs as [|? ? Hl Hh]; subst.
    destruct (Z.ltb_spec z h).
    + constructor; [exact Hs|]. constructor; [exact H|].
      apply Forall_forall. intros y Hy.
      rewrite Forall_forall in Hh. specialize (Hh y Hy). lia.
    + destruct (Z.eqb_spec z h); [exact Hs|].
      constructor; [apply IH; exact Hl|].
      apply Forall_forall. intros y Hy. apply insert_unique_In in Hy.
      destruct Hy as [->|Hy]; [lia|].
      rewrite Forall_forall in Hh. apply Hh. exact Hy.
Qed.

Lemma np_unique_sorted (l : list Z) : StronglySorted Z.lt (np_unique l).
Proof.
  induction l as [|h l IH]; simpl; [constructor|].
  apply insert_unique_sorted. exact IH.
Qed.

(** C9, as the code has it.  [list_of_labels] is the strictly increasing
    list of the labels stored for the faces of the box (an interface
    face holds [-2] there) and of every label of every obstacle of the
    geometry, whether a ray reaches the obstacle or not.  For the process
    that owns the lower half of the box of labels [0] and [1], the list
    is [-2; 0]. *)
Theorem list_of_labels_spec :
  (forall d : Domain,
     StronglySorted Z.lt (list_of_labels d) /\
     forall l,
       In l (list_of_labels d) <->
       In l (dom_box_label d) \/
       exists e, In e (list_elem (geom d)) /\ In l (label e)) /\
  (Domain_init (box1d 0 1 []) stencil_pm1 (1 # 4) lower_half = Ok half_domain /\
   dom_box_label half_domain = [0; -2] /\
   list_of_labels half_domain = [-2; 0]).
Proof.
  split.
  - intros d. unfold list_of_labels, np_union1d.
    split; [apply np_unique_sorted|].
    intros l. rewrite np_unique_In, in_app_iff, np_unique_In.
    unfold list_of_elements_labels. rewrite in_flat_map. tauto.
  - split; [apply get_ok; vm_compute; reflexivity|].
    split; vm_compute; reflexivity.
Qed.

(** ** The layout built by [create_coords] *)

Lemma collect_map_seq {A : Type} (f : nat -> result A) (d : A) :
  forall (n s : nat) (l : list A),
    collect (map f (seq s n)) = Ok l ->
    length l = n /\ forall k, (k < n)%nat -> f (s + k)%nat = Ok (nth k l d).
Proof.
  induction n as [|n IH]; intros s l H; simpl in H.
  - inversion H; subst. split; [reflexivity|]. intros k Hk. lia.
  - apply bind_ok in H. destruct H as (a & Ha & H).
    apply bind_ok in H. destruct H as (t & Ht & H). inversion H; subst l.
    destruct (IH (S s) t Ht) as [Hlen Hnth]. split; [simpl; congruence|].
    intros [|k] Hk; simpl.
    + rewrite Nat.add_0_r. exact Ha.
    + rewrite <- Nat.add_succ_comm. apply Hnth. lia.
Qed.

Lemma norm_idx_range (n i : Z) : 0 <= n -> 0 <= norm_idx n i <= n.
Proof.
  unfold norm_idx. intros Hn. destruct (Z.ltb_spec i 0); lia.
Qed.

Lemma slice_list_length {A : Type} (l : list A) (a b : Z) :
  Z.of_nat (length (slice_list l a b)) = slice_len (Z.of_nat (length l)) a b.
Proof.
  unfold slice_list, slice_len, slice_lo.
  rewrite length_firstn, length_skipn.
  pose proof (norm_idx_range (Z.of_nat (length l)) a ltac:(lia)).
  pose proof (norm_idx_range (Z.of_nat (length l)) b ltac:(lia)).
  lia.
Qed.

Lemma linspace_length (a b : Q) (n : Z) (l : list Q) :
  linspace a b n = Ok l -> 0 <= n /\ Z.of_nat (length l) = n.
Proof.
  unfold linspace. destruct (Z.ltb_spec n 0) as [Hn|Hn]; [discriminate|].
  intros H. inversion H. unfold range. rewrite !length_map, length_seq. lia.
Qed.

(** What [create_coords] fixes, axis by axis: the halo array has the
    local block plus [vmax] nodes on each side, the interior array is the
    slice [vmax : -vmax] of it. *)
Lemma create_coords_spec (g : Geometry) (st : Stencil) (dx0 : Q)
    (get_region : Partitioner) (gs : list Q) (L : Layout) :
  create_coords g st dx0 get_region = Ok (gs, L) ->
  dim L = geom_dim g /\ stencil L = st /\ dx L = dx0 /\
  length (coords_halo L) = dim L /\ length (coords L) = dim L /\
  forall k, (k < dim L)%nat ->
    exists r h,
      nth_error (get_region gs) k = Some r /\
      nth_error (vmax st) k = Some h /\
      nth k (shape_halo L) 0 = (snd r - fst r) + 2 * h /\
      0 <= nth k (shape_halo L) 0 /\
      nth k (shape_in L) 0 = slice_len (nth k (shape_halo L) 0) h (- h).
Proof.
  unfold create_coords. intros H.
  apply bind_ok in H. destruct H as (gs' & Hgs & H).
  apply bind_ok in H. destruct H as (ch & Hch & H).
  apply bind_ok in H. destruct H as (c & Hc & H).
  inversion H; subst gs' L; clear H. simpl.
  destruct (collect_map_seq _ [] _ _ _ Hch) as [Lch Nch].
  destruct (collect_map_seq _ [] _ _ _ Hc) as [Lc Nc].
  repeat (split; [auto|]).
  intros k Hk. specialize (Nch k Hk). specialize (Nc k Hk). simpl in Nch, Nc.
  unfold axis_coords_halo in Nch.
  apply bind_ok in Nch. destruct Nch as (b & _ & Nch).
  apply bind_ok in Nch. destruct Nch as (r & Hr & Nch).
  apply bind_ok in Nch. destruct Nch as (h & Hh & Nch).
  apply linspace_length in Nch. destruct Nch as [Hnum Hlen].
  unfold lookup in Hr, Hh.
  destruct (nth_error (get_region gs) k) as [r'|] eqn:Er; [|discriminate].
  destruct (nth_error (vmax st) k) as [h'|] eqn:Eh; [|discriminate].
  inversion Hr; inversion Hh; subst r' h'.
  exists r, h. split; [reflexivity|]. split; [reflexivity|].
  unfold shape_halo, shape_in. simpl.
  assert (Hsh : nth k (map (fun c0 : list Q => Z.of_nat (length c0)) ch) 0
                = Z.of_nat (length (nth k ch []))).
  { change 0 with ((fun c0 : list Q => Z.of_nat (length c0)) []).
    apply map_nth. }
  assert (Hsi : nth k (map (fun c0 : list Q => Z.of_nat (length c0)) c) 0
                = Z.of_nat (length (nth k c []))).
  { change 0 with ((fun c0 : list Q => Z.of_nat (length c0)) []).
    apply map_nth. }
  rewrite Hsh, Hsi, Hlen. split; [reflexivity|]. split; [exact Hnum|].
  unfold lookup in Nc. rewrite Eh in Nc. simpl in Nc. injection Nc as Hck.
  rewrite <- Hck, slice_list_length, Hlen. reflexivity.
Qed.

Lemma create_coords_wf (g : Geometry) (st : Stencil) (dx0 : Q)
    (get_region : Partitioner) (gs : list Q) (L : Layout) :
  create_coords g st dx0 get_region = Ok (gs, L) ->
  stencil_wf (geom_dim g) st ->
  Forall (fun r => fst r <= snd r) (get_region gs) ->
  layout_wf L.
Proof.
  intros H Hst Hreg. apply create_coords_spec in H.
  destruct H as (Hdim & Hs & _ & Hch & Hc & Hax).
  unfold layout_wf. rewrite Hs, Hdim. repeat (split; [congruence|]).
  intros k Hk. rewrite <- Hdim in Hk. destruct (Hax k Hk) as (r & h & Hr & Hh & Hn & _ & Hin).
  rewrite (nth_error_nth _ _ 0 Hh). split; [|exact Hin].
  rewrite Hn. rewrite Forall_forall in Hreg.
  specialize (Hreg r (nth_error_In _ _ Hr)). lia.
Qed.

Lemma nth_map_seq {A : Type} (f : nat -> A) (d : A) (n k : nat) :
  (k < n)%nat -> nth k (map f (seq 0 n)) d = f k.
Proof.
  intros Hk. rewrite (nth_indep _ d (f 0%nat)) by (rewrite length_map, length_seq; exact Hk).
  rewrite map_nth, seq_nth by exact Hk. reflexivity.
Qed.

Lemma Forall2_nth_abs (v m : list Z) (d : nat) :
  Forall2 (fun c h => Z.abs c <= h) v m -> Z.abs (nth d v 0) <= nth d m 0.
Proof.
  intros H. revert d. induction H as [|c h v m Hc _ IH]; intros [|d]; simpl;
    try lia; auto.
Qed.

Lemma stencil_wf_abs (n : nat) (st : Stencil) (v : list Z) (d : nat) :
  stencil_wf n st -> In v (unique_velocities st) ->
  Z.abs (nth d v 0) <= nth d (vmax st) 0.
Proof.
  intros [_ H] Hv. rewrite Forall_forall in H.
  destruct (H v Hv) as [_ H2]. apply Forall2_nth_abs. exact H2.
Qed.

(** The view of an obstacle moved by a velocity of the stencil stays in
    the allocated arrays. *)
Lemma moved_bounds (L : Layout) (e : Element) (bl : list Q) (vk : list Z)
    (d : nat) :
  layout_wf L -> In vk (unique_velocities (stencil L)) -> (d < dim L)%nat ->
  0 <= nth d (elem_nmin L e bl) 0 + nth d vk 0 /\
  nth d (elem_nmax L e bl) 0 + nth d vk 0 <= nth d (shape_halo L) 0.
Proof.
  intros (Hst & _ & _ & Hax) Hv Hd.
  pose proof (stencil_wf_abs _ _ vk d Hst Hv) as Habs.
  destruct (Hax d Hd) as [Hn Hin].
  unfold elem_nmin, elem_nmax. rewrite !nth_map_seq by exact Hd.
  rewrite Hin. unfold slice_len, norm_idx.
  set (h := nth d (vmax (stencil L)) 0) in *.
  set (n := nth d (shape_halo L) 0) in *.
  destruct (Z.ltb_spec h 0); destruct (Z.ltb_spec (- h) 0); lia.
Qed.


Lemma in_range (n i : Z) : In i (range n) -> 0 <= i < n.
Proof.
  unfold range. intros H. apply in_map_iff in H. destruct H as (k & <- & Hk).
  apply in_seq in Hk. lia.
Qed.

Lemma py_index_ok (m i : Z) : - m <= i < m -> exists r, py_index m i = Ok r.
Proof.
  unfold py_index. intros Hi.
  destruct (Z.leb_spec 0 i); destruct (Z.ltb_spec i m); simpl; eauto; try lia.
  destruct (Z.ltb_spec i 0); destruct (Z.leb_spec (- m) i); simpl; eauto; lia.
Qed.

Lemma stamp_total (L : Layout) (a k : nat) (i m : Z) (dvik : Q) (lab : Z)
    (A : Arrays) :
  nth_error (win_shape (interior L)) a = Some m -> - m <= i < m ->
  exists A', stamp L a k i dvik lab A = Ok A'.
Proof.
  intros Hm Hi. unfold stamp, lookup. rewrite Hm. simpl.
  destruct (py_index_ok m i Hi) as [r ->]. simpl. eauto.
Qed.

Lemma mk_window_nth :
  forall (shape : list Z) (sl : list (Z * Z)) (a : nat) (n : Z) (s : Z * Z),
    nth_error shape a = Some n -> nth_error sl a = Some s ->
    nth_error (mk_window shape sl) a
    = Some (slice_lo n (fst s), slice_len n (fst s) (snd s)).
Proof.
  induction shape as [|n0 shape IH]; intros [|s0 sl] [|a] n s Hn Hs;
    simpl in *; try discriminate.
  - inversion Hn; inversion Hs; subst. reflexivity.
  - apply IH; assumption.
Qed.

(** The interior view has, along every axis, the size of the interior
    coordinate array. *)
Lemma interior_nth (L : Layout) (a : nat) :
  layout_wf L -> (a < dim L)%nat ->
  nth_error (win_shape (interior L)) a = Some (nth a (shape_in L) 0).
Proof.
  intros ((Hvm & _) & Hch & _ & Hax) Ha.
  assert (H1 : nth_error (shape_halo L) a = Some (nth a (shape_halo L) 0)).
  { apply nth_error_nth'. unfold shape_halo. rewrite length_map. lia. }
  assert (H2 : nth_error (map (fun h => (h, - h)) (vmax (stencil L))) a
               = Some (nth a (vmax (stencil L)) 0, - nth a (vmax (stencil L)) 0)).
  { rewrite nth_error_map, (nth_error_nth' _ 0) by lia. reflexivity. }
  unfold win_shape, interior. rewrite nth_error_map.
  rewrite (mk_window_nth _ _ _ _ _ H1 H2). simpl.
  destruct (Hax a Ha) as [_ ->]. reflexivity.
Qed.

(** One axis of the view of an obstacle and of the view moved by a
    velocity: the two lengths are equal unless one is zero, which takes
    a negative bound of slice; when [nmax] is at least [vmax] no bound
    is negative and the moved view is the view translated. *)
Lemma moved_axis_lengths (n h v nmin nmax : Z) :
  0 <= h -> 2 * h <= n -> Z.abs v <= h -> h <= nmin ->
  nmax <= h + slice_len n h (- h) ->
  (slice_len n nmin nmax = slice_len n (nmin + v) (nmax + v) \/
   slice_len n nmin nmax = 0 \/
   slice_len n (nmin + v) (nmax + v) = 0) /\
  (h <= nmax ->
   slice_len n nmin nmax = slice_len n (nmin + v) (nmax + v) /\
   (0 < slice_len n nmin nmax -> slice_lo n (nmin + v) = slice_lo n nmin + v)).
Proof.
  unfold slice_len, slice_lo, norm_idx. intros.
  destruct (Z.ltb_spec h 0); destruct (Z.ltb_spec (- h) 0);
  destruct (Z.ltb_spec nmin 0); destruct (Z.ltb_spec nmax 0);
  destruct (Z.ltb_spec (nmin + v) 0); destruct (Z.ltb_spec (nmax + v) 0); lia.
Qed.

Lemma nth_error_combine {A B : Type} :
  forall (l : list A) (l' : list B) (d : nat) (a : A) (b : B),
    nth_error l d = Some a -> nth_error l' d = Some b ->
    nth_error (combine l l') d = Some (a, b).
Proof.
  induction l as [|a0 l IH]; intros [|b0 l'] [|d] a b Ha Hb; simpl in *;
    try discriminate.
  - inversion Ha; inversion Hb; reflexivity.
  - apply IH; assumption.
Qed.

Lemma nth_error_map_seq {A : Type} (f : nat -> A) (n d : nat) :
  (d < n)%nat -> nth_error (map f (seq 0 n)) d = Some (f d).
Proof.
  intros Hd. rewrite nth_error_map, nth_error_seq.
  apply Nat.ltb_lt in Hd. rewrite Hd. reflexivity.
Qed.

(** The same, for the axis [d] of the two windows of [__add_elem]. *)
Lemma moved_window_axis (L : Layout) (e : Element) (bl : list Q)
    (vk : list Z) (d : nat) :
  layout_wf L -> In vk (unique_velocities (stencil L)) -> (d < dim L)%nat ->
  (forall k, (k < dim L)%nat -> 0 <= nth k (vmax (stencil L)) 0) ->
  exists lo a lo' b,
    nth_error (elem_view L e bl) d = Some (lo, a) /\
    nth_error (elem_moved L e bl vk) d = Some (lo', b) /\
    (a = b \/ a = 0 \/ b = 0) /\
    (nth d (vmax (stencil L)) 0 <= nth d (elem_nmax L e bl) 0 ->
     a = b /\ (0 < a -> lo' = lo + nth d vk 0)).
Proof.
  intros (Hst & Hch & _ & Hax) Hv Hd Hpos.
  pose proof (stencil_wf_abs _ _ vk d Hst Hv) as Habs.
  destruct (Hax d Hd) as [Hn Hin].
  set (n := nth d (shape_halo L) 0) in *.
  set (h := nth d (vmax (stencil L)) 0) in *.
  assert (H1 : nth_error (shape_halo L) d = Some n).
  { apply nth_error_nth'. unfold shape_halo. rewrite length_map. lia. }
  assert (Hmin : nth_error (elem_nmin L e bl) d = Some (nth d (elem_nmin L e bl) 0)).
  { apply nth_error_nth'. unfold elem_nmin. rewrite length_map, length_seq. exact Hd. }
  assert (Hmax : nth_error (elem_nmax L e bl) d = Some (nth d (elem_nmax L e bl) 0)).
  { apply nth_error_nth'. unfold elem_nmax. rewrite length_map, length_seq. exact Hd. }
  pose proof (nth_error_combine _ _ _ _ _ Hmin Hmax) as Hc.
  assert (Hseq : nth_error (seq 0 (dim L)) d = Some d).
  { rewrite nth_error_seq. apply Nat.ltb_lt in Hd. rewrite Hd. reflexivity. }
  pose proof (nth_error_combine _ _ _ _ _ Hc Hseq) as Hc'.
  set (nmin := nth d (elem_nmin L e bl) 0) in *.
  set (nmax := nth d (elem_nmax L e bl) 0) in *.
  exists (slice_lo n nmin), (slice_len n nmin nmax),
         (slice_lo n (nmin + nth d vk 0)),
         (slice_len n (nmin + nth d vk 0) (nmax + nth d vk 0)).
  split.
  { unfold elem_view, elem_window. apply (mk_window_nth _ _ _ _ _ H1 Hc). }
  split.
  { unfold elem_moved, moved_window.
    apply (mk_window_nth _ _ d n (nmin + nth d vk 0, nmax + nth d vk 0) H1).
    rewrite nth_error_map, Hc'. reflexivity. }
  apply moved_axis_lengths.
  - apply Hpos. exact Hd.
  - exact Hn.
  - exact Habs.
  - subst nmin. unfold elem_nmin. rewrite nth_map_seq by exact Hd. fold h. lia.
  - subst nmax. unfold elem_nmax. rewrite nth_map_seq by exact Hd. fold h.
    rewrite <- Hin. lia.
Qed.

Lemma stamp_velocity_total (L : Layout) (lab : list Z) (a k : nat) (vk m : Z)
    (A : Arrays) :
  nth_error (win_shape (interior L)) a = Some m ->
  Z.abs vk <= m -> (2 * a + 1 < length lab)%nat ->
  exists A', stamp_velocity L lab a k vk A = Ok A'.
Proof.
  intros Hm Hv Hlab. unfold stamp_velocity.
  assert (Hloop : forall (n : Z) (body : Z -> Z) (frac : Z -> Q) (lb : Z),
             (forall i, 0 <= i < n -> - m <= body i < m) ->
             exists A', for_each (range n)
                          (fun i => stamp L a k (body i) (frac i) lb) A = Ok A').
  { intros n body frac lb Hb.
    destruct (for_each_ok (fun _ => True)
                (fun i => stamp L a k (body i) (frac i) lb) (range n) A)
      as (A' & HA' & _); [|exact I|eauto].
    intros i t Hi _. apply in_range in Hi.
    destruct (stamp_total L a k (body i) m (frac i) lb t Hm (Hb i Hi)) as [t' Ht'].
    eauto. }
  destruct (Z.ltb_spec vk 0).
  - unfold lookup. destruct (nth_error lab (2 * a)) as [l|] eqn:El.
    + simpl. destruct (negb (l =? interface)); [|eauto].
      apply Hloop. intros i Hi. lia.
    + apply nth_error_None in El. lia.
  - destruct (Z.ltb_spec 0 vk); [|eauto].
    unfold lookup. destruct (nth_error lab (2 * a + 1)) as [l|] eqn:El.
    + simpl. destruct (negb (l =? interface)); [|eauto].
      apply Hloop. intros i Hi. lia.
    + apply nth_error_None in El. lia.
Qed.

(** With at least [vmax] interior nodes along every axis and a label for
    every face, the stamping of the box indexes inside its view. *)
Lemma add_init_total (L : Layout) (lab : list Z) (A : Arrays) :
  layout_wf L ->
  (forall k, (k < dim L)%nat ->
             nth k (vmax (stencil L)) 0 <= nth k (shape_in L) 0) ->
  (2 * dim L <= length lab)%nat ->
  exists A', add_init L lab A = Ok A'.
Proof.
  intros Hwf Hwide Hlab. unfold add_init.
  destruct (for_each_ok (fun _ => True) (stamp_axis L lab)
              (seq 0 (Nat.min (dim L) 3)) (init_in_or_out L A))
    as (A' & HA' & _); [|exact I|eauto].
  intros a t Ha _. apply in_seq in Ha.
  assert (Had : (a < dim L)%nat) by lia.
  unfold stamp_axis.
  destruct (for_each_ok (fun _ => True)
              (fun kv => stamp_velocity L lab a (fst kv) (snd kv))
              (enumerate (uvel (stencil L) a)) t)
    as (t' & Ht' & _); [|exact I|eauto].
  intros [k vk] u Hkv _. simpl.
  apply in_combine_r in Hkv. unfold uvel in Hkv. apply in_map_iff in Hkv.
  destruct Hkv as (v & <- & Hv).
  destruct Hwf as (Hst & Hrest).
  pose proof (stencil_wf_abs _ _ v a Hst Hv) as Habs.
  destruct (stamp_velocity_total L lab a k (nth a v 0) (nth a (shape_in L) 0) u)
    as [u' Hu'].
  - apply interior_nth; [exact (conj Hst Hrest) | exact Had].
  - specialize (Hwide a Had). lia.
  - lia.
  - eauto.
Qed.

(** C7, as the code has it.  For the layout built by [create_coords]:
    the halo-inclusive array has [vmax] more nodes than the local block on
    each side of every axis, the interior view starting at [vmax]; the
    view of any obstacle moved by any unique velocity starts at or after
    the first node and stops at or before the last one, its stop bound
    being non-negative where [nmax] is at least [vmax]; and the stamping
    of the box indexes inside the interior view when every axis has at
    least [vmax] interior nodes and every face has a label. *)
Theorem halo_width_and_bounds (g : Geometry) (st : Stencil) (dx0 : Q)
    (get_region : Partitioner) (gs : list Q) (L : Layout) :
  create_coords g st dx0 get_region = Ok (gs, L) ->
  stencil_wf (geom_dim g) st ->
  Forall (fun r => fst r <= snd r) (get_region gs) ->
  (forall k, (k < dim L)%nat ->
     exists r h,
       nth_error (get_region gs) k = Some r /\
       nth_error (vmax st) k = Some h /\
       nth k (shape_halo L) 0 = (snd r - fst r) + 2 * h /\
       (0 < h -> nth_error (interior L) k = Some (h, snd r - fst r))) /\
  (forall e bl vk d,
     In vk (unique_velocities st) -> (d < dim L)%nat ->
     0 <= nth d (elem_nmin L e bl) 0 + nth d vk 0 /\
     nth d (elem_nmax L e bl) 0 + nth d vk 0 <= nth d (shape_halo L) 0 /\
     (nth d (vmax st) 0 <= nth d (elem_nmax L e bl) 0 ->
      0 <= nth d (elem_nmax L e bl) 0 + nth d vk 0)) /\
  (forall lab A,
     (forall k, (k < dim L)%nat -> nth k (vmax st) 0 <= nth k (shape_in L) 0) ->
     (2 * dim L <= length lab)%nat ->
     exists A', add_init L lab A = Ok A').
Proof.
  intros H Hst Hreg.
  pose proof (create_coords_wf _ _ _ _ _ _ H Hst Hreg) as Hwf.
  pose proof (create_coords_spec _ _ _ _ _ _ H) as (Hdim & Hs & _ & Hch & _ & Hax).
  split; [|split].
  - intros k Hk. destruct (Hax k Hk) as (r & h & Hr & Hh & Hn & Hpos & _).
    exists r, h. split; [exact Hr|]. split; [exact Hh|]. split; [exact Hn|].
    intros Hh0.
    assert (H1 : nth_error (shape_halo L) k = Some (nth k (shape_halo L) 0)).
    { apply nth_error_nth'. unfold shape_halo. rewrite length_map. lia. }
    assert (H2 : nth_error (map (fun h => (h, - h)) (vmax (stencil L))) k
                 = Some (h, - h)).
    { rewrite nth_error_map, Hs, Hh. reflexivity. }
    unfold interior. rewrite (mk_window_nth _ _ _ _ _ H1 H2). simpl.
    rewrite Forall_forall in Hreg.
    specialize (Hreg r (nth_error_In _ _ Hr)).
    rewrite Hn. unfold slice_lo, slice_len, norm_idx.
    destruct (Z.ltb_spec h 0); [lia|]. destruct (Z.ltb_spec (- h) 0); [|lia].
    f_equal. f_equal; lia.
  - intros e bl vk d Hv Hd.
    assert (Hv' : In vk (unique_velocities (stencil L))) by (rewrite Hs; exact Hv).
    destruct (moved_bounds L e bl vk d Hwf Hv' Hd) as [Hlo Hhi].
    split; [exact Hlo|]. split; [exact Hhi|]. intros Hmax.
    pose proof (stencil_wf_abs _ _ vk d Hst Hv) as Habs. lia.
  - intros lab A Hwide Hlab. apply add_init_total; [exact Hwf| |exact Hlab].
    rewrite Hs. exact Hwide.
Qed.

(** ** The frame of a fold *)

(** Folding an obstacle writes only inside the view computed for it. *)
Lemma add_elem_frame (L : Layout) (e : Element) (A A' : Arrays) :
  add_elem L e A = Ok A' ->
  exists bl,
    get_bounds_halo_bl L = Ok bl /\
    forall x, in_window (elem_view L e bl) x = false ->
      in_or_out A' x = in_or_out A x /\
      forall k, distance A' k x = distance A k x /\ flag A' k x = flag A k x.
Proof.
  intros H. apply add_elem_spec in H. destruct H as (bl & Hbl & Hio & Hrows).
  exists bl. split; [exact Hbl|]. intros x Hx. split.
  - rewrite Hio. unfold classify. rewrite Hx. simpl.
    destruct (isfluid e); reflexivity.
  - intros k. specialize (Hrows k x).
    destruct (nth_error (unique_velocities (stencil L)) k) as [vk|]; [|exact Hrows].
    simpl in Hrows. destruct (any_nonzero vk); [|exact Hrows].
    destruct Hrows as (_ & Hd & Hf). rewrite Hd, Hf.
    unfold row_dist, row_flag, ind_merge, reset_dist, reset_flag.
    rewrite Hx. simpl. auto.
Qed.

(** The box of length one with the space step [1/4] and the velocities
    [+1] and [-1], whatever the two labels of its ends. *)
Lemma box1d_stamped (l0 l1 : Z) :
  l0 <> interface -> l1 <> interface ->
  exists d,
    Domain_init (box1d l0 l1 []) stencil_pm1 (1 # 4) whole_grid = Ok d /\
    shape_halo (layout d) = [6] /\
    (distance (arrays d) 1 [1] = (1 # 2)%Q /\ flag (arrays d) 1 [1] = l0) /\
    (distance (arrays d) 0 [4] = (1 # 2)%Q /\ flag (arrays d) 0 [4] = l1) /\
    (forall k i, (k < 2)%nat -> 2 <= i <= 3 ->
       distance (arrays d) k [i] = valinQ /\ flag (arrays d) k [i] = valin) /\
    (forall i, 1 <= i <= 4 -> in_or_out (arrays d) [i] = valin).
Proof.
  intros H0 H1. apply Z.eqb_neq in H0, H1.
  unfold Domain_init.
  set (cc := create_coords _ _ _ _). vm_compute in cc. subst cc.
  cbn [bind fst snd].
  set (lab := relabel _ _ _ _). vm_compute in lab. subst lab.
  cbn [bind].
  unfold add_init, stamp_axis, stamp_velocity.
  cbn -[Z.eqb interface stamp]. rewrite H0, H1. cbn -[stamp].
  eexists. split; [reflexivity|].
  split; [reflexivity|]. split; [split; reflexivity|].
  split; [split; reflexivity|]. split.
  - intros k i Hk Hi.
    assert (Hcases : i = 2 \/ i = 3) by lia.
    destruct k as [|[|k]]; [| |lia];
      destruct Hcases as [-> | ->]; split; reflexivity.
  - intros i Hi.
    assert (Hcases : i = 1 \/ i = 2 \/ i = 3 \/ i = 4) by lia.
    destruct Hcases as [-> | [-> | [-> | ->]]]; reflexivity.
Qed.

(** C3.  The stamping of the box, for an axis [a]: the classification is
    kept and, for every unique velocity [k] of component [vk] on that
    axis, nothing is written when [vk] is zero or the label of the face
    ahead is the interface sentinel; otherwise the crossing
    [(i + 1/2) / |vk|] and the label of the face are written at the
    interior nodes [i] rows from the face, [i] in [0, |vk|), whose stored
    distance is strictly greater than the crossing, and nowhere else.
    In one dimension, where the source writes the row without looking at
    it, the rows hold no distance below one when the pass starts, as
    those of the arrays just allocated do.
    And the box of length one, space step [1/4], velocities [+1] and
    [-1]: the node next to each end holds [1/2] and the label of that
    end, the nodes two steps or more from the ends hold the
    IN-sentinel. *)
Theorem box_stamping :
  (forall (L : Layout) (lab : list Z) (a : nat) (A A' : Arrays),
     stamp_axis L lab a A = Ok A' ->
     (dim L = 1%nat -> forall k y, (1 <= distance A k y)%Q) ->
     in_or_out A' = in_or_out A /\
     forall k,
       match nth_error (uvel (stencil L) a) k with
       | Some vk => pass_spec L lab a k vk A A'
       | None => rows_kept k A A'
       end) /\
  (forall l0 l1 : Z,
     l0 <> interface -> l1 <> interface ->
     exists d,
       Domain_init (box1d l0 l1 []) stencil_pm1 (1 # 4) whole_grid = Ok d /\
       shape_halo (layout d) = [6] /\
       (distance (arrays d) 1 [1] = (1 # 2)%Q /\ flag (arrays d) 1 [1] = l0) /\
       (distance (arrays d) 0 [4] = (1 # 2)%Q /\ flag (arrays d) 0 [4] = l1) /\
       (forall k i, (k < 2)%nat -> 2 <= i <= 3 ->
          distance (arrays d) k [i] = valinQ /\ flag (arrays d) k [i] = valin) /\
       (forall i, 1 <= i <= 4 -> in_or_out (arrays d) [i] = valin)).
Proof.
  split.
  - intros L lab a A A'. apply stamp_axis_spec.
  - apply box1d_stamped.
Qed.

(** ** The theorems at work on the worked configurations *)

Lemma layout1d_bounds : get_bounds_halo_bl layout1d = Ok halo_bl1d.
Proof. by_computation. Qed.

Lemma fold1d_ok (e : Element) (A : Arrays) :
  is_ok (add_elem layout1d e A) = true ->
  add_elem layout1d e A = Ok (fold1d e A).
Proof.
  unfold fold1d. destruct (add_elem layout1d e A); [reflexivity|discriminate].
Defined.

(** The solid segment [[11/20, 9/10]]: the node [2] reaches it along the
    velocity [+1] and takes its crossing and its label. *)
Lemma solid_fold_merge_witness :
  distance (fold1d seg_in_a stamped1d) 0 [2] = alpha layout1d seg_in_a [1] [2] /\
  flag (fold1d seg_in_a stamped1d) 0 [2] = 5.
Proof.
  destruct (solid_fold_merge layout1d seg_in_a stamped1d
              (fold1d seg_in_a stamped1d) eq_refl
              (fold1d_ok seg_in_a stamped1d eq_refl)) as (bl & Hbl & Hall).
  rewrite layout1d_bounds in Hbl. injection Hbl as <-.
  destruct (Hall 0%nat [1] [2] eq_refl eq_refl eq_refl) as [_ Hcand].
  destruct Hcand as (Hlt & _ & _); [by_computation .. |].
  destruct Hlt as [Hd Hf]; [by_computation|].
  split; [exact Hd | rewrite Hf; by_computation].
Defined.

(** The fluid segment [[1/2, 7/10]] punched in the solid one: the node
    [3] becomes IN and records its crossing, the node [2] is reset. *)
Lemma fluid_fold_merge_witness :
  in_or_out (fold1d seg_fluid_in (fold1d seg_in_a stamped1d)) [3] = valin /\
  distance (fold1d seg_fluid_in (fold1d seg_in_a stamped1d)) 0 [2] = valinQ /\
  distance (fold1d seg_fluid_in (fold1d seg_in_a stamped1d)) 0 [3]
  = alpha layout1d seg_fluid_in [1] [3].
Proof.
  destruct (fluid_fold_merge layout1d seg_fluid_in (fold1d seg_in_a stamped1d)
              (fold1d seg_fluid_in (fold1d seg_in_a stamped1d)) eq_refl
              (fold1d_ok seg_fluid_in (fold1d seg_in_a stamped1d) eq_refl))
    as (bl & Hbl & Hin & Hall).
  rewrite layout1d_bounds in Hbl. injection Hbl as <-.
  split; [apply Hin; by_computation|]. split.
  - destruct (Hall 0%nat [1] [2] eq_refl eq_refl eq_refl) as [Hreset _].
    destruct Hreset as [Hd _]; [by_computation | vm_compute; discriminate | exact Hd].
  - destruct (Hall 0%nat [1] [3] eq_refl eq_refl eq_refl) as [_ Hcand].
    destruct Hcand as (Hyes & _); [by_computation .. |].
    destruct Hyes as [Hd _]; [right; by_computation | exact Hd].
Defined.

(** The solid segment folded twice. *)
Lemma solid_fold_idempotent_witness :
  exists A2,
    add_elem layout1d seg_in_a (fold1d seg_in_a stamped1d) = Ok A2 /\
    arrays_eq A2 (fold1d seg_in_a stamped1d).
Proof.
  apply (solid_fold_idempotent layout1d seg_in_a stamped1d);
    [reflexivity | apply fold1d_ok; reflexivity].
Defined.

(** The two nested solid segments, in both orders, seen from the node
    [2] along the velocity [+1]. *)
Lemma solid_folds_min_witness :
  exists Aab Aba,
    add_elem layout1d seg_in_b (fold1d seg_in_a stamped1d) = Ok Aab /\
    add_elem layout1d seg_in_a (fold1d seg_in_b stamped1d) = Ok Aba /\
    flag Aab 0 [2] = 5 /\ flag Aba 0 [2] = 5.
Proof.
  destruct (solid_folds_min layout1d seg_in_a seg_in_b stamped1d
              (fold1d seg_in_a stamped1d) (fold1d seg_in_b stamped1d)
              halo_bl1d 0%nat [1] [2]
              eq_refl eq_refl layout1d_bounds
              (fold1d_ok seg_in_a stamped1d eq_refl)
              (fold1d_ok seg_in_b stamped1d eq_refl)
              eq_refl eq_refl)
    as (Aab & Aba & Hab & Hba & _ & _ & Hfa & _ & _).
  - repeat split; by_computation.
  - repeat split; by_computation.
  - exists Aab, Aba. split; [exact Hab|]. split; [exact Hba|].
    destruct Hfa as [F1 F2]; [by_computation | by_computation |].
    rewrite F1, F2. split; by_computation.
Defined.

(** Two solid segments beyond the lower end of the box, seen from the
    node next to that end along the velocity [-1]: the crossing of the
    face of the box, stamped before, is closer than both. *)
Lemma solid_folds_not_min_of_two :
  let Aa := fold1d seg_low_a stamped1d in
  let Ab := fold1d seg_low_b stamped1d in
  let Aab := fold1d seg_low_b Aa in
  let Aba := fold1d seg_low_a Ab in
  let bl := halo_bl1d in
  add_elem layout1d seg_low_a stamped1d = Ok Aa /\
  add_elem layout1d seg_low_b Aa = Ok Aab /\
  add_elem layout1d seg_low_b stamped1d = Ok Ab /\
  add_elem layout1d seg_low_a Ab = Ok Aba /\
  reachable layout1d seg_low_a bl [-1] (in_or_out Aa) [1] /\
  reachable layout1d seg_low_b bl [-1] (in_or_out Ab) [1] /\
  Qeq (alpha layout1d seg_low_a [-1] [1]) (7 # 10) /\
  Qeq (alpha layout1d seg_low_b [-1] [1]) (9 # 10) /\
  distance Aab 1 [1] = (1 # 2)%Q /\
  distance Aba 1 [1] = (1 # 2)%Q /\
  ~ Qeq (distance Aab 1 [1])
        (Qmin (alpha layout1d seg_low_a [-1] [1])
              (alpha layout1d seg_low_b [-1] [1])).
Proof.
  cbv zeta. repeat split; try by_computation.
  vm_compute. discriminate.
Qed.

Lemma stencil_pm1_wf : stencil_wf 1 stencil_pm1.
Proof.
  split; [reflexivity|]. repeat constructor; simpl; lia.
Defined.

Lemma stencil_pm2_wf : stencil_wf 1 stencil_pm2.
Proof.
  split; [reflexivity|]. repeat constructor; simpl; lia.
Defined.

Lemma quarter_divides (hi : Q) (z : Z) :
  Qeq ((hi - 0) / (1 # 4)) (inject_Z z) -> is_multiple (1 # 4) (0%Q, hi).
Proof.
  intros H. split; [discriminate|]. exists z. exact H.
Defined.

(** The box stamped alone: the axis pass starts from rows that hold the
    IN-sentinel, and the construction gives the node next to the lower
    end the label of that end. *)
Lemma box_stamping_witness :
  in_or_out stamped1d = in_or_out (init_in_or_out layout1d fresh_arrays) /\
  exists d,
    Domain_init (box1d 0 1 []) stencil_pm1 (1 # 4) whole_grid = Ok d /\
    flag (arrays d) 1 [1] = 0.
Proof.
  destruct box_stamping as [Haxis Hbox]. split.
  - destruct (Haxis layout1d [0; 1] 0%nat
                (init_in_or_out layout1d fresh_arrays) stamped1d) as [Hio _].
    + by_computation.
    + intros _ k y. vm_compute. discriminate.
    + exact Hio.
  - destruct (Hbox 0 1) as (d & Hd & _ & [_ Hf] & _);
      [discriminate | discriminate |].
    exists d. split; [exact Hd | exact Hf].
Defined.

(** C6, at boxes whose length is a multiple of the space step.  The
    test of [create_coords] is made on the quotient as binary64 computes
    it: the construction ends in [sys.exit()], before any array is
    allocated and with no domain returned, exactly when that quotient
    is not an integer on some axis.  The box [[0, 7/10]] is seven space
    steps of [1/10] long, but the doubles nearest to [7/10] and [1/10]
    have the quotient [6.999999999999999]
    ([7881299347898367 * 2^-50]), and the construction exits; so it
    does for the box [[0, 3/10]], three steps long, whose quotient is
    [2.9999999999999996].  The box [[0, 1]] is built for the space step
    [1/4] and refused for the space step [3/10], as it should. *)
Theorem multiple_of_step_rejected :
  (forall g st dx get_region,
     (Exists (fun b => is_integer (float_ratio b dx) = false) (bounds g) ->
        create_coords g st dx get_region = Raise SystemExit /\
        Domain_init g st dx get_region = Raise SystemExit) /\
     (Forall (fun b => is_integer (float_ratio b dx) = true) (bounds g) ->
        create_coords g st dx get_region <> Raise SystemExit /\
        Domain_init g st dx get_region <> Raise SystemExit)) /\
  (is_multiple (1 # 10) (0%Q, (7 # 10)%Q) /\
   float_ratio (0%Q, (7 # 10)%Q) (1 # 10)
   = S754_finite false 7881299347898367 (-50) /\
   is_integer (float_ratio (0%Q, (7 # 10)%Q) (1 # 10)) = false /\
   Domain_init (box_upto (7 # 10)) stencil_pm1 (1 # 10) whole_grid
   = Raise SystemExit) /\
  (is_multiple (1 # 10) (0%Q, (3 # 10)%Q) /\
   float_ratio (0%Q, (3 # 10)%Q) (1 # 10)
   = S754_finite false 6755399441055743 (-51) /\
   is_integer (float_ratio (0%Q, (3 # 10)%Q) (1 # 10)) = false /\
   Domain_init (box_upto (3 # 10)) stencil_pm1 (1 # 10) whole_grid
   = Raise SystemExit) /\
  (is_multiple (1 # 4) (0%Q, 1%Q) /\
   is_ok (Domain_init (box_upto 1) stencil_pm1 (1 # 4) whole_grid) = true) /\
  (~ is_multiple (3 # 10) (0%Q, 1%Q) /\
   Domain_init (box_upto 1) stencil_pm1 (3 # 10) whole_grid = Raise SystemExit).
Proof.
  split.
  { intros g st dx get_region. split.
    - apply create_coords_exit.
    - apply create_coords_no_exit. }
  split.
  { split; [split; [discriminate | exists 7; reflexivity]|].
    repeat split; by_computation. }
  split.
  { split; [split; [discriminate | exists 3; reflexivity]|].
    repeat split; by_computation. }
  split.
  { split; [apply (quarter_divides 1 4); reflexivity | by_computation]. }
  split; [|by_computation].
  intros [_ [z Hz]]. unfold Qeq in Hz. simpl in Hz. lia.
Qed.

(** The halo nodes of the box stamped alone. *)
Lemma halo_after_stamping_witness :
  in_or_out stamped1d [0] = valout /\
  (forall k, distance stamped1d k [0] = valinQ /\ flag stamped1d k [0] = valin) /\
  in_or_out stamped1d [2] = valin.
Proof.
  assert (H : add_init layout1d [0; 1] fresh_arrays = Ok stamped1d)
    by by_computation.
  destruct (halo_after_stamping layout1d [0; 1] stamped1d H [0]) as [Hout _].
  destruct (halo_after_stamping layout1d [0; 1] stamped1d H [2]) as [_ Hin].
  destruct Hout as [Ho Hk]; [by_computation|].
  split; [exact Ho|]. split; [exact Hk|]. apply Hin. by_computation.
Defined.

(** The layout of the box of four cells. *)
Lemma halo_width_and_bounds_witness :
  exists A', add_init layout1d [0; 1] fresh_arrays = Ok A'.
Proof.
  destruct (halo_width_and_bounds (box1d 0 1 []) stencil_pm1 (1 # 4) whole_grid
              [4%Q] layout1d) as (_ & _ & Htotal).
  - by_computation.
  - exact stencil_pm1_wf.
  - constructor; [cbv; discriminate | constructor].
  - apply Htotal.
    + intros [|k] Hk; [vm_compute; discriminate|].
      change (dim layout1d) with 1%nat in Hk. lia.
    + change (dim layout1d) with 1%nat. simpl. lia.
Defined.

(** A box of one cell under the velocities [+2] and [-2]: the second row
    of the stamping is not in the interior view. *)
Lemma narrow_box_index_error :
  stencil_wf (geom_dim narrow_box) stencil_pm2 /\
  Forall (is_multiple (1 # 4)) (bounds narrow_box) /\
  Domain_init narrow_box stencil_pm2 (1 # 4) whole_grid = Raise IndexError.
Proof.
  split; [exact stencil_pm2_wf|]. split.
  - constructor; [|constructor]. apply (quarter_divides (1 # 4) 1). reflexivity.
  - by_computation.
Qed.

(** A solid segment beyond the upper end of the box: its label is in the
    list, no ray of the grid records it.  And the process that owns the
    lower half of the box with no obstacle: the interface sentinel is in
    the list, the label of the upper end is not. *)
Lemma unreached_label_listed :
  (Domain_init (box1d 0 1 []) stencil_pm1 (1 # 4) lower_half = Ok half_domain /\
   In interface (list_of_labels half_domain) /\
   ~ In interface (box_label (box1d 0 1 []))) /\
  Domain_init (box1d 0 1 [seg_far]) stencil_pm1 (1 # 4) whole_grid
  = Ok far_domain /\
  In 5 (list_of_labels far_domain) /\
  ~ In 5 (dom_box_label far_domain) /\
  ~ label_reached far_domain 5.
Proof.
  split.
  { split; [apply get_ok; by_computation|].
    split; [vm_compute; tauto|]. vm_compute. intuition discriminate. }
  split; [apply get_ok; by_computation|].
  split; [vm_compute; tauto|]. split.
  - vm_compute. intuition discriminate.
  - intros (k & x & Hk & Hx & Hf).
    change (unvtot (stencil (layout far_domain))) with 2%nat in Hk.
    change (layout far_domain) with layout1d in Hx.
    unfold in_halo in Hx. change (shape_halo layout1d) with [6] in Hx.
    destruct x as [|i [|j x]]; cbn in Hx;
      [discriminate Hx | | rewrite andb_false_r in Hx; discriminate Hx].
    assert (Hi : 0 <= i < 6).
    { rewrite andb_true_r in Hx.
      apply andb_prop in Hx. destruct Hx as [H1 H2].
      apply Z.leb_le in H1. apply Z.ltb_lt in H2. lia. }
    assert (Hcases : i = 0 \/ i = 1 \/ i = 2 \/ i = 3 \/ i = 4 \/ i = 5) by lia.
    destruct k as [|[|k]]; [| |lia];
      destruct Hcases as [-> | [-> | [-> | [-> | [-> | ->]]]]];
      vm_compute in Hf; discriminate.
Qed.

(** C8, at obstacles beyond the lower end of the box.  The bounding box
    of the fluid segment [[-1, -9/10]], inflated by one node, ends before
    the first node of the grid; [nmax] is negative and, as a slice
    bound, counts from the end: the view is the whole interior, the
    window moved by the velocity [+1] is empty, and the masks of the
    fluid branch cannot be combined.  For the solid segment
    [[-1, -7/10]], [nmax] is zero and the view is empty, but the bound
    [nmax - 1] of the window moved by the velocity [-1] counts from the
    end: [out_cells] has five nodes and cannot be combined with the
    empty masks of the view.  The fold raises where it should leave the
    arrays as they are.  The same holds in the plane for a fluid disc on
    the left of the unit square. *)
Theorem obstacle_beyond_grid_raises :
  (snd (get_bounds seg_fluid_out) = [(-9 # 10)%Q] /\
   Qlt ((-9 # 10) + 1 * (1 # 4)) (nth 0 halo_bl1d 0%Q)) /\
  elem_nmax layout1d seg_fluid_out halo_bl1d = [-1] /\
  elem_view layout1d seg_fluid_out halo_bl1d = [(1, 4)] /\
  elem_moved layout1d seg_fluid_out halo_bl1d [1] = [(2, 0)] /\
  (forall A, add_elem layout1d seg_fluid_out A = Raise ValueError) /\
  is_ok (Domain_init (box1d 0 1 []) stencil_pm1 (1 # 4) whole_grid) = true /\
  Domain_init (box1d 0 1 [seg_fluid_out]) stencil_pm1 (1 # 4) whole_grid
  = Raise ValueError /\
  (elem_nmax layout1d seg_solid_out halo_bl1d = [0] /\
   elem_view layout1d seg_solid_out halo_bl1d = [(1, 0)] /\
   elem_moved layout1d seg_solid_out halo_bl1d [-1] = [(0, 5)] /\
   Domain_init (box1d 0 1 [seg_solid_out]) stencil_pm1 (1 # 4) whole_grid
   = Raise ValueError) /\
  is_ok (Domain_init (box2d []) stencil_d2q4 (1 # 4) whole_grid) = true /\
  Domain_init (box2d [disc_fluid_out]) stencil_d2q4 (1 # 4) whole_grid
  = Raise ValueError.
Proof.
  repeat split; by_computation.
Qed.

(** * Further properties of the construction *)

(** ** The labels of the faces *)

Lemma setitem_spec {A : Type} (v : A) :
  forall (l l' : list A) (k : nat),
    setitem l k v = Ok l' ->
    length l' = length l /\ (k < length l)%nat /\
    forall j, nth_error l' j = if Nat.eqb j k then Some v else nth_error l j.
Proof.
  induction l as [|a l IH]; intros l' [|k] H; simpl in H; try discriminate.
  - inversion H; subst l'. split; [reflexivity|]. split; [simpl; lia|].
    intros [|j]; reflexivity.
  - apply bind_ok in H. destruct H as (t & Ht & H). inversion H; subst l'.
    destruct (IH t k Ht) as (Hlen & Hk & Hnth).
    split; [simpl; congruence|]. split; [simpl; lia|].
    intros [|j]; simpl; [reflexivity | apply Hnth].
Qed.

(** What one pass of the loop on the axes does to the labels. *)
Lemma relabel_axis_spec (region : list (Z * Z)) (gs : list Q) (i : nat)
    (lab lab' : list Z) :
  relabel_axis region gs i lab = Ok lab' ->
  exists r g,
    nth_error region i = Some r /\ nth_error gs i = Some g /\
    length lab' = length lab /\
    nth_error lab' (2 * i) =
      (if fst r =? 0 then nth_error lab (2 * i) else Some interface) /\
    nth_error lab' (2 * i + 1) =
      (if Qeq_bool (inject_Z (snd r)) g then nth_error lab (2 * i + 1)
       else Some interface) /\
    forall j, j <> (2 * i)%nat -> j <> (2 * i + 1)%nat ->
              nth_error lab' j = nth_error lab j.
Proof.
  unfold relabel_axis, lookup. intros H.
  destruct (nth_error region i) as [r|]; [|discriminate]. simpl in H.
  apply bind_ok in H. destruct H as (lab1 & H1 & H).
  destruct (nth_error gs i) as [g|]; [|discriminate]. simpl in H.
  exists r, g. split; [reflexivity|]. split; [reflexivity|].
  assert (S1 : length lab1 = length lab /\
               forall j, nth_error lab1 j =
                 if Nat.eqb j (2 * i) && negb (fst r =? 0) then Some interface
                 else nth_error lab j).
  { destruct (fst r =? 0); simpl in H1.
    - inversion H1; subst. split; [reflexivity|]. intros j.
      rewrite andb_false_r. reflexivity.
    - apply setitem_spec in H1. destruct H1 as (Hl & _ & Hn).
      split; [exact Hl|]. intros j. rewrite Hn, andb_true_r. reflexivity. }
  destruct S1 as [Hl1 Hn1].
  assert (S2 : length lab' = length lab1 /\
               forall j, nth_error lab' j =
                 if Nat.eqb j (2 * i + 1) && negb (Qeq_bool (inject_Z (snd r)) g)
                 then Some interface else nth_error lab1 j).
  { destruct (Qeq_bool (inject_Z (snd r)) g); simpl in H.
    - inversion H; subst. split; [reflexivity|]. intros j.
      rewrite andb_false_r. reflexivity.
    - apply setitem_spec in H. destruct H as (Hl & _ & Hn).
      split; [exact Hl|]. intros j. rewrite Hn, andb_true_r. reflexivity. }
  destruct S2 as [Hl2 Hn2].
  split; [congruence|]. split; [|split].
  - rewrite Hn2, Hn1.
    replace (Nat.eqb (2 * i) (2 * i + 1)) with false
      by (symmetry; apply Nat.eqb_neq; lia).
    rewrite Nat.eqb_refl. simpl. destruct (fst r =? 0); reflexivity.
  - rewrite Hn2, Hn1. rewrite Nat.eqb_refl.
    replace (Nat.eqb (2 * i + 1) (2 * i)) with false
      by (symmetry; apply Nat.eqb_neq; lia).
    simpl. destruct (Qeq_bool (inject_Z (snd r)) g); reflexivity.
  - intros j Hj0 Hj1. rewrite Hn2, Hn1.
    apply Nat.eqb_neq in Hj0, Hj1. rewrite Hj0, Hj1. reflexivity.
Qed.

(** The loop on the axes [s, s + n). *)
Lemma relabel_loop (region : list (Z * Z)) (gs : list Q) :
  forall (n s : nat) (lab lab' : list Z),
    for_each (seq s n) (relabel_axis region gs) lab = Ok lab' ->
    length lab' = length lab /\
    (forall i, (s <= i < s + n)%nat ->
       exists r g,
         nth_error region i = Some r /\ nth_error gs i = Some g /\
         nth_error lab' (2 * i) =
           (if fst r =? 0 then nth_error lab (2 * i) else Some interface) /\
         nth_error lab' (2 * i + 1) =
           (if Qeq_bool (inject_Z (snd r)) g then nth_error lab (2 * i + 1)
            else Some interface)) /\
    (forall j, (j < 2 * s)%nat \/ (2 * (s + n) <= j)%nat ->
               nth_error lab' j = nth_error lab j).
Proof.
  induction n as [|n IH]; intros s lab lab' H; simpl in H.
  - inversion H; subst. split; [reflexivity|]. split; [intros; lia | auto].
  - apply bind_ok in H. destruct H as (lab1 & H1 & Hrest).
    apply relabel_axis_spec in H1.
    destruct H1 as (r & g & Hr & Hg & Hl1 & He & Ho & Hother).
    destruct (IH (S s) lab1 lab' Hrest) as (Hl & Hin & Hout).
    split; [congruence|]. split.
    + intros i Hi. destruct (Nat.eq_dec i s) as [->|Hne].
      * exists r, g. split; [exact Hr|]. split; [exact Hg|].
        rewrite (Hout (2 * s)%nat) by lia.
        rewrite (Hout (2 * s + 1)%nat) by lia. auto.
      * destruct (Hin i ltac:(lia)) as (r' & g' & Hr' & Hg' & He' & Ho').
        exists r', g'. split; [exact Hr'|]. split; [exact Hg'|].
        rewrite He', Ho'.
        rewrite (Hother (2 * i)%nat) by lia.
        rewrite (Hother (2 * i + 1)%nat) by lia. auto.
    + intros j Hj. rewrite (Hout j) by lia. apply Hother; lia.
Qed.

(** X1.  The labels kept by the domain: the list has the length of the
    list of the geometry; on every axis the label of the lower face is
    the one of the geometry when the block of the process starts at 0 and
    the interface sentinel otherwise, the label of the upper face is the
    one of the geometry when the block ends at the global size and the
    interface sentinel otherwise; labels beyond the faces are kept. *)
Theorem interface_labels (g : Geometry) (st : Stencil) (dx0 : Q)
    (get_region : Partitioner) (d : Domain) :
  Domain_init g st dx0 get_region = Ok d ->
  length (dom_box_label d) = length (box_label g) /\
  (forall i, (i < geom_dim g)%nat ->
     exists r gsz,
       nth_error (get_region (global_size d)) i = Some r /\
       nth_error (global_size d) i = Some gsz /\
       nth_error (dom_box_label d) (2 * i) =
         (if fst r =? 0 then nth_error (box_label g) (2 * i)
          else Some interface) /\
       nth_error (dom_box_label d) (2 * i + 1) =
         (if Qeq_bool (inject_Z (snd r)) gsz
          then nth_error (box_label g) (2 * i + 1)
          else Some interface)) /\
  (forall j, (2 * geom_dim g <= j)%nat ->
             nth_error (dom_box_label d) j = nth_error (box_label g) j).
Proof.
  unfold Domain_init. intros H.
  apply bind_ok in H. destruct H as ([gs L] & Hcc & H). simpl in H.
  apply bind_ok in H. destruct H as (lab & Hlab & H).
  apply bind_ok in H. destruct H as (A1 & _ & H).
  apply bind_ok in H. destruct H as (A2 & _ & H).
  inversion H; subst d; clear H. simpl.
  apply create_coords_spec in Hcc. destruct Hcc as (Hdim & _).
  unfold relabel in Hlab. rewrite Hdim in Hlab.
  destruct (relabel_loop _ _ _ _ _ _ Hlab) as (Hlen & Hin & Hout).
  split; [exact Hlen|]. split.
  - intros i Hi. apply Hin. lia.
  - intros j Hj. apply Hout. right. lia.
Qed.

(** ** The coordinates *)

Lemma linspace_nth (start stop : Q) (num : Z) (l : list Q) (j : nat) :
  linspace start stop num = Ok l -> (Z.of_nat j < num) ->
  nth j l 0%Q
  = (start + inject_Z (Z.of_nat j) * ((stop - start) / inject_Z (num - 1)))%Q.
Proof.
  unfold linspace, range. destruct (num <? 0); [discriminate|].
  intros H Hj. inversion H; subst l; clear H. rewrite map_map.
  apply (nth_map_seq
           (fun x => (start + inject_Z (Z.of_nat x)
                              * ((stop - start) / inject_Z (num - 1)))%Q)).
  lia.
Qed.

(** The arrays of one axis, as [create_coords] computes them. *)
Lemma create_coords_axis (g : Geometry) (st : Stencil) (dx0 : Q)
    (get_region : Partitioner) (gs : list Q) (L : Layout) (k : nat) :
  create_coords g st dx0 get_region = Ok (gs, L) -> (k < dim L)%nat ->
  exists b r h,
    nth_error (bounds g) k = Some b /\
    nth_error (get_region gs) k = Some r /\
    nth_error (vmax st) k = Some h /\
    linspace (fst b + dx0 * inject_Z (fst r) - dx0 * (inject_Z h - (1 # 2)))%Q
             (fst b + dx0 * inject_Z (snd r) + dx0 * (inject_Z h - (1 # 2)))%Q
             ((snd r - fst r) + 2 * h)
    = Ok (nth k (coords_halo L) []) /\
    nth k (coords L) [] = slice_list (nth k (coords_halo L) []) h (- h).
Proof.
  unfold create_coords. intros H Hk.
  apply bind_ok in H. destruct H as (gs' & Hgs & H).
  apply bind_ok in H. destruct H as (ch & Hch & H).
  apply bind_ok in H. destruct H as (c & Hc & H).
  inversion H; subst gs' L; clear H. simpl in *.
  destruct (collect_map_seq _ [] _ _ _ Hch) as [_ Nch].
  destruct (collect_map_seq _ [] _ _ _ Hc) as [_ Nc].
  specialize (Nch k Hk). specialize (Nc k Hk). simpl in Nch, Nc.
  unfold axis_coords_halo, lookup in Nch.
  destruct (nth_error (bounds g) k) as [b|]; [|discriminate].
  destruct (nth_error (get_region gs) k) as [r|]; [|discriminate].
  unfold lookup in Nc.
  destruct (nth_error (vmax st) k) as [h|]; [|discriminate].
  simpl in Nch, Nc. exists b, r, h. repeat (split; [reflexivity|]).
  split; [exact Nch|]. injection Nc as Nc. symmetry. exact Nc.
Qed.

(** The step of [linspace] between the two ends of an axis is the space
    step. *)
Lemma halo_axis_nth (b0 dx0 : Q) (r0 r1 h : Z) (l : list Q) (j : nat) :
  linspace (b0 + dx0 * inject_Z r0 - dx0 * (inject_Z h - (1 # 2)))%Q
           (b0 + dx0 * inject_Z r1 + dx0 * (inject_Z h - (1 # 2)))%Q
           ((r1 - r0) + 2 * h) = Ok l ->
  (j < length l)%nat ->
  (nth j l 0 == b0 + dx0 * (inject_Z (r0 - h + Z.of_nat j) + (1 # 2)))%Q.
Proof.
  intros H Hj. pose proof (linspace_length _ _ _ _ H) as [Hn Hlen].
  rewrite (linspace_nth _ _ _ _ j H) by lia.
  set (n1 := r1 - r0 + 2 * h - 1).
  assert (Hstep :
    ((b0 + dx0 * inject_Z r1 + dx0 * (inject_Z h - (1 # 2))
      - (b0 + dx0 * inject_Z r0 - dx0 * (inject_Z h - (1 # 2))))
     == dx0 * inject_Z n1)%Q).
  { unfold n1, Z.sub. rewrite !inject_Z_plus, !inject_Z_opp, inject_Z_mult.
    change (inject_Z 2) with 2%Q. change (inject_Z 1) with 1%Q. ring. }
  rewrite Hstep. unfold Z.sub. rewrite !inject_Z_plus, inject_Z_opp.
  fold (Z.sub (r1 - r0 + 2 * h) 1). fold n1.
  destruct (Z.eq_dec n1 0) as [E|E].
  - assert (j = 0%nat) by (unfold n1 in E; lia). subst j.
    change (inject_Z (Z.of_nat 0)) with 0%Q. ring.
  - field. intros E'. apply E.
    assert (Hq : (inject_Z n1 == inject_Z 0)%Q) by exact E'.
    unfold Qeq in Hq. simpl in Hq. lia.
Qed.

Lemma slice_list_nth {A : Type} (l : list A) (a b : Z) (i : nat) (d : A) :
  (i < length (slice_list l a b))%nat ->
  nth i (slice_list l a b) d
  = nth (Z.to_nat (slice_lo (Z.of_nat (length l)) a) + i) l d.
Proof.
  unfold slice_list. intros Hi. rewrite length_firstn in Hi.
  rewrite nth_firstn, nth_skipn.
  destruct (Nat.ltb_spec i (Z.to_nat (slice_len (Z.of_nat (length l)) a b)));
    [reflexivity | lia].
Qed.

(** X2.  The nodes are the centres of the cells.  On every axis the
    [j]-th coordinate of the whole domain is the lower bound of the box
    plus [dx] times [region begin - vmax + j + 1/2]; with a halo
    ([vmax > 0]) and a block that is not reversed, the [i]-th coordinate
    of the interior is the lower bound plus [dx] times
    [region begin + i + 1/2], and the interior has as many nodes as the
    block. *)
Theorem coordinates_are_cell_centres (g : Geometry) (st : Stencil) (dx0 : Q)
    (get_region : Partitioner) (gs : list Q) (L : Layout) (k : nat) :
  create_coords g st dx0 get_region = Ok (gs, L) -> (k < dim L)%nat ->
  exists b r h,
    nth_error (bounds g) k = Some b /\
    nth_error (get_region gs) k = Some r /\
    nth_error (vmax st) k = Some h /\
    Z.of_nat (length (nth k (coords_halo L) [])) = (snd r - fst r) + 2 * h /\
    (forall j, (j < length (nth k (coords_halo L) []))%nat ->
       (nth j (nth k (coords_halo L) []) 0
        == fst b + dx0 * (inject_Z (fst r - h + Z.of_nat j) + (1 # 2)))%Q) /\
    (0 < h -> fst r <= snd r ->
       Z.of_nat (length (nth k (coords L) [])) = snd r - fst r /\
       forall i, (i < length (nth k (coords L) []))%nat ->
         (nth i (nth k (coords L) []) 0
          == fst b + dx0 * (inject_Z (fst r + Z.of_nat i) + (1 # 2)))%Q).
Proof.
  intros H Hk.
  destruct (create_coords_axis _ _ _ _ _ _ k H Hk)
    as (b & r & h & Hb & Hr & Hh & Hlin & Hc).
  exists b, r, h. repeat (split; [assumption|]).
  pose proof (linspace_length _ _ _ _ Hlin) as [Hn Hlen].
  split; [exact Hlen|]. split.
  - intros j Hj. apply (halo_axis_nth _ _ _ _ _ _ _ Hlin Hj).
  - intros Hh0 Hreg.
    assert (Hlenc : Z.of_nat (length (nth k (coords L) [])) = snd r - fst r).
    { rewrite Hc, slice_list_length, Hlen. unfold slice_len, norm_idx.
      destruct (Z.ltb_spec (- h) 0); destruct (Z.ltb_spec h 0); lia. }
    split; [exact Hlenc|]. intros i Hi.
    rewrite Hc in Hi |- *. rewrite slice_list_nth by exact Hi.
    rewrite Hlen. unfold slice_lo, norm_idx.
    destruct (Z.ltb_spec h 0); [lia|].
    rewrite <- Hc in Hi.
    rewrite (halo_axis_nth _ _ _ _ _ _ _ Hlin) by lia.
    replace (fst r - h + Z.of_nat (Z.to_nat (Z.min h (snd r - fst r + 2 * h)) + i))
      with (fst r + Z.of_nat i) by lia.
    reflexivity.
Qed.

(** ** The corners and the accessors *)

Lemma collect_map_seq_intro {A : Type} (f : nat -> result A) (d : A) :
  forall (n s : nat) (l : list A),
    length l = n ->
    (forall k, (k < n)%nat -> f (s + k)%nat = Ok (nth k l d)) ->
    collect (map f (seq s n)) = Ok l.
Proof.
  induction n as [|n IH]; intros s [|a l] Hlen Hf; simpl in *; try discriminate.
  - reflexivity.
  - pose proof (Hf 0%nat ltac:(lia)) as H0. simpl in H0.
    rewrite Nat.add_0_r in H0. rewrite H0. simpl.
    rewrite (IH (S s) l); [reflexivity | lia |].
    intros k Hk. specialize (Hf (S k) ltac:(lia)). simpl in Hf.
    rewrite <- Nat.add_succ_comm in Hf. exact Hf.
Qed.

(** A loop that collects results of which some is an [IndexError] and
    none is another error ends in [IndexError]. *)
Lemma collect_index_error {A : Type} :
  forall l : list (result A),
    Forall (fun r => is_ok r = true \/ r = Raise IndexError) l ->
    Exists (fun r => r = Raise IndexError) l ->
    collect l = Raise IndexError.
Proof.
  induction l as [|r l IH]; intros Hall Hex; [inversion Hex|].
  inversion Hall as [|? ? Hr Hl]; subst. simpl.
  destruct Hr as [Hr|Hr].
  - destruct r as [a|e]; [|discriminate]. simpl.
    inversion Hex as [? ? Hbad|? ? Hrest]; subst; [discriminate|].
    rewrite (IH Hl Hrest). reflexivity.
  - rewrite Hr. reflexivity.
Qed.

Lemma getitem_first {A : Type} (c : list A) (d : A) :
  getitem c 0 = match c with [] => Raise IndexError | a :: _ => Ok a end.
Proof.
  unfold getitem, py_index. destruct c as [|a c]; [reflexivity|].
  simpl length. rewrite Nat2Z.inj_succ.
  destruct (Z.ltb_spec 0 (Z.succ (Z.of_nat (length c)))); [|lia].
  reflexivity.
Qed.

Lemma getitem_last {A : Type} (c : list A) (d : A) :
  getitem c (-1)
  = match c with
    | [] => Raise IndexError
    | _ :: _ => Ok (nth (length c - 1) c d)
    end.
Proof.
  unfold getitem, py_index. destruct c as [|a c]; [reflexivity|].
  set (n := Z.of_nat (length (a :: c))).
  assert (Hn : 0 < n) by (unfold n; simpl length; lia).
  destruct (Z.leb_spec 0 (-1)); [lia|]. cbn [andb].
  destruct (Z.ltb_spec (-1) 0); [|lia].
  destruct (Z.leb_spec (- n) (-1)); [|lia]. cbn [andb bind].
  unfold lookup.
  replace (Z.to_nat (-1 + n)) with (length (a :: c) - 1)%nat by (unfold n; lia).
  rewrite (nth_error_nth' _ d); [reflexivity | simpl; lia].
Qed.

(** The two corners are the first and the last node of every axis; an
    axis without node makes the query fail. *)
Lemma corners_spec (cs : list (list Q)) (n : nat) (bl ur : list Q) :
  corners cs n = Ok (bl, ur) ->
  length bl = n /\ length ur = n /\
  forall k, (k < n)%nat ->
    exists c, nth_error cs k = Some c /\ c <> [] /\
              nth k bl 0%Q = nth 0 c 0%Q /\
              nth k ur 0%Q = nth (length c - 1) c 0%Q.
Proof.
  unfold corners. intros H.
  apply bind_ok in H. destruct H as (bl' & Hbl & H).
  apply bind_ok in H. destruct H as (ur' & Hur & H).
  inversion H; subst bl' ur'; clear H.
  destruct (collect_map_seq _ 0%Q _ _ _ Hbl) as [Lbl Nbl].
  destruct (collect_map_seq _ 0%Q _ _ _ Hur) as [Lur Nur].
  split; [exact Lbl|]. split; [exact Lur|].
  intros k Hk. specialize (Nbl k Hk). specialize (Nur k Hk).
  simpl in Nbl, Nur. unfold lookup in Nbl, Nur.
  destruct (nth_error cs k) as [c|]; [|discriminate]. simpl in Nbl, Nur.
  exists c. split; [reflexivity|].
  rewrite (getitem_first c 0%Q) in Nbl. rewrite (getitem_last c 0%Q) in Nur.
  destruct c as [|a c]; [discriminate|].
  split; [discriminate|].
  injection Nbl as Nbl. injection Nur as Nur. split; [simpl; auto|].
  symmetry. exact Nur.
Qed.

Lemma corners_ok (cs : list (list Q)) (n : nat) :
  (forall k, (k < n)%nat -> exists c, nth_error cs k = Some c /\ c <> []) ->
  exists bl ur, corners cs n = Ok (bl, ur).
Proof.
  intros H. unfold corners.
  rewrite (collect_map_seq_intro _ 0%Q n 0
             (map (fun k => nth 0 (nth k cs []) 0%Q) (seq 0 n))).
  - simpl.
    rewrite (collect_map_seq_intro _ 0%Q n 0
               (map (fun k => nth (length (nth k cs []) - 1) (nth k cs []) 0%Q)
                    (seq 0 n))).
    + simpl. eauto.
    + rewrite length_map, length_seq. reflexivity.
    + intros k Hk. simpl. destruct (H k Hk) as (c & Hc & Hne).
      unfold lookup. rewrite Hc. simpl. rewrite (getitem_last c 0%Q).
      rewrite nth_map_seq by exact Hk.
      rewrite (nth_error_nth _ _ [] Hc).
      destruct c; [contradiction | reflexivity].
  - rewrite length_map, length_seq. reflexivity.
  - intros k Hk. simpl. destruct (H k Hk) as (c & Hc & Hne).
    unfold lookup. rewrite Hc. simpl. rewrite (getitem_first c 0%Q).
    rewrite nth_map_seq by exact Hk.
    rewrite (nth_error_nth _ _ [] Hc).
    destruct c; [contradiction | reflexivity].
Qed.

Lemma corners_empty_axis (cs : list (list Q)) (n k : nat) :
  (k < n)%nat -> nth_error cs k = Some [] ->
  corners cs n = Raise IndexError.
Proof.
  intros Hk Hc. unfold corners.
  rewrite (collect_index_error
             (map (fun k0 => c <- lookup cs k0 ;; getitem c 0) (seq 0 n))).
  - reflexivity.
  - apply Forall_forall. intros r Hr. apply in_map_iff in Hr.
    destruct Hr as (i & <- & _). unfold lookup.
    destruct (nth_error cs i) as [c|]; simpl; [|auto].
    rewrite (getitem_first c 0%Q). destruct c; auto.
  - apply Exists_exists. exists (Raise IndexError). split; [|reflexivity].
    apply in_map_iff. exists k. split; [|apply in_seq; lia].
    unfold lookup. rewrite Hc. reflexivity.
Qed.

(** X3.  With a halo and a block that is not empty on every axis, the
    two queries of the bounds succeed; the corners of the interior are
    half a space step inside the block of the process, those of the
    whole domain [vmax] nodes further out, and the lower corner of the
    whole domain is the origin [__add_elem] counts the nodes from. *)
Theorem bounds_of_the_domain (g : Geometry) (st : Stencil) (dx0 : Q)
    (get_region : Partitioner) (gs : list Q) (L : Layout) :
  create_coords g st dx0 get_region = Ok (gs, L) ->
  (forall k r h, nth_error (get_region gs) k = Some r ->
                 nth_error (vmax st) k = Some h -> 0 < h /\ fst r < snd r) ->
  exists bl ur blh urh,
    dom_get_bounds L = Ok (bl, ur) /\
    get_bounds_halo L = Ok (blh, urh) /\
    get_bounds_halo_bl L = Ok blh /\
    forall k, (k < dim L)%nat ->
      exists b r h,
        nth_error (bounds g) k = Some b /\
        nth_error (get_region gs) k = Some r /\
        nth_error (vmax st) k = Some h /\
        (nth k bl 0 == fst b + dx0 * (inject_Z (fst r) + (1 # 2)))%Q /\
        (nth k ur 0 == fst b + dx0 * (inject_Z (snd r) - (1 # 2)))%Q /\
        (nth k blh 0 == fst b + dx0 * (inject_Z (fst r - h) + (1 # 2)))%Q /\
        (nth k urh 0 == fst b + dx0 * (inject_Z (snd r + h) - (1 # 2)))%Q.
Proof.
  intros H Hpos.
  pose proof (create_coords_spec _ _ _ _ _ _ H) as (_ & _ & _ & Lch & Lc & _).
  assert (Hax : forall k, (k < dim L)%nat ->
            exists b r h,
              nth_error (bounds g) k = Some b /\
              nth_error (get_region gs) k = Some r /\
              nth_error (vmax st) k = Some h /\ 0 < h /\ fst r < snd r /\
              Z.of_nat (length (nth k (coords_halo L) [])) = snd r - fst r + 2 * h /\
              Z.of_nat (length (nth k (coords L) [])) = snd r - fst r /\
              (forall j, (j < length (nth k (coords_halo L) []))%nat ->
                 (nth j (nth k (coords_halo L) []) 0
                  == fst b + dx0 * (inject_Z (fst r - h + Z.of_nat j) + (1 # 2)))%Q) /\
              (forall i, (i < length (nth k (coords L) []))%nat ->
                 (nth i (nth k (coords L) []) 0
                  == fst b + dx0 * (inject_Z (fst r + Z.of_nat i) + (1 # 2)))%Q)).
  { intros k Hk.
    destruct (create_coords_axis _ _ _ _ _ _ k H Hk)
      as (b & r & h & Hb & Hr & Hh & Hlin & Hc).
    destruct (Hpos k r h Hr Hh) as [Hh0 Hreg].
    pose proof (linspace_length _ _ _ _ Hlin) as [Hn Hlen].
    assert (Hlenc : Z.of_nat (length (nth k (coords L) [])) = snd r - fst r).
    { rewrite Hc, slice_list_length, Hlen. unfold slice_len, norm_idx.
      destruct (Z.ltb_spec (- h) 0); destruct (Z.ltb_spec h 0); lia. }
    exists b, r, h. repeat (split; [assumption|]).
    split; [intros j Hj; apply (halo_axis_nth _ _ _ _ _ _ _ Hlin Hj)|].
    intros i Hi. rewrite Hc in Hi |- *. rewrite slice_list_nth by exact Hi.
    rewrite Hlen. unfold slice_lo, norm_idx.
    destruct (Z.ltb_spec h 0); [lia|]. rewrite <- Hc in Hi.
    rewrite (halo_axis_nth _ _ _ _ _ _ _ Hlin) by lia.
    replace (fst r - h + Z.of_nat (Z.to_nat (Z.min h (snd r - fst r + 2 * h)) + i))
      with (fst r + Z.of_nat i) by lia.
    reflexivity. }
  assert (Nc : forall k, (k < dim L)%nat ->
            exists c, nth_error (coords L) k = Some c /\ c <> []).
  { intros k Hk. exists (nth k (coords L) []).
    split; [apply nth_error_nth'; lia|].
    destruct (Hax k Hk) as (b & r & h & _ & _ & _ & _ & Hreg & _ & Hl & _).
    intros E. rewrite E in Hl. cbn [length] in Hl. lia. }
  assert (Nch : forall k, (k < dim L)%nat ->
            exists c, nth_error (coords_halo L) k = Some c /\ c <> []).
  { intros k Hk. exists (nth k (coords_halo L) []).
    split; [apply nth_error_nth'; lia|].
    destruct (Hax k Hk) as (b & r & h & _ & _ & _ & Hh0 & Hreg & Hl & _).
    intros E. rewrite E in Hl. cbn [length] in Hl. lia. }
  destruct (corners_ok _ _ Nc) as (bl & ur & Hb).
  destruct (corners_ok _ _ Nch) as (blh & urh & Hbh).
  exists bl, ur, blh, urh. split; [exact Hb|]. split; [exact Hbh|].
  destruct (corners_spec _ _ _ _ Hb) as (_ & _ & Sb).
  destruct (corners_spec _ _ _ _ Hbh) as (Lblh & _ & Sbh).
  split.
  { unfold get_bounds_halo_bl.
    apply (collect_map_seq_intro _ 0%Q); [exact Lblh|].
    intros k Hk. simpl. destruct (Sbh k Hk) as (c & Hc & Hne & H0 & _).
    rewrite (nth_error_nth _ _ [] Hc), H0. unfold lookup.
    destruct c; [contradiction | reflexivity]. }
  intros k Hk.
  destruct (Hax k Hk) as (b & r & h & Hb0 & Hr & Hh & Hh0 & Hreg & Hlh & Hlc & Fh & Fc).
  exists b, r, h. repeat (split; [assumption|]).
  destruct (Sb k Hk) as (c & Hc & _ & Hfirst & Hlast).
  destruct (Sbh k Hk) as (ch & Hch & _ & Hfirsth & Hlasth).
  rewrite (nth_error_nth _ _ [] Hc) in Fc, Hlc.
  rewrite (nth_error_nth _ _ [] Hch) in Fh, Hlh.
  rewrite Hfirst, Hlast, Hfirsth, Hlasth.
  rewrite (Fc 0%nat) by lia. rewrite (Fc (length c - 1)%nat) by lia.
  rewrite (Fh 0%nat) by lia. rewrite (Fh (length ch - 1)%nat) by lia.
  replace (fst r + Z.of_nat 0) with (fst r) by lia.
  replace (fst r + Z.of_nat (length c - 1)) with (snd r - 1) by lia.
  replace (fst r - h + Z.of_nat 0) with (fst r - h) by lia.
  replace (fst r - h + Z.of_nat (length ch - 1)) with (snd r + h - 1) by lia.
  unfold Z.sub. rewrite !inject_Z_plus, !inject_Z_opp.
  change (inject_Z 1) with 1%Q.
  repeat split; ring.
Qed.

Lemma in_window_empty_axis :
  forall (w : window) (k : nat) (lo : Z) (x : index),
    nth_error w k = Some (lo, 0) -> in_window w x = false.
Proof.
  induction w as [|[lo' len] w IH]; intros [|k] lo [|i x] H; simpl in *;
    try discriminate; try reflexivity.
  - inversion H; subst.
    destruct (Z.leb_spec lo i); destruct (Z.ltb_spec i (lo + 0));
      try reflexivity; lia.
  - rewrite (IH k lo x H). apply andb_false_r.
Qed.

(** X4.  An axis along which no velocity moves has no halo, and the
    slice [0:-0] that cuts the interior out of the halo coordinates is
    empty: the interior has no node at all, the query of its bounds
    raises, and the initial stamping leaves every node of the arrays
    OUT. *)
Theorem axis_without_halo (g : Geometry) (st : Stencil) (dx0 : Q)
    (get_region : Partitioner) (gs : list Q) (L : Layout) (k : nat) :
  create_coords g st dx0 get_region = Ok (gs, L) ->
  (k < dim L)%nat -> nth_error (vmax st) k = Some 0 ->
  nth k (coords L) [] = [] /\
  nth k (shape_in L) 0 = 0 /\
  dom_get_bounds L = Raise IndexError /\
  (forall x, in_window (interior L) x = false) /\
  (forall lab A A', add_init L lab A = Ok A' ->
                    forall x, in_or_out A' x = valout).
Proof.
  intros H Hk Hv.
  pose proof (create_coords_spec _ _ _ _ _ _ H) as (_ & Hst & _ & Lch & Lc & _).
  destruct (create_coords_axis _ _ _ _ _ _ k H Hk)
    as (b & r & h & _ & _ & Hh & _ & Hc).
  rewrite Hv in Hh. injection Hh as <-.
  assert (Hempty : nth k (coords L) [] = []).
  { rewrite Hc. unfold slice_list, slice_len. change (- 0) with 0.
    rewrite Z.sub_diag. reflexivity. }
  assert (Hwin : forall x, in_window (interior L) x = false).
  { intros x.
    apply (in_window_empty_axis _ k
             (slice_lo (Z.of_nat (length (nth k (coords_halo L) []))) 0)).
    unfold interior.
    rewrite (mk_window_nth (shape_halo L) _ k
               (Z.of_nat (length (nth k (coords_halo L) []))) (0, - 0)).
    - simpl fst. simpl snd. unfold slice_len. change (- 0) with 0.
      rewrite Z.sub_diag. reflexivity.
    - unfold shape_halo. rewrite nth_error_map.
      rewrite (nth_error_nth' _ []) by lia. reflexivity.
    - rewrite nth_error_map, Hst, Hv. reflexivity. }
  split; [exact Hempty|]. split.
  { unfold shape_in.
    change (nth k (map (fun c : list Q => Z.of_nat (length c)) (coords L))
                ((fun c : list Q => Z.of_nat (length c)) []) = 0).
    rewrite map_nth, Hempty. reflexivity. }
  split.
  { apply (corners_empty_axis _ _ k Hk).
    rewrite (nth_error_nth' _ []) by lia. rewrite Hempty. reflexivity. }
  split; [exact Hwin|].
  intros lab A A' Hinit x.
  destruct (add_init_outside _ _ _ _ Hinit) as [Hio _].
  rewrite Hio. simpl. rewrite Hwin. reflexivity.
Qed.

(** X5.  The accessors [x], [y], [z] and their halo counterparts are
    defined on the axes of the domain and raise on the others; each
    interior axis is the halo axis without [vmax] nodes at both ends. *)
Theorem accessors_by_dimension (g : Geometry) (st : Stencil) (dx0 : Q)
    (get_region : Partitioner) (gs : list Q) (L : Layout) :
  create_coords g st dx0 get_region = Ok (gs, L) ->
  forall (a : nat) (acc acc_halo : result (list Q)),
    In (a, acc, acc_halo)
       [(0%nat, coords_x L, x_halo L); (1%nat, coords_y L, y_halo L);
        (2%nat, coords_z L, z_halo L)] ->
    if (a <? dim L)%nat then
      exists ch, acc_halo = Ok ch /\
                 acc = Ok (slice_list ch (nth a (vmax st) 0) (- nth a (vmax st) 0))
    else acc = Raise IndexError /\ acc_halo = Raise IndexError.
Proof.
  intros H.
  pose proof (create_coords_spec _ _ _ _ _ _ H) as (_ & _ & _ & Lch & Lc & _).
  assert (Hgen : forall a,
            if (a <? dim L)%nat then
              exists ch, lookup (coords_halo L) a = Ok ch /\
                lookup (coords L) a
                = Ok (slice_list ch (nth a (vmax st) 0) (- nth a (vmax st) 0))
            else lookup (coords L) a = Raise IndexError /\
                 lookup (coords_halo L) a = Raise IndexError).
  { intros a. unfold lookup. destruct (Nat.ltb_spec a (dim L)) as [Ha|Ha].
    - destruct (create_coords_axis _ _ _ _ _ _ a H Ha)
        as (b & r & h & _ & _ & Hh & _ & Hc).
      exists (nth a (coords_halo L) []).
      rewrite (nth_error_nth' _ []) by lia.
      rewrite (nth_error_nth' (coords L) []) by lia.
      rewrite Hc, (nth_error_nth _ _ 0 Hh). auto.
    - destruct (nth_error_None (coords L) a) as [_ ->]; [|lia].
      destruct (nth_error_None (coords_halo L) a) as [_ ->]; [|lia]. auto. }
  intros a acc acc_halo Hin. simpl in Hin.
  destruct Hin as [E|[E|[E|[]]]]; inversion E; subst; apply Hgen.
Qed.

(** X6.  The classification of a built domain has two values: every
    node of the arrays is IN or OUT. *)
Theorem classification_is_binary (g : Geometry) (st : Stencil) (dx0 : Q)
    (get_region : Partitioner) (d : Domain) :
  Domain_init g st dx0 get_region = Ok d ->
  forall x, in_or_out (arrays d) x = valin \/ in_or_out (arrays d) x = valout.
Proof.
  unfold Domain_init. intros H.
  apply bind_ok in H. destruct H as ([gs L] & _ & H). simpl in H.
  apply bind_ok in H. destruct H as (lab & _ & H).
  apply bind_ok in H. destruct H as (A1 & Hinit & H).
  apply bind_ok in H. destruct H as (A2 & Hfold & H).
  inversion H; subst d; clear H. simpl.
  refine (for_each_inv
            (fun A => forall x, in_or_out A x = valin \/ in_or_out A x = valout)
            _ _ _ _ _ _ Hfold).
  - intros e A A' _ HA He x.
    destruct (add_elem_spec _ _ _ _ He) as (bl & _ & Hio & _).
    cbv zeta in Hio. rewrite Hio. unfold classify.
    destruct (isfluid e);
      match goal with |- context [if ?c then _ else _] => destruct c end;
      auto.
  - intros x. destruct (add_init_outside _ _ _ _ Hinit) as [Hio _].
    rewrite Hio. simpl. destruct (in_window (interior L) x); auto.
Qed.

(** ** Solid obstacles, one after the other *)

Lemma solid_folds_classification (L : Layout) (bl : list Q) :
  get_bounds_halo_bl L = Ok bl ->
  forall (els : list Element) (A A' : Arrays),
    Forall (fun e => isfluid e = false) els ->
    for_each els (add_elem L) A = Ok A' ->
    forall x,
      in_or_out A' x =
        if existsb (fun e => in_window (elem_view L e bl) x &&
                             point_inside e (node_coords L x)) els
        then valout else in_or_out A x.
Proof.
  intros Hbl. induction els as [|e els IH]; intros A A' Hs H x; simpl in *.
  - inversion H; reflexivity.
  - apply bind_ok in H. destruct H as (A1 & He & Hrest).
    inversion Hs as [|? ? Hsolid Hs']; subst.
    rewrite (IH A1 A' Hs' Hrest x).
    destruct (add_elem_spec _ _ _ _ He) as (bl' & Hbl' & Hio & _).
    rewrite Hbl in Hbl'. injection Hbl' as <-.
    cbv zeta in Hio. rewrite Hio. unfold classify, ind_solid. rewrite Hsolid.
    destruct (in_window (elem_view L e bl) x && point_inside e (node_coords L x));
      simpl;
      destruct (existsb _ els); reflexivity.
Qed.

Lemma existsb_permutation {A : Type} (f : A -> bool) (l l' : list A) :
  Permutation l l' -> existsb f l = existsb f l'.
Proof.
  induction 1 as [|a l l' _ IH|a b l|l l' l'' _ IH1 _ IH2]; simpl.
  - reflexivity.
  - rewrite IH. reflexivity.
  - destruct (f a), (f b); reflexivity.
  - congruence.
Qed.

(** X7.  Solid obstacles only take nodes out: after any number of them
    a node is OUT when it lies inside one of them, in the view of that
    one, and keeps its classification otherwise; the order in which the
    obstacles are folded does not change the classification. *)
Theorem solid_obstacles_union (L : Layout) (bl : list Q)
    (els : list Element) (A A' : Arrays) :
  get_bounds_halo_bl L = Ok bl ->
  Forall (fun e => isfluid e = false) els ->
  for_each els (add_elem L) A = Ok A' ->
  (forall x,
     in_or_out A' x =
       if existsb (fun e => in_window (elem_view L e bl) x &&
                            point_inside e (node_coords L x)) els
       then valout else in_or_out A x) /\
  (forall els2 A2,
     Permutation els els2 -> for_each els2 (add_elem L) A = Ok A2 ->
     forall x, in_or_out A2 x = in_or_out A' x).
Proof.
  intros Hbl Hs H. split.
  - exact (solid_folds_classification L bl Hbl els A A' Hs H).
  - intros els2 A2 Hp H2 x.
    rewrite (solid_folds_classification L bl Hbl els A A' Hs H x).
    rewrite (solid_folds_classification L bl Hbl els2 A A2
               (Permutation_Forall Hp Hs) H2 x).
    rewrite (existsb_permutation _ _ _ Hp). reflexivity.
Qed.

(** ** The rows of a velocity that does not move *)

Lemma stamp_other_rows (L : Layout) (a k : nat) (i : Z) (dvik : Q) (lab : Z)
    (A A' : Arrays) (k' : nat) :
  stamp L a k i dvik lab A = Ok A' -> k' <> k -> rows_kept k' A A'.
Proof.
  unfold stamp. intros H Hne.
  apply bind_ok in H. destruct H as (m & _ & H).
  apply bind_ok in H. destruct H as (row & _ & H).
  inversion H; subst A'; clear H. intros x. simpl.
  apply Nat.eqb_neq in Hne. rewrite Hne. auto.
Qed.

Lemma stamp_velocity_other_rows (L : Layout) (lab : list Z) (a k : nat)
    (vk : Z) (A A' : Arrays) (k' : nat) :
  stamp_velocity L lab a k vk A = Ok A' -> k' <> k -> rows_kept k' A A'.
Proof.
  unfold stamp_velocity. intros H Hne.
  assert (Hloop : forall (l : list Z) (f : Z -> Z) (dv : Z -> Q) (lb : Z),
            for_each l (fun i => stamp L a k (f i) (dv i) lb) A = Ok A' ->
            rows_kept k' A A').
  { intros l f dv lb Hl.
    refine (for_each_inv (rows_kept k' A) _ _ _ _ _ _ Hl).
    - intros i t t' _ Ht Hs. apply (rows_kept_trans _ _ _ _ Ht).
      exact (stamp_other_rows _ _ _ _ _ _ _ _ _ Hs Hne).
    - apply rows_kept_refl. }
  destruct (vk <? 0).
  - apply bind_ok in H. destruct H as (l & _ & H).
    destruct (negb (l =? interface)).
    + exact (Hloop _ (fun i => i) _ _ H).
    + inversion H. apply rows_kept_refl.
  - destruct (0 <? vk).
    + apply bind_ok in H. destruct H as (l & _ & H).
      destruct (negb (l =? interface)).
      * exact (Hloop _ (fun i => - i - 1) _ _ H).
      * inversion H. apply rows_kept_refl.
    + inversion H. apply rows_kept_refl.
Qed.

Lemma in_combine_seq {A : Type} :
  forall (l : list A) (s n k : nat) (v : A),
    In (k, v) (combine (seq s n) l) ->
    (s <= k)%nat /\ nth_error l (k - s) = Some v.
Proof.
  induction l as [|a l IH]; intros s [|n] k v H; simpl in H; try contradiction.
  destruct H as [E|H].
  - inversion E; subst. split; [lia|]. rewrite Nat.sub_diag. reflexivity.
  - apply IH in H. destruct H as [Hs Hn]. split; [lia|].
    replace (k - s)%nat with (S (k - S s)) by lia. exact Hn.
Qed.

Lemma any_nonzero_false (vk : list Z) :
  any_nonzero vk = false -> forall a, nth a vk 0 = 0.
Proof.
  unfold any_nonzero. induction vk as [|c vk IH]; intros H a.
  - destruct a; reflexivity.
  - simpl in H. apply orb_false_elim in H. destruct H as [Hc Hrest].
    apply negb_false_iff, Z.eqb_eq in Hc.
    destruct a; simpl; [exact Hc | apply IH; exact Hrest].
Qed.

Lemma stamp_axis_rest (L : Layout) (lab : list Z) (a : nat) (A A' : Arrays)
    (k : nat) (vk : list Z) :
  nth_error (unique_velocities (stencil L)) k = Some vk ->
  nth a vk 0 = 0 ->
  stamp_axis L lab a A = Ok A' -> rows_kept k A A'.
Proof.
  unfold stamp_axis, enumerate. intros Hk Hz H.
  refine (for_each_inv (rows_kept k A) _ _ _ _ _ _ H).
  - intros [k0 v0] t t' Hin Ht Hs. simpl in Hs.
    apply (rows_kept_trans _ _ _ _ Ht).
    destruct (Nat.eq_dec k k0) as [<-|Hne].
    + apply in_combine_seq in Hin. destruct Hin as [_ Hn].
      rewrite Nat.sub_0_r in Hn. unfold uvel in Hn.
      rewrite nth_error_map, Hk in Hn. simpl in Hn.
      injection Hn as <-. rewrite Hz in Hs.
      unfold stamp_velocity in Hs. simpl in Hs.
      inversion Hs. apply rows_kept_refl.
    + exact (stamp_velocity_other_rows _ _ _ _ _ _ _ _ Hs Hne).
  - apply rows_kept_refl.
Qed.

(** X8.  A velocity that does not move is never given a distance: its
    rows hold the sentinel at every node of a built domain. *)
Theorem rest_velocity_untouched (g : Geometry) (st : Stencil) (dx0 : Q)
    (get_region : Partitioner) (d : Domain) (k : nat) (vk : list Z) :
  Domain_init g st dx0 get_region = Ok d ->
  nth_error (unique_velocities st) k = Some vk ->
  any_nonzero vk = false ->
  forall x, distance (arrays d) k x = valinQ /\ flag (arrays d) k x = valin.
Proof.
  unfold Domain_init. intros H Hk Hz.
  apply bind_ok in H. destruct H as ([gs L] & Hcc & H). simpl in H.
  apply bind_ok in H. destruct H as (lab & _ & H).
  apply bind_ok in H. destruct H as (A1 & Hinit & H).
  apply bind_ok in H. destruct H as (A2 & Hfold & H).
  inversion H; subst d; clear H. simpl.
  pose proof (create_coords_spec _ _ _ _ _ _ Hcc) as (_ & Hst & _).
  rewrite <- Hst in Hk.
  assert (H1 : rows_kept k fresh_arrays A1).
  { unfold add_init in Hinit.
    refine (for_each_inv (rows_kept k fresh_arrays) _ _ _ _ _ _ Hinit).
    - intros a t t' _ Ht Hs. apply (rows_kept_trans _ _ _ _ Ht).
      exact (stamp_axis_rest _ _ _ _ _ _ _ Hk (any_nonzero_false _ Hz a) Hs).
    - intros x. simpl. auto. }
  assert (H2 : rows_kept k fresh_arrays A2).
  { refine (for_each_inv (rows_kept k fresh_arrays) _ _ _ _ _ _ Hfold).
    - intros e t t' _ Ht Hs. apply (rows_kept_trans _ _ _ _ Ht).
      destruct (add_elem_spec _ _ _ _ Hs) as (bl & _ & _ & Hrows).
      intros x. specialize (Hrows k x). rewrite Hk in Hrows.
      cbv zeta in Hrows. rewrite Hz in Hrows. exact Hrows.
    - exact H1. }
  intros x. destruct (H2 x) as [Hd Hf]. rewrite Hd, Hf. simpl. auto.
Qed.

(** ** The sign of the distances *)

Lemma crossing_pos (vk i : Z) : vk <> 0 -> 0 <= i -> (0 < crossing vk i)%Q.
Proof.
  intros Hv Hi. rewrite crossing_abs by exact Hv.
  apply Qlt_shift_div_l.
  - replace 0%Q with (inject_Z 0) by reflexivity. rewrite <- Zlt_Qlt. lia.
  - rewrite Qmult_0_l. unfold Qlt, Qplus, inject_Z. simpl. lia.
Qed.

Lemma stamp_positive (L : Layout) (a k : nat) (i : Z) (dvik : Q) (lab : Z)
    (A A' : Arrays) :
  stamp L a k i dvik lab A = Ok A' -> (0 < dvik)%Q ->
  (forall k' x, (0 < distance A k' x)%Q) ->
  forall k' x, (0 < distance A' k' x)%Q.
Proof.
  unfold stamp. intros H Hpos HA k' x.
  apply bind_ok in H. destruct H as (m & _ & H).
  apply bind_ok in H. destruct H as (row & _ & H).
  inversion H; subst A'; clear H. simpl.
  match goal with |- context [if ?c then _ else _] => destruct c end;
    [exact Hpos | apply HA].
Qed.

Lemma stamp_velocity_positive (L : Layout) (lab : list Z) (a k : nat)
    (vk : Z) (A A' : Arrays) :
  stamp_velocity L lab a k vk A = Ok A' ->
  (forall k' x, (0 < distance A k' x)%Q) ->
  forall k' x, (0 < distance A' k' x)%Q.
Proof.
  unfold stamp_velocity. intros H HA.
  destruct (Z.ltb_spec vk 0) as [Hneg|Hnn].
  - apply bind_ok in H. destruct H as (l & _ & H).
    destruct (negb (l =? interface)); [|inversion H; subst; exact HA].
    refine (for_each_inv (fun B => forall k' x, (0 < distance B k' x)%Q)
              _ _ _ _ _ _ H); [|exact HA].
    intros i t t' Hin Ht Hs. apply in_range in Hin.
    refine (stamp_positive _ _ _ _ _ _ _ _ Hs _ Ht).
    pose proof (crossing_pos vk i ltac:(lia) ltac:(lia)) as Hc.
    unfold crossing in Hc.
    destruct (Z.ltb_spec vk 0); [exact Hc | lia].
  - destruct (Z.ltb_spec 0 vk) as [Hpos|Hz]; [|inversion H; subst; exact HA].
    apply bind_ok in H. destruct H as (l & _ & H).
    destruct (negb (l =? interface)); [|inversion H; subst; exact HA].
    refine (for_each_inv (fun B => forall k' x, (0 < distance B k' x)%Q)
              _ _ _ _ _ _ H); [|exact HA].
    intros i t t' Hin Ht Hs. apply in_range in Hin.
    refine (stamp_positive _ _ _ _ _ _ _ _ Hs _ Ht).
    pose proof (crossing_pos vk i ltac:(lia) ltac:(lia)) as Hc.
    unfold crossing in Hc.
    destruct (Z.ltb_spec vk 0); [lia | exact Hc].
Qed.

Lemma valinQ_pos : (0 < valinQ)%Q.
Proof. reflexivity. Qed.

Lemma add_elem_positive (L : Layout) (e : Element) (A A' : Arrays) :
  add_elem L e A = Ok A' ->
  (forall k x, (0 < distance A k x)%Q) ->
  forall k x, (0 < distance A' k x)%Q.
Proof.
  intros H HA k x.
  destruct (add_elem_spec _ _ _ _ H) as (bl & _ & _ & Hrows).
  specialize (Hrows k x). cbv zeta in Hrows.
  destruct (nth_error (unique_velocities (stencil L)) k) as [vk|];
    [|destruct Hrows as [-> _]; apply HA].
  destruct (any_nonzero vk); [|destruct Hrows as [-> _]; apply HA].
  destruct Hrows as (_ & -> & _). unfold row_dist.
  destruct (ind_merge _ _ _ _ _ _ _ _) eqn:Hm.
  - unfold ind_merge, indx in Hm.
    apply andb_prop in Hm. destruct Hm as [Hm _].
    apply andb_prop in Hm. destruct Hm as [_ Hm].
    apply andb_prop in Hm. destruct Hm as [Hm _].
    apply andb_prop in Hm. destruct Hm as [Hm _].
    apply Qltb_lt. exact Hm.
  - unfold reset_dist.
    match goal with |- context [if ?c then _ else _] => destruct c end;
      [exact valinQ_pos | apply HA].
Qed.

(** X9.  Every distance stored in a built domain is positive: a
    crossing of the box, a crossing of an obstacle kept only when it
    is positive, or the sentinel. *)
Theorem distances_are_positive (g : Geometry) (st : Stencil) (dx0 : Q)
    (get_region : Partitioner) (d : Domain) :
  Domain_init g st dx0 get_region = Ok d ->
  forall k x, (0 < distance (arrays d) k x)%Q.
Proof.
  unfold Domain_init. intros H.
  apply bind_ok in H. destruct H as ([gs L] & _ & H). simpl in H.
  apply bind_ok in H. destruct H as (lab & _ & H).
  apply bind_ok in H. destruct H as (A1 & Hinit & H).
  apply bind_ok in H. destruct H as (A2 & Hfold & H).
  inversion H; subst d; clear H. simpl.
  refine (for_each_inv (fun B => forall k x, (0 < distance B k x)%Q)
            _ _ _ _ _ _ Hfold).
  - intros e t t' _ Ht Hs. exact (add_elem_positive _ _ _ _ Hs Ht).
  - unfold add_init in Hinit.
    refine (for_each_inv (fun B => forall k x, (0 < distance B k x)%Q)
              _ _ _ _ _ _ Hinit).
    + intros a t t' _ Ht Hs. unfold stamp_axis in Hs.
      refine (for_each_inv (fun B => forall k x, (0 < distance B k x)%Q)
                _ _ _ _ _ _ Hs); [|exact Ht].
      intros kv u u' _ Hu Hv. exact (stamp_velocity_positive _ _ _ _ _ _ _ Hv Hu).
    + intros k x. exact valinQ_pos.
Qed.

(** ** The view of an obstacle and the interior *)

Lemma in_window_incl :
  forall w w' : window,
    Forall2 (fun p q => forall i, fst p <= i < fst p + snd p ->
                                  fst q <= i < fst q + snd q) w w' ->
    forall x, in_window w x = true -> in_window w' x = true.
Proof.
  induction 1 as [|[lo len] [lo' len'] w w' Hpq _ IH]; intros [|i x] H;
    simpl in *; try discriminate; [reflexivity|].
  apply andb_prop in H. destruct H as [H1 H3].
  apply andb_prop in H1. destruct H1 as [H1 H2].
  apply Z.leb_le in H1. apply Z.ltb_lt in H2.
  destruct (Hpq i (conj H1 H2)) as [G1 G2].
  rewrite (IH x H3).
  destruct (Z.leb_spec lo' i); [|lia].
  destruct (Z.ltb_spec i (lo' + len')); [reflexivity|lia].
Qed.

Lemma Forall2_nth_error {A B : Type} (R : A -> B -> Prop) :
  forall (l : list A) (l' : list B),
    length l = length l' ->
    (forall k a b, nth_error l k = Some a -> nth_error l' k = Some b -> R a b) ->
    Forall2 R l l'.
Proof.
  induction l as [|a l IH]; intros [|b l'] Hlen H; simpl in Hlen;
    try discriminate; constructor.
  - apply (H 0%nat); reflexivity.
  - apply IH; [lia|]. intros k. apply (H (S k)).
Qed.

Lemma elem_view_length (L : Layout) (e : Element) (bl : list Q) :
  length (coords_halo L) = dim L -> length (elem_view L e bl) = dim L.
Proof.
  intros H. unfold elem_view, elem_window, mk_window, elem_nmin, elem_nmax,
    shape_halo.
  rewrite length_map, !length_combine, !length_map, !length_seq. lia.
Qed.

Lemma elem_moved_length (L : Layout) (e : Element) (bl : list Q) (vk : list Z) :
  length (coords_halo L) = dim L -> length (elem_moved L e bl vk) = dim L.
Proof.
  intros H. unfold elem_moved, moved_window, mk_window, elem_nmin, elem_nmax,
    shape_halo.
  rewrite length_map, length_combine, !length_map, !length_combine,
    !length_map, !length_seq. lia.
Qed.

Lemma interior_length (L : Layout) :
  layout_wf L -> length (interior L) = dim L.
Proof.
  intros ((Hvm & _) & Hch & _). unfold interior, mk_window, shape_halo.
  rewrite length_map, length_combine, !length_map. lia.
Qed.

(** One axis: a slice that starts at [vmax] or later and whose stop
    bound is not negative stays between the two halos. *)
Lemma view_axis_inside (n h nmin nmax i : Z) :
  0 <= h -> 2 * h <= n -> h <= nmin -> nmax <= h + slice_len n h (- h) ->
  0 <= nmax ->
  slice_lo n nmin <= i < slice_lo n nmin + slice_len n nmin nmax ->
  slice_lo n h <= i < slice_lo n h + slice_len n h (- h).
Proof.
  unfold slice_len, slice_lo, norm_idx. intros.
  destruct (Z.ltb_spec h 0); destruct (Z.ltb_spec (- h) 0);
  destruct (Z.ltb_spec nmin 0); destruct (Z.ltb_spec nmax 0); lia.
Qed.

Lemma view_in_interior (L : Layout) (e : Element) (bl : list Q) :
  layout_wf L ->
  (forall k, (k < dim L)%nat -> 0 <= nth k (vmax (stencil L)) 0) ->
  (forall k, (k < dim L)%nat -> 0 <= nth k (elem_nmax L e bl) 0) ->
  forall x, in_window (elem_view L e bl) x = true ->
            in_window (interior L) x = true.
Proof.
  intros Hwf Hpos Hmax. apply in_window_incl.
  pose proof Hwf as ((Hvm & _) & Hch & _ & Hax).
  apply Forall2_nth_error.
  { rewrite (elem_view_length _ _ _ Hch), (interior_length _ Hwf). reflexivity. }
  intros k p q Hp Hq.
  assert (Hk : (k < dim L)%nat).
  { rewrite <- (elem_view_length L e bl Hch). apply nth_error_Some. congruence. }
  destruct (Hax k Hk) as [Hn Hin].
  assert (H1 : nth_error (shape_halo L) k = Some (nth k (shape_halo L) 0)).
  { apply nth_error_nth'. unfold shape_halo. rewrite length_map. lia. }
  assert (Hmin : nth_error (elem_nmin L e bl) k = Some (nth k (elem_nmin L e bl) 0)).
  { apply nth_error_nth'. unfold elem_nmin. rewrite length_map, length_seq. exact Hk. }
  assert (Hmx : nth_error (elem_nmax L e bl) k = Some (nth k (elem_nmax L e bl) 0)).
  { apply nth_error_nth'. unfold elem_nmax. rewrite length_map, length_seq. exact Hk. }
  pose proof (nth_error_combine _ _ _ _ _ Hmin Hmx) as Hc.
  assert (H2 : nth_error (map (fun h => (h, - h)) (vmax (stencil L))) k
               = Some (nth k (vmax (stencil L)) 0, - nth k (vmax (stencil L)) 0)).
  { rewrite nth_error_map, (nth_error_nth' _ 0) by lia. reflexivity. }
  unfold elem_view, elem_window in Hp.
  rewrite (mk_window_nth _ _ _ _ _ H1 Hc) in Hp.
  unfold interior in Hq. rewrite (mk_window_nth _ _ _ _ _ H1 H2) in Hq.
  injection Hp as <-. injection Hq as <-. simpl fst. simpl snd.
  intros i Hi.
  apply (view_axis_inside _ _ (nth k (elem_nmin L e bl) 0)
           (nth k (elem_nmax L e bl) 0)); try assumption.
  - apply Hpos. exact Hk.
  - unfold elem_nmin. rewrite nth_map_seq by exact Hk. lia.
  - unfold elem_nmax. rewrite nth_map_seq by exact Hk. rewrite <- Hin. lia.
  - apply Hmax. exact Hk.
Qed.

(** X10.  An obstacle whose box, widened by [vmax] nodes, does not end
    below the grid is folded inside the interior: the nodes of the halo
    keep their classification and their rows. *)
Theorem halo_untouched_by_fold (L : Layout) (e : Element) (bl : list Q)
    (A A' : Arrays) :
  layout_wf L ->
  (forall k, (k < dim L)%nat -> 0 <= nth k (vmax (stencil L)) 0) ->
  get_bounds_halo_bl L = Ok bl ->
  (forall k, (k < dim L)%nat -> 0 <= nth k (elem_nmax L e bl) 0) ->
  add_elem L e A = Ok A' ->
  forall x, in_window (interior L) x = false ->
    in_or_out A' x = in_or_out A x /\
    forall k, distance A' k x = distance A k x /\ flag A' k x = flag A k x.
Proof.
  intros Hwf Hpos Hbl Hmax H x Hx.
  destruct (add_elem_frame _ _ _ _ H) as (bl' & Hbl' & Hframe).
  rewrite Hbl in Hbl'. injection Hbl' as <-.
  apply Hframe.
  destruct (in_window (elem_view L e bl) x) eqn:Hv; [|reflexivity].
  rewrite (view_in_interior L e bl Hwf Hpos Hmax x Hv) in Hx. discriminate.
Qed.

(** ** When the fold returns *)

Lemma compatible_same_lengths :
  forall w w' : window,
    length w = length w' ->
    (forall d p q, nth_error w d = Some p -> nth_error w' d = Some q ->
                   snd p = snd q) ->
    compatible (win_shape w) (win_shape w') = true.
Proof.
  induction w as [|p w IH]; intros [|q w'] Hlen H; simpl in *;
    try discriminate; [reflexivity|].
  rewrite (H 0%nat p q eq_refl eq_refl), Z.eqb_refl. simpl.
  apply IH; [lia|]. intros d. apply (H (S d)).
Qed.

(** With no upper bound below the first interior node, the view of the
    obstacle and the view moved by a velocity have the same shape. *)
Lemma views_compatible (L : Layout) (e : Element) (bl : list Q) (vk : list Z) :
  layout_wf L ->
  (forall k, (k < dim L)%nat -> 0 <= nth k (vmax (stencil L)) 0) ->
  (forall k, (k < dim L)%nat ->
     nth k (vmax (stencil L)) 0 <= nth k (elem_nmax L e bl) 0) ->
  In vk (unique_velocities (stencil L)) ->
  compatible (win_shape (elem_view L e bl))
             (win_shape (elem_moved L e bl vk)) = true.
Proof.
  intros Hwf Hpos Hmax Hvk. pose proof Hwf as (_ & Hch & _).
  apply compatible_same_lengths.
  - rewrite (elem_view_length _ _ _ Hch), (elem_moved_length _ _ _ _ Hch).
    reflexivity.
  - intros d p q Hp Hq.
    assert (Hd : (d < dim L)%nat).
    { rewrite <- (elem_view_length L e bl Hch). apply nth_error_Some. congruence. }
    destruct (moved_window_axis L e bl vk d Hwf Hvk Hd Hpos)
      as (lo & a & lo' & b & Hv & Hm & _ & Hsame).
    rewrite Hv in Hp. rewrite Hm in Hq.
    injection Hp as <-. injection Hq as <-. simpl.
    apply Hsame. apply Hmax. exact Hd.
Qed.

Lemma add_elem_total (L : Layout) (e : Element) (bl : list Q) (A : Arrays) :
  layout_wf L ->
  (forall k, (k < dim L)%nat -> 0 <= nth k (vmax (stencil L)) 0) ->
  get_bounds_halo_bl L = Ok bl ->
  (forall k, (k < dim L)%nat ->
     nth k (vmax (stencil L)) 0 <= nth k (elem_nmax L e bl) 0) ->
  exists A', add_elem L e A = Ok A'.
Proof.
  intros Hwf Hpos Hbl Hmax. unfold add_elem. rewrite Hbl. simpl.
  destruct (for_each_ok (fun _ : Arrays => True)
              (fold_velocity L e (elem_nmin L e bl) (elem_nmax L e bl)
                 (classify L e (elem_window L (elem_nmin L e bl) (elem_nmax L e bl))
                    (in_or_out A)))
              (seq 0 (unvtot (stencil L)))
              {| in_or_out :=
                   classify L e (elem_window L (elem_nmin L e bl) (elem_nmax L e bl))
                     (in_or_out A);
                 distance := distance A; flag := flag A |})
    as (A' & HA' & _); [| exact I | exists A'; exact HA'].
  intros k t Hk _. apply in_seq in Hk. unfold fold_velocity, lookup.
  destruct (nth_error (unique_velocities (stencil L)) k) as [vk|] eqn:Hvk.
  2:{ apply nth_error_None in Hvk. unfold unvtot in Hk. lia. }
  simpl. destruct (any_nonzero vk); [|eauto].
  unfold shapes_clash.
  change (elem_window L (elem_nmin L e bl) (elem_nmax L e bl))
    with (elem_view L e bl).
  change (moved_window L (elem_nmin L e bl) (elem_nmax L e bl) vk)
    with (elem_moved L e bl vk).
  rewrite (views_compatible L e bl vk Hwf Hpos Hmax (nth_error_In _ _ Hvk)).
  simpl. eauto.
Qed.

(** X11.  The fold of an obstacle returns whenever no upper bound of
    its widened box falls below the first interior node: the view and
    every moved view then have the same shape. *)
Theorem fold_returns (L : Layout) (e : Element) (bl : list Q) (A : Arrays) :
  layout_wf L ->
  (forall k, (k < dim L)%nat -> 0 <= nth k (vmax (stencil L)) 0) ->
  get_bounds_halo_bl L = Ok bl ->
  (forall k, (k < dim L)%nat ->
     nth k (vmax (stencil L)) 0 <= nth k (elem_nmax L e bl) 0) ->
  (exists A', add_elem L e A = Ok A') /\
  forall vk, In vk (unique_velocities (stencil L)) ->
    compatible (win_shape (elem_view L e bl))
               (win_shape (elem_moved L e bl vk)) = true.
Proof.
  intros Hwf Hpos Hbl Hmax. split.
  - exact (add_elem_total L e bl A Hwf Hpos Hbl Hmax).
  - intros vk Hvk. exact (views_compatible L e bl vk Hwf Hpos Hmax Hvk).
Qed.

(** ** When the construction returns *)

Lemma global_sizes_length (dx0 : Q) :
  forall bs gs, global_sizes bs dx0 = Ok gs -> length gs = length bs.
Proof.
  induction bs as [|b bs IH]; intros gs H; simpl in H.
  - inversion H. reflexivity.
  - destruct (is_integer _); [|discriminate].
    apply bind_ok in H. destruct H as (l & Hl & H). inversion H; subst.
    simpl. rewrite (IH l Hl). reflexivity.
Qed.

Lemma collect_total {A : Type} (f : nat -> result A) :
  forall n s, (forall k, (k < n)%nat -> exists a, f (s + k)%nat = Ok a) ->
              exists l, collect (map f (seq s n)) = Ok l.
Proof.
  induction n as [|n IH]; intros s H; simpl; [eauto|].
  destruct (H 0%nat ltac:(lia)) as (a & Ha). rewrite Nat.add_0_r in Ha.
  rewrite Ha. simpl.
  destruct (IH (S s)) as (l & Hl).
  { intros k Hk. destruct (H (S k) ltac:(lia)) as (b & Hb).
    exists b. rewrite <- Hb. f_equal. lia. }
  rewrite Hl. simpl. eauto.
Qed.

(** X12.  The coordinates are built whenever the quotient of every
    side of the box by the space step, as binary64 computes it, is an
    integer, the partitioner and the stencil speak of every axis, and no
    axis is given a negative number of nodes; the global size is then
    that integer on every axis. *)
Theorem create_coords_returns (g : Geometry) (st : Stencil) (dx0 : Q)
    (get_region : Partitioner) :
  Forall (fun b => is_integer (float_ratio b dx0) = true) (bounds g) ->
  length (get_region
            (map (fun b => inject_Z (float_value (float_ratio b dx0))) (bounds g)))
  = geom_dim g ->
  length (vmax st) = geom_dim g ->
  (forall k r h,
     nth_error (get_region
                  (map (fun b => inject_Z (float_value (float_ratio b dx0)))
                       (bounds g))) k
     = Some r ->
     nth_error (vmax st) k = Some h -> 0 <= snd r - fst r + 2 * h) ->
  exists L,
    create_coords g st dx0 get_region
    = Ok (map (fun b => inject_Z (float_value (float_ratio b dx0))) (bounds g), L).
Proof.
  intros Hmul Hreg Hvm Hnum. unfold create_coords.
  rewrite (global_sizes_value _ _ Hmul). simpl.
  set (gs := map (fun b => inject_Z (float_value (float_ratio b dx0))) (bounds g))
    in *.
  destruct (collect_total
              (axis_coords_halo (bounds g) dx0 (get_region gs) (vmax st))
              (geom_dim g) 0) as (ch & Hch).
  { intros k Hk. simpl. unfold axis_coords_halo, lookup.
    destruct (nth_error (bounds g) k) as [b|] eqn:Hb.
    2:{ apply nth_error_None in Hb. unfold geom_dim in Hk. lia. }
    destruct (nth_error (get_region gs) k) as [r|] eqn:Hr.
    2:{ apply nth_error_None in Hr. lia. }
    destruct (nth_error (vmax st) k) as [h|] eqn:Hh.
    2:{ apply nth_error_None in Hh. lia. }
    cbn [bind]. unfold linspace.
    pose proof (Hnum k r h Hr Hh).
    destruct (Z.ltb_spec (snd r - fst r + 2 * h) 0); [lia|]. eauto. }
  rewrite Hch. simpl.
  destruct (collect_total
              (fun k => h <- lookup (vmax st) k ;;
                        Ok (slice_list (nth k ch []) h (- h)))
              (geom_dim g) 0) as (c & Hc).
  { intros k Hk. simpl. unfold lookup.
    destruct (nth_error (vmax st) k) as [h|] eqn:Hh.
    2:{ apply nth_error_None in Hh. lia. }
    simpl. eauto. }
  rewrite Hc. simpl. eauto.
Qed.

Lemma setitem_total {A : Type} (v : A) :
  forall (l : list A) (k : nat),
    (k < length l)%nat ->
    exists l', setitem l k v = Ok l' /\ length l' = length l.
Proof.
  induction l as [|a l IH]; intros [|k] Hk; simpl in *; try lia.
  - eauto.
  - destruct (IH k ltac:(lia)) as (l' & Hl' & Hlen).
    rewrite Hl'. simpl. eexists. split; [reflexivity|]. simpl. lia.
Qed.

Lemma relabel_total (region : list (Z * Z)) (gs : list Q) (n : nat)
    (lab : list Z) :
  (n <= length region)%nat -> (n <= length gs)%nat ->
  (2 * n <= length lab)%nat ->
  exists lab', relabel n region gs lab = Ok lab'.
Proof.
  intros Hr Hg Hl. unfold relabel.
  destruct (for_each_ok (fun l : list Z => length l = length lab)
              (relabel_axis region gs) (seq 0 n) lab)
    as (lab' & Hlab' & _); [| reflexivity | eauto].
  intros i t Hi Ht. apply in_seq in Hi. unfold relabel_axis, lookup.
  destruct (nth_error region i) as [r|] eqn:Er.
  2:{ apply nth_error_None in Er. lia. }
  destruct (nth_error gs i) as [q|] eqn:Eq.
  2:{ apply nth_error_None in Eq. lia. }
  cbn [bind].
  assert (H1 : exists lab1,
            (if negb (fst r =? 0) then setitem t (2 * i) interface else Ok t)
            = Ok lab1 /\ length lab1 = length lab).
  { destruct (negb (fst r =? 0)); [|eauto].
    destruct (setitem_total interface t (2 * i)) as (l1 & -> & Hlen); [lia|].
    exists l1. split; [reflexivity | congruence]. }
  destruct H1 as (lab1 & -> & Hlen1). cbn [bind].
  destruct (negb (Qeq_bool (inject_Z (snd r)) q)); [|eauto].
  destruct (setitem_total interface lab1 (2 * i + 1)) as (l2 & -> & Hlen2); [lia|].
  exists l2. split; [reflexivity | congruence].
Qed.

Lemma relabel_length (region : list (Z * Z)) (gs : list Q) (n : nat)
    (lab lab' : list Z) :
  relabel n region gs lab = Ok lab' -> length lab' = length lab.
Proof.
  intros H. unfold relabel in H.
  destruct (relabel_loop _ _ _ _ _ _ H) as (Hlen & _). exact Hlen.
Qed.

(** X13.  The constructor returns a domain when the coordinates are
    built for a stencil bounded by its [vmax], the block of the process
    is not reversed and is at least [vmax] nodes wide, every face has a
    label, and the widened box of no obstacle ends below the first
    interior node. *)
Theorem construction_succeeds (g : Geometry) (st : Stencil) (dx0 : Q)
    (get_region : Partitioner) (gs : list Q) (L : Layout) :
  create_coords g st dx0 get_region = Ok (gs, L) ->
  stencil_wf (geom_dim g) st ->
  Forall (fun r => fst r <= snd r) (get_region gs) ->
  (forall k, (k < dim L)%nat ->
             0 <= nth k (vmax st) 0 <= nth k (shape_in L) 0) ->
  (2 * dim L <= length (box_label g))%nat ->
  Forall (fun e => exists bl,
            get_bounds_halo_bl L = Ok bl /\
            forall k, (k < dim L)%nat ->
                      nth k (vmax st) 0 <= nth k (elem_nmax L e bl) 0)
         (list_elem g) ->
  exists d,
    Domain_init g st dx0 get_region = Ok d /\
    layout d = L /\ geom d = g /\ global_size d = gs.
Proof.
  intros Hcc Hst Hreg Hwide Hlab Hels.
  pose proof (create_coords_wf _ _ _ _ _ _ Hcc Hst Hreg) as Hwf.
  pose proof (create_coords_spec _ _ _ _ _ _ Hcc) as (Hdim & Hs & _ & _ & _ & Hax).
  assert (Hgs : length gs = geom_dim g).
  { unfold create_coords in Hcc.
    apply bind_ok in Hcc. destruct Hcc as (gs' & Hgs' & Hcc).
    apply bind_ok in Hcc. destruct Hcc as (ch & _ & Hcc).
    apply bind_ok in Hcc. destruct Hcc as (c & _ & Hcc).
    inversion Hcc; subst gs'. exact (global_sizes_length _ _ _ Hgs'). }
  assert (Hrl : (dim L <= length (get_region gs))%nat).
  { destruct (dim L) as [|n] eqn:En; [lia|].
    destruct (Hax n ltac:(lia)) as (r & h & Hr & _).
    assert (n < length (get_region gs))%nat by (apply nth_error_Some; congruence).
    lia. }
  unfold Domain_init. rewrite Hcc. simpl.
  destruct (relabel_total (get_region gs) gs (dim L) (box_label g))
    as (lab & Hrel); [lia | lia | exact Hlab |].
  rewrite Hrel. simpl.
  destruct (add_init_total L lab fresh_arrays Hwf) as (A1 & HA1).
  { intros k Hk. rewrite Hs. apply Hwide. exact Hk. }
  { rewrite (relabel_length _ _ _ _ _ Hrel). exact Hlab. }
  rewrite HA1. simpl.
  destruct (for_each_ok (fun _ : Arrays => True) (add_elem L) (list_elem g) A1)
    as (A2 & HA2 & _); [| exact I |].
  { intros e t He _. rewrite Forall_forall in Hels.
    destruct (Hels e He) as (bl & Hbl & Hmax).
    destruct (add_elem_total L e bl t Hwf) as (t' & Ht'); [| exact Hbl | | eauto].
    - intros k Hk. rewrite Hs. apply Hwide. exact Hk.
    - intros k Hk. rewrite Hs. apply Hmax. exact Hk. }
  rewrite HA2. simpl. eexists. split; [reflexivity|]. simpl. auto.
Qed.

(** ** Nodes without a recorded distance *)

Lemma one_lt_valinQ : (1 < valinQ)%Q.
Proof. reflexivity. Qed.

Lemma stamp_sentinel (L : Layout) (a k : nat) (i : Z) (dvik : Q) (lab : Z)
    (A A' : Arrays) :
  stamp L a k i dvik lab A = Ok A' -> (dvik < 1)%Q ->
  (forall k' x, (distance A k' x <= valinQ)%Q /\
                ((distance A k' x == valinQ)%Q -> flag A k' x = valin)) ->
  forall k' x, (distance A' k' x <= valinQ)%Q /\
               ((distance A' k' x == valinQ)%Q -> flag A' k' x = valin).
Proof.
  unfold stamp. intros H Hlt HA k' x.
  apply bind_ok in H. destruct H as (m & _ & H).
  apply bind_ok in H. destruct H as (row & _ & H).
  inversion H; subst A'; clear H. simpl.
  match goal with |- context [if ?c then _ else _] => destruct c end;
    [|apply HA].
  pose proof (Qlt_trans _ _ _ Hlt one_lt_valinQ) as Hd.
  split; [apply Qlt_le_weak; exact Hd|].
  intros E. rewrite E in Hd. exfalso. exact (Qlt_irrefl _ Hd).
Qed.

Lemma stamp_velocity_sentinel (L : Layout) (lab : list Z) (a k : nat)
    (vk : Z) (A A' : Arrays) :
  stamp_velocity L lab a k vk A = Ok A' ->
  (forall k' x, (distance A k' x <= valinQ)%Q /\
                ((distance A k' x == valinQ)%Q -> flag A k' x = valin)) ->
  forall k' x, (distance A' k' x <= valinQ)%Q /\
               ((distance A' k' x == valinQ)%Q -> flag A' k' x = valin).
Proof.
  unfold stamp_velocity. intros H HA.
  destruct (Z.ltb_spec vk 0) as [Hneg|Hnn].
  - apply bind_ok in H. destruct H as (l & _ & H).
    destruct (negb (l =? interface)); [|inversion H; subst; exact HA].
    refine (for_each_inv
              (fun B => forall k' x, (distance B k' x <= valinQ)%Q /\
                 ((distance B k' x == valinQ)%Q -> flag B k' x = valin))
              _ _ _ _ _ _ H); [|exact HA].
    intros i t t' Hin Ht Hs. apply in_range in Hin.
    refine (stamp_sentinel _ _ _ _ _ _ _ _ Hs _ Ht).
    pose proof (crossing_lt_1 vk i ltac:(lia)) as Hc.
    unfold crossing in Hc.
    destruct (Z.ltb_spec vk 0); [exact Hc | lia].
  - destruct (Z.ltb_spec 0 vk) as [Hpos|Hz]; [|inversion H; subst; exact HA].
    apply bind_ok in H. destruct H as (l & _ & H).
    destruct (negb (l =? interface)); [|inversion H; subst; exact HA].
    refine (for_each_inv
              (fun B => forall k' x, (distance B k' x <= valinQ)%Q /\
                 ((distance B k' x == valinQ)%Q -> flag B k' x = valin))
              _ _ _ _ _ _ H); [|exact HA].
    intros i t t' Hin Ht Hs. apply in_range in Hin.
    refine (stamp_sentinel _ _ _ _ _ _ _ _ Hs _ Ht).
    pose proof (crossing_lt_1 vk i ltac:(lia)) as Hc.
    unfold crossing in Hc.
    destruct (Z.ltb_spec vk 0); [lia | exact Hc].
Qed.

Lemma add_elem_sentinel (L : Layout) (e : Element) (A A' : Arrays) :
  add_elem L e A = Ok A' ->
  (isfluid e = true ->
   forall c v, (fst (distance_to e c v 1) < valinQ)%Q) ->
  (forall k x, (distance A k x <= valinQ)%Q /\
               ((distance A k x == valinQ)%Q -> flag A k x = valin)) ->
  forall k x, (distance A' k x <= valinQ)%Q /\
              ((distance A' k x == valinQ)%Q -> flag A' k x = valin).
Proof.
  intros H Hfl HA k x.
  destruct (add_elem_spec _ _ _ _ H) as (bl & _ & _ & Hrows).
  specialize (Hrows k x). cbv zeta in Hrows.
  destruct (nth_error (unique_velocities (stencil L)) k) as [vk|];
    [|destruct Hrows as [-> ->]; apply HA].
  destruct (any_nonzero vk); [|destruct Hrows as [-> ->]; apply HA].
  destruct Hrows as (_ & -> & ->). unfold row_dist, row_flag.
  set (w := elem_view L e bl). set (w' := elem_moved L e bl vk).
  set (ioo := classify L e w (in_or_out A)).
  assert (Hreset :
    (reset_dist L e w w' ioo (distance A k) x <= valinQ)%Q /\
    ((reset_dist L e w w' ioo (distance A k) x == valinQ)%Q ->
     reset_flag L e w w' ioo (flag A k) x = valin)).
  { unfold reset_dist, reset_flag.
    destruct (in_window w x && reset_mask L e w w' ioo x); [|apply HA].
    split; [apply Qle_refl | reflexivity]. }
  destruct (ind_merge L e vk w w' ioo (reset_dist L e w w' ioo (distance A k)) x)
    eqn:Hm; [|exact Hreset].
  assert (Hlt : (alpha L e vk x < valinQ)%Q).
  { unfold ind_merge in Hm. apply andb_prop in Hm. destruct Hm as [_ Hm].
    unfold merge_test in Hm. destruct (isfluid e) eqn:Ef.
    - apply Hfl. reflexivity.
    - apply Qltb_lt in Hm. apply (Qlt_le_trans _ _ _ Hm). apply Hreset. }
  split; [apply Qlt_le_weak; exact Hlt|].
  intros E. rewrite E in Hlt. exfalso. exact (Qlt_irrefl _ Hlt).
Qed.

(** X14.  In a built domain no stored distance is above the sentinel,
    and a ray that holds the sentinel as its distance holds the
    sentinel as its label; a fluid obstacle is asked not to answer the
    sentinel or more as a distance, a solid one cannot. *)
Theorem unrecorded_rays_have_no_label (g : Geometry) (st : Stencil) (dx0 : Q)
    (get_region : Partitioner) (d : Domain) :
  Domain_init g st dx0 get_region = Ok d ->
  Forall (fun e => isfluid e = true ->
                   forall c v, (fst (distance_to e c v 1) < valinQ)%Q)
         (list_elem g) ->
  forall k x,
    (distance (arrays d) k x <= valinQ)%Q /\
    ((distance (arrays d) k x == valinQ)%Q -> flag (arrays d) k x = valin).
Proof.
  unfold Domain_init. intros H Hels.
  apply bind_ok in H. destruct H as ([gs L] & _ & H). simpl in H.
  apply bind_ok in H. destruct H as (lab & _ & H).
  apply bind_ok in H. destruct H as (A1 & Hinit & H).
  apply bind_ok in H. destruct H as (A2 & Hfold & H).
  inversion H; subst d; clear H. simpl.
  rewrite Forall_forall in Hels.
  refine (for_each_inv
            (fun B => forall k x, (distance B k x <= valinQ)%Q /\
               ((distance B k x == valinQ)%Q -> flag B k x = valin))
            _ _ _ _ _ _ Hfold).
  - intros e t t' He Ht Hs.
    exact (add_elem_sentinel _ _ _ _ Hs (Hels e He) Ht).
  - unfold add_init in Hinit.
    refine (for_each_inv
              (fun B => forall k x, (distance B k x <= valinQ)%Q /\
                 ((distance B k x == valinQ)%Q -> flag B k x = valin))
              _ _ _ _ _ _ Hinit).
    + intros a t t' _ Ht Hs. unfold stamp_axis in Hs.
      refine (for_each_inv
                (fun B => forall k x, (distance B k x <= valinQ)%Q /\
                   ((distance B k x == valinQ)%Q -> flag B k x = valin))
                _ _ _ _ _ _ Hs); [|exact Ht].
      intros kv u u' _ Hu Hv. exact (stamp_velocity_sentinel _ _ _ _ _ _ _ Hv Hu).
    + intros k x. simpl. split; [apply Qle_refl | reflexivity].
Qed.

(** ** The stamping in two and three dimensions *)

Lemma stamp_lowers (L : Layout) (a k : nat) (i : Z) (dvik : Q) (lab : Z)
    (A0 A A' : Arrays) :
  dim L <> 1%nat ->
  stamp L a k i dvik lab A = Ok A' ->
  (forall k' x, (distance A k' x <= distance A0 k' x)%Q /\
                (flag A k' x <> flag A0 k' x ->
                 (distance A k' x < distance A0 k' x)%Q)) ->
  forall k' x, (distance A' k' x <= distance A0 k' x)%Q /\
               (flag A' k' x <> flag A0 k' x ->
                (distance A' k' x < distance A0 k' x)%Q).
Proof.
  unfold stamp. intros Hdim H HA k' x.
  apply bind_ok in H. destruct H as (m & _ & H).
  apply bind_ok in H. destruct H as (row & _ & H).
  inversion H; subst A'; clear H. simpl.
  apply Nat.eqb_neq in Hdim. rewrite Hdim.
  destruct (Nat.eqb_spec k' k) as [->|Hne]; [|apply HA]. cbn [andb].
  match goal with |- context [if ?c then _ else _] => destruct c eqn:Hc end;
    [|apply HA].
  apply andb_prop in Hc. destruct Hc as [_ Hc]. apply Qltb_lt in Hc.
  assert (Hlt : (dvik < distance A0 k x)%Q)
    by (apply (Qlt_le_trans _ _ _ Hc); apply HA).
  split; [apply Qlt_le_weak; exact Hlt | intros _; exact Hlt].
Qed.

(** X15.  In two and three dimensions the stamping of the box keeps,
    on every ray, the smallest of the distance it finds and of the
    crossings of the faces: no distance grows, and a label changes only
    where the distance decreases. *)
Theorem stamping_keeps_the_smallest (L : Layout) (lab : list Z)
    (A A' : Arrays) :
  dim L <> 1%nat ->
  add_init L lab A = Ok A' ->
  forall k x,
    (distance A' k x <= distance A k x)%Q /\
    (flag A' k x <> flag A k x -> (distance A' k x < distance A k x)%Q).
Proof.
  intros Hdim H. unfold add_init in H.
  refine (for_each_inv
            (fun B => forall k x, (distance B k x <= distance A k x)%Q /\
               (flag B k x <> flag A k x ->
                (distance B k x < distance A k x)%Q))
            _ _ _ _ _ _ H).
  - intros a t t' _ Ht Hs. unfold stamp_axis in Hs.
    refine (for_each_inv
              (fun B => forall k x, (distance B k x <= distance A k x)%Q /\
                 (flag B k x <> flag A k x ->
                  (distance B k x < distance A k x)%Q))
              _ _ _ _ _ _ Hs); [|exact Ht].
    intros [k0 v0] u u' _ Hu Hv. simpl in Hv. unfold stamp_velocity in Hv.
    assert (Hloop : forall (l : list Z) (f : Z -> Z) (dv : Z -> Q) (lb : Z),
              for_each l (fun i => stamp L a k0 (f i) (dv i) lb) u = Ok u' ->
              forall k x, (distance u' k x <= distance A k x)%Q /\
                (flag u' k x <> flag A k x ->
                 (distance u' k x < distance A k x)%Q)).
    { intros l f dv lb Hl.
      refine (for_each_inv
                (fun B => forall k x, (distance B k x <= distance A k x)%Q /\
                   (flag B k x <> flag A k x ->
                    (distance B k x < distance A k x)%Q))
                _ _ _ _ _ _ Hl); [|exact Hu].
      intros i s s' _ Hs0 Hst. exact (stamp_lowers _ _ _ _ _ _ _ _ _ Hdim Hst Hs0). }
    destruct (v0 <? 0).
    + apply bind_ok in Hv. destruct Hv as (l & _ & Hv).
      destruct (negb (l =? interface)).
      * exact (Hloop _ (fun i => i) _ _ Hv).
      * inversion Hv; subst. exact Hu.
    + destruct (0 <? v0).
      * apply bind_ok in Hv. destruct Hv as (l & _ & Hv).
        destruct (negb (l =? interface)).
        -- exact (Hloop _ (fun i => - i - 1) _ _ Hv).
        -- inversion Hv; subst. exact Hu.
      * inversion Hv; subst. exact Hu.
  - intros k x. simpl. split; [apply Qle_refl | intros Hne; contradiction].
Qed.

(** ** Obstacles of both kinds *)

Lemma find_snoc {A : Type} (f : A -> bool) (a : A) :
  forall l, find f (l ++ [a])
            = match find f l with
              | Some b => Some b
              | None => if f a then Some a else None
              end.
Proof.
  induction l as [|b l IH]; simpl; [reflexivity|].
  destruct (f b); [reflexivity | exact IH].
Qed.

(** X16.  After the obstacles are folded, a node covered by some of
    them (inside the obstacle and in its view) is classified by the
    last one that covers it, IN for a fluid obstacle and OUT for a
    solid one; a node that none covers keeps its classification. *)
Theorem last_obstacle_decides (L : Layout) (bl : list Q) (els : list Element)
    (A A' : Arrays) :
  get_bounds_halo_bl L = Ok bl ->
  for_each els (add_elem L) A = Ok A' ->
  forall x,
    in_or_out A' x =
      match find (fun e => in_window (elem_view L e bl) x &&
                           point_inside e (node_coords L x)) (rev els) with
      | Some e => if isfluid e then valin else valout
      | None => in_or_out A x
      end.
Proof.
  intros Hbl. revert A A'.
  induction els as [|e els IH]; intros A A' H x; simpl in *.
  - inversion H; reflexivity.
  - apply bind_ok in H. destruct H as (A1 & He & Hrest).
    rewrite (IH A1 A' Hrest x), find_snoc.
    destruct (find _ (rev els)); [reflexivity|].
    destruct (add_elem_spec _ _ _ _ He) as (bl' & Hbl' & Hio & _).
    rewrite Hbl in Hbl'. injection Hbl' as <-.
    cbv zeta in Hio. rewrite Hio. unfold classify, ind_fluid, ind_solid.
    destruct (isfluid e) eqn:Ef; rewrite ?negb_involutive;
      destruct (in_window (elem_view L e bl) x && point_inside e (node_coords L x));
      rewrite ?Ef; reflexivity.
Qed.

(** X17.  On a process whose block does not start at the lower end of
    the box along some axis, or does not reach its upper end, the
    interface label is in the list of the labels. *)
Theorem interface_is_listed (g : Geometry) (st : Stencil) (dx0 : Q)
    (get_region : Partitioner) (d : Domain) (i : nat) (r : Z * Z) (gsz : Q) :
  Domain_init g st dx0 get_region = Ok d ->
  (i < geom_dim g)%nat ->
  nth_error (get_region (global_size d)) i = Some r ->
  nth_error (global_size d) i = Some gsz ->
  fst r <> 0 \/ Qeq_bool (inject_Z (snd r)) gsz = false ->
  In interface (list_of_labels d).
Proof.
  unfold Domain_init. intros H Hi Hr Hg Hcut.
  apply bind_ok in H. destruct H as ([gs L] & Hcc & H). simpl in H.
  apply bind_ok in H. destruct H as (lab & Hlab & H).
  apply bind_ok in H. destruct H as (A1 & _ & H).
  apply bind_ok in H. destruct H as (A2 & _ & H).
  inversion H; subst d; clear H. simpl in *.
  apply create_coords_spec in Hcc. destruct Hcc as (Hdim & _).
  unfold relabel in Hlab. rewrite Hdim in Hlab.
  destruct (relabel_loop _ _ _ _ _ _ Hlab) as (_ & Hin & _).
  destruct (Hin i ltac:(lia)) as (r' & g' & Hr' & Hg' & He & Ho).
  rewrite Hr in Hr'. injection Hr' as <-.
  rewrite Hg in Hg'. injection Hg' as <-.
  unfold list_of_labels, np_union1d. simpl.
  apply np_unique_In, in_or_app. left. apply np_unique_In.
  destruct Hcut as [Hlo|Hhi].
  - apply Z.eqb_neq in Hlo. rewrite Hlo in He.
    exact (nth_error_In _ _ He).
  - rewrite Hhi in Ho. exact (nth_error_In _ _ Ho).
Qed.

(** ** The further properties at work on the worked configurations *)

Lemma half_domain_built :
  Domain_init (box1d 0 1 []) stencil_pm1 (1 # 4) lower_half = Ok half_domain.
Proof. apply get_ok. by_computation. Qed.

Lemma far_domain_built :
  Domain_init (box1d 0 1 [seg_far]) stencil_pm1 (1 # 4) whole_grid
  = Ok far_domain.
Proof. apply get_ok. by_computation. Qed.

Lemma solid_domain_built :
  Domain_init (box1d 0 1 [seg_in_a]) stencil_pm1 (1 # 4) whole_grid
  = Ok solid_domain.
Proof. apply get_ok. by_computation. Qed.

Lemma rest_domain_built :
  Domain_init (box1d 0 1 []) stencil_d1q3 (1 # 4) whole_grid = Ok rest_domain.
Proof. apply get_ok. by_computation. Qed.

Lemma layout1d_built :
  create_coords (box1d 0 1 []) stencil_pm1 (1 # 4) whole_grid
  = Ok ([4%Q], layout1d).
Proof. by_computation. Qed.

Lemma layout2d_built :
  create_coords (box2d []) stencil_d2q4 (1 # 4) whole_grid
  = Ok ([4%Q; 4%Q], layout2d).
Proof. by_computation. Qed.

Lemma layout_x_only_built :
  create_coords (box2d []) stencil_x_only (1 # 4) whole_grid
  = Ok ([4%Q; 4%Q], layout_x_only).
Proof. by_computation. Qed.

Lemma layout1d_wf : layout_wf layout1d.
Proof.
  apply (create_coords_wf _ _ _ _ _ _ layout1d_built stencil_pm1_wf).
  constructor; [cbv; discriminate | constructor].
Qed.

Lemma layout1d_vmax (k : nat) :
  (k < dim layout1d)%nat -> 0 <= nth k (vmax (stencil layout1d)) 0.
Proof.
  change (dim layout1d) with 1%nat. intros Hk.
  destruct k as [|k]; [cbv; discriminate | lia].
Qed.

Lemma seg_in_a_nmax (k : nat) :
  (k < dim layout1d)%nat ->
  nth k (vmax (stencil layout1d)) 0
  <= nth k (elem_nmax layout1d seg_in_a halo_bl1d) 0.
Proof.
  change (dim layout1d) with 1%nat. intros Hk.
  destruct k as [|k]; [vm_compute; discriminate | lia].
Qed.

Lemma folded1d_ok (els : list Element) (A : Arrays) :
  is_ok (for_each els (add_elem layout1d) A) = true ->
  for_each els (add_elem layout1d) A = Ok (folded1d els A).
Proof. apply get_ok. Qed.

(** The process that owns the lower half of the box: the lower end
    keeps its label, the upper end is an interface. *)
Lemma interface_labels_witness :
  nth_error (dom_box_label half_domain) 0 = Some 0 /\
  nth_error (dom_box_label half_domain) 1 = Some interface.
Proof.
  destruct (interface_labels _ _ _ _ _ half_domain_built) as (_ & Hax & _).
  destruct (Hax 0%nat) as (r & gsz & Hr & Hg & He & Ho); [vm_compute; lia|].
  vm_compute in Hr. injection Hr as <-.
  vm_compute in Hg. injection Hg as <-.
  split; [exact He | exact Ho].
Defined.

(** The first interior node of the box of four cells is at [1/8]. *)
Lemma coordinates_are_cell_centres_witness :
  (nth 0 (nth 0 (coords layout1d) []) 0 == 1 # 8)%Q.
Proof.
  destruct (coordinates_are_cell_centres _ _ _ _ _ _ 0%nat layout1d_built)
    as (b & r & h & Hb & Hr & Hh & _ & _ & Hin); [vm_compute; lia|].
  vm_compute in Hb. injection Hb as <-.
  vm_compute in Hr. injection Hr as <-.
  vm_compute in Hh. injection Hh as <-.
  destruct Hin as [_ Hin]; [lia | simpl; lia |].
  rewrite (Hin 0%nat); [by_computation | vm_compute; lia].
Defined.

(** The corners of the box of four cells. *)
Lemma bounds_of_the_domain_witness :
  exists bl ur blh urh,
    dom_get_bounds layout1d = Ok (bl, ur) /\
    get_bounds_halo layout1d = Ok (blh, urh) /\
    (nth 0 bl 0 == 1 # 8)%Q /\ (nth 0 ur 0 == 7 # 8)%Q /\
    (nth 0 blh 0 == - (1 # 8))%Q /\ (nth 0 urh 0 == 9 # 8)%Q.
Proof.
  destruct (bounds_of_the_domain _ _ _ _ _ _ layout1d_built)
    as (bl & ur & blh & urh & Hb & Hbh & _ & Hax).
  { intros [|k] r h Hr Hh; vm_compute in Hr; vm_compute in Hh;
      [|destruct k; discriminate].
    injection Hr as <-. injection Hh as <-. simpl. lia. }
  exists bl, ur, blh, urh. split; [exact Hb|]. split; [exact Hbh|].
  destruct (Hax 0%nat) as (b & r & h & Eb & Er & Eh & H1 & H2 & H3 & H4);
    [vm_compute; lia|].
  vm_compute in Eb. injection Eb as <-.
  vm_compute in Er. injection Er as <-.
  vm_compute in Eh. injection Eh as <-.
  rewrite H1, H2, H3, H4. repeat split; by_computation.
Defined.

(** The unit square under velocities along the first axis only. *)
Lemma axis_without_halo_witness :
  nth 1 (shape_in layout_x_only) 0 = 0 /\
  dom_get_bounds layout_x_only = Raise IndexError /\
  forall x, in_window (interior layout_x_only) x = false.
Proof.
  destruct (axis_without_halo _ _ _ _ _ _ 1%nat layout_x_only_built)
    as (_ & Hs & Hb & Hw & _); [vm_compute; lia | reflexivity |].
  split; [exact Hs|]. split; [exact Hb | exact Hw].
Defined.

(** On the line [x] is defined, [y] and [z] are not. *)
Lemma accessors_by_dimension_witness :
  is_ok (coords_x layout1d) = true /\
  coords_y layout1d = Raise IndexError /\
  z_halo layout1d = Raise IndexError.
Proof.
  pose proof (accessors_by_dimension _ _ _ _ _ _ layout1d_built) as H.
  pose proof (H 0%nat _ _ (or_introl eq_refl)) as H0.
  pose proof (H 1%nat _ _ (or_intror (or_introl eq_refl))) as H1.
  pose proof (H 2%nat _ _ (or_intror (or_intror (or_introl eq_refl)))) as H2.
  change (dim layout1d) with 1%nat in H0, H1, H2. cbn [Nat.ltb Nat.leb] in H0, H1, H2.
  destruct H0 as (ch & _ & ->). destruct H1 as [-> _]. destruct H2 as [_ ->].
  repeat split.
Defined.

(** The box with a solid segment inside. *)
Lemma classification_is_binary_witness :
  in_or_out (arrays solid_domain) [3] = valin \/
  in_or_out (arrays solid_domain) [3] = valout.
Proof.
  exact (classification_is_binary _ _ _ _ _ solid_domain_built [3]).
Defined.

(** The two nested solid segments, in both orders. *)
Lemma solid_obstacles_union_witness :
  in_or_out (folded1d [seg_in_a; seg_in_b] stamped1d) [3] = valout /\
  forall x, in_or_out (folded1d [seg_in_b; seg_in_a] stamped1d) x
            = in_or_out (folded1d [seg_in_a; seg_in_b] stamped1d) x.
Proof.
  destruct (solid_obstacles_union layout1d halo_bl1d [seg_in_a; seg_in_b]
              stamped1d (folded1d [seg_in_a; seg_in_b] stamped1d)
              layout1d_bounds) as [Hf Hp].
  - repeat constructor.
  - apply folded1d_ok. reflexivity.
  - split.
    + rewrite Hf. by_computation.
    + apply (Hp [seg_in_b; seg_in_a]); [apply perm_swap|].
      apply folded1d_ok. reflexivity.
Defined.

(** The rows of the velocity [0] of the line. *)
Lemma rest_velocity_untouched_witness :
  distance (arrays rest_domain) 0 [1] = valinQ /\
  flag (arrays rest_domain) 0 [1] = valin.
Proof.
  exact (rest_velocity_untouched _ _ _ _ _ 0%nat [0] rest_domain_built
           eq_refl eq_refl [1]).
Defined.

(** The ray of the node [2] towards the solid segment. *)
Lemma distances_are_positive_witness :
  Qlt 0 (distance (arrays solid_domain) 0 [2]).
Proof.
  exact (distances_are_positive _ _ _ _ _ solid_domain_built 0%nat [2]).
Defined.

(** The solid segment inside the box leaves the halo node [0] alone. *)
Lemma halo_untouched_by_fold_witness :
  in_or_out (fold1d seg_in_a stamped1d) [0] = in_or_out stamped1d [0] /\
  forall k, distance (fold1d seg_in_a stamped1d) k [0] = distance stamped1d k [0] /\
            flag (fold1d seg_in_a stamped1d) k [0] = flag stamped1d k [0].
Proof.
  apply (halo_untouched_by_fold layout1d seg_in_a halo_bl1d stamped1d
           (fold1d seg_in_a stamped1d) layout1d_wf layout1d_vmax
           layout1d_bounds).
  - intros k Hk. apply (Z.le_trans _ _ _ (layout1d_vmax k Hk)).
    apply seg_in_a_nmax. exact Hk.
  - apply fold1d_ok. reflexivity.
  - reflexivity.
Defined.

Lemma fold_returns_witness :
  exists A', add_elem layout1d seg_in_a stamped1d = Ok A'.
Proof.
  exact (proj1 (fold_returns layout1d seg_in_a halo_bl1d stamped1d
                  layout1d_wf layout1d_vmax layout1d_bounds seg_in_a_nmax)).
Defined.

(** The box of length one for the space step [1/4]. *)
Lemma create_coords_returns_witness :
  exists L, create_coords (box1d 0 1 []) stencil_pm1 (1 # 4) whole_grid
            = Ok ([4%Q], L).
Proof.
  apply (create_coords_returns (box1d 0 1 []) stencil_pm1 (1 # 4) whole_grid).
  - constructor; [by_computation | constructor].
  - reflexivity.
  - reflexivity.
  - intros [|k] r h Hr Hh; vm_compute in Hr; vm_compute in Hh;
      [|destruct k; discriminate].
    injection Hr as <-. injection Hh as <-. simpl. lia.
Defined.

(** The box with the solid segment inside. *)
Lemma construction_succeeds_witness :
  exists d,
    Domain_init (box1d 0 1 [seg_in_a]) stencil_pm1 (1 # 4) whole_grid = Ok d /\
    layout d = layout1d.
Proof.
  destruct (construction_succeeds (box1d 0 1 [seg_in_a]) stencil_pm1 (1 # 4)
              whole_grid [4%Q] layout1d) as (d & Hd & HL & _).
  - by_computation.
  - exact stencil_pm1_wf.
  - constructor; [cbv; discriminate | constructor].
  - intros [|k] Hk; [vm_compute; split; discriminate|].
    change (dim layout1d) with 1%nat in Hk. lia.
  - change (dim layout1d) with 1%nat. simpl. lia.
  - constructor; [|constructor]. exists halo_bl1d.
    split; [exact layout1d_bounds | exact seg_in_a_nmax].
  - exists d. split; [exact Hd | exact HL].
Defined.

(** The ray of the node [3], inside the solid segment. *)
Lemma unrecorded_rays_have_no_label_witness :
  Qle (distance (arrays solid_domain) 0 [3]) valinQ /\
  (Qeq (distance (arrays solid_domain) 0 [3]) valinQ ->
   flag (arrays solid_domain) 0 [3] = valin).
Proof.
  apply (unrecorded_rays_have_no_label _ _ _ _ _ solid_domain_built).
  constructor; [|constructor]. intros Hf. discriminate Hf.
Defined.

(** The unit square stamped alone. *)
Lemma stamping_keeps_the_smallest_witness :
  Qle (distance stamped2d 1 [1; 1]) (distance fresh_arrays 1 [1; 1]) /\
  (flag stamped2d 1 [1; 1] <> flag fresh_arrays 1 [1; 1] ->
   Qlt (distance stamped2d 1 [1; 1]) (distance fresh_arrays 1 [1; 1])).
Proof.
  apply (stamping_keeps_the_smallest layout2d [0; 0; 0; 0] fresh_arrays stamped2d).
  - vm_compute. discriminate.
  - apply get_ok. by_computation.
Defined.

(** A fluid segment punched in a solid one: the node [3], inside both,
    ends IN; folded the other way round it ends OUT. *)
Lemma last_obstacle_decides_witness :
  in_or_out (folded1d [seg_in_a; seg_fluid_in] stamped1d) [3] = valin /\
  in_or_out (folded1d [seg_fluid_in; seg_in_a] stamped1d) [3] = valout.
Proof.
  split.
  - rewrite (last_obstacle_decides layout1d halo_bl1d [seg_in_a; seg_fluid_in]
               stamped1d (folded1d [seg_in_a; seg_fluid_in] stamped1d)
               layout1d_bounds
               (folded1d_ok [seg_in_a; seg_fluid_in] stamped1d eq_refl)).
    by_computation.
  - rewrite (last_obstacle_decides layout1d halo_bl1d [seg_fluid_in; seg_in_a]
               stamped1d (folded1d [seg_fluid_in; seg_in_a] stamped1d)
               layout1d_bounds
               (folded1d_ok [seg_fluid_in; seg_in_a] stamped1d eq_refl)).
    by_computation.
Defined.

Lemma interface_is_listed_witness : In interface (list_of_labels half_domain).
Proof.
  apply (interface_is_listed _ _ _ _ _ 0%nat (0, 2) 4%Q half_domain_built).
  - vm_compute. lia.
  - by_computation.
  - by_computation.
  - right. by_computation.
Defined.
